(** * TaskFlow voice-control session: codec, scheduler, task store, dispatcher

    A shallow embedding of the voice-control core of the TaskFlow front end
    (the single TypeScript module holding [DjangoAPI], the PCM helpers and
    [startLiveSession]) together with the properties its specification
    states about it.

    Conventions of the embedding:
    - an [async] function is a state-passing function that returns a value
      or a thrown exception; a handler runs to completion before the next
      one starts, and the [setTimeout] pauses of the mock back end only let
      time pass;
    - audio samples are rationals, which hold every single-precision value
      exactly; task ids are integers, and the one addition made on them
      rounds as the addition of doubles does; the times of the audio clock
      are doubles, non-negative or infinite, and their sums round;
    - what the browser decides (the microphone prompt, the readings of the
      two clocks) is an argument of the function that asks for it. *)

From Stdlib Require Import ZArith QArith Qabs Qminmax Qround Lia Lqa Ascii.
From stdpp Require Import base option list strings gmap.

Local Open Scope Z_scope.

(** ** JavaScript preliminaries *)

(** What a [throw] carries.  [Error] is the constructor the source calls
    itself; the other three are raised by the run time ([TypeError] on a
    property read of [undefined], [RangeError] by the typed-array
    constructor, a [DOMException] by [atob], [createBuffer] and
    [getUserMedia]). *)
Inductive JsExn : Type :=
  | Error (message : string)
  | TypeError (message : string)
  | RangeError (message : string)
  | DOMException (name message : string).

(** [(e as Error).message] *)
Definition message_of (e : JsExn) : string :=
  match e with
  | Error m | TypeError m | RangeError m | DOMException _ m => m
  end.

(** [e.name] *)
Definition exn_name (e : JsExn) : string :=
  match e with
  | Error _ => "Error"
  | TypeError _ => "TypeError"
  | RangeError _ => "RangeError"
  | DOMException n _ => n
  end.

(** The outcome of evaluating a piece of code: a value or a [throw]. *)
Inductive Completion (A : Type) : Type :=
  | Normal (a : A)
  | Throw (e : JsExn).
Arguments Normal {A} a.
Arguments Throw {A} e.

(** ** Numbers

    A JavaScript number is an IEEE 754 double: 53 significant bits, every
    result rounded to the nearest double, a tie to the one whose last bit
    is 0.  The arithmetic is modelled on integers: an integer-valued double
    by that integer, and a time of the audio clock by its number of steps
    of 2^-1074, the distance between the smallest doubles, of which every
    finite double is a multiple. *)

Module Float64.

(** [n / d] rounded to the nearest integer, ties to even; [d] positive. *)
Definition rne (n d : Z) : Z :=
  let q := n / d in
  let r := n mod d in
  if 2 * r <? d then q
  else if d <? 2 * r then q + 1
  else if Z.even q then q else q + 1.

(** The number of low bits that the integer part of [n / d] has beyond the
    53 a double keeps. *)
Definition excess (n d : Z) : Z := Z.max 0 (Z.log2 (n / d) - 52).

(** The non-negative rational [n / d] rounded to the nearest integer with
    at most 53 significant bits. *)
Definition round (n d : Z) : Z :=
  let ulp := 2 ^ excess n d in
  rne n (d * ulp) * ulp.

(** The double nearest to the integer [k]: what [a + b] gives for
    integer-valued doubles [a] and [b] whose exact sum is [k].  (The sum
    of a double and 1 never overflows.) *)
Definition integer (k : Z) : Z := Z.sgn k * round (Z.abs k) 1.

(** [Number.isSafeInteger] *)
Definition isSafeInteger (n : Z) : Prop := Z.abs n ≤ 2 ^ 53 - 1.

(** *** Times of the audio clock

    [currentTime], which is never negative, [buffer.duration] and what the
    scheduler computes from them: a non-negative finite double, held as
    its number of steps of 2^-1074, or [+Infinity], held as 2^2098, the
    number of steps of 2^1024.  A result that rounds to 2^1024 or more is
    [+Infinity]. *)
Definition infinity : Z := 2 ^ 2098.

Definition overflow (k : Z) : Z := Z.min k infinity.

Definition is_double (k : Z) : bool :=
  (0 <=? k) && (k <=? infinity) && (round k 1 =? k).

Record t : Type := mk { grid : Z; grid_is_double : is_double grid = true }.

Definition zero : t := mk 0 eq_refl.

(** The value with the given number of steps; every use below passes a
    number that is one of a double (see [grid_of_round]). *)
Definition of_grid (k : Z) : t :=
  match Sumbool.sumbool_of_bool (is_double k) with
  | left H => mk k H
  | right _ => zero
  end.

(** The double nearest to [n / d], as [length / sampleRate] computes it;
    [n] not negative, [d] positive. *)
Definition ratio (n d : Z) : t := of_grid (overflow (round (n * 2 ^ 1074) d)).

(** [a + b] *)
Definition add (a b : t) : t := of_grid (overflow (round (grid a + grid b) 1)).

(** [Math.max(a, b)] *)
Definition max (a b : t) : t := if grid a <? grid b then b else a.

(** [a <= b] *)
Definition le (a b : t) : Prop := grid a ≤ grid b.

Definition finite (a : t) : Prop := grid a < infinity.

End Float64.

(** ** PCM codec *)

Module Codec.

(** *** Binary strings and the built-in [btoa] / [atob]

    A binary string is a [string]: every character is one code unit in
    0..255.  [btoa] and [atob] are the browser's built-ins (RFC 4648 with
    the forgiving decoder of the HTML standard). *)

Definition alphabet : list ascii :=
  String.list_ascii_of_string
    "ABCDEFGHIJKLMNOPQRSTUVWXYZabcdefghijklmnopqrstuvwxyz0123456789+/".

Definition pad : ascii := "="%char.

Definition b64char (n : Z) : ascii := nth (Z.to_nat n) alphabet pad.

Fixpoint index_in (c : ascii) (l : list ascii) (i : Z) : option Z :=
  match l with
  | [] => None
  | d :: l' => if Ascii.eqb c d then Some i else index_in c l' (i + 1)
  end.

Definition b64index (c : ascii) : option Z := index_in c alphabet 0.

(** The 24-bit groups of the input cut into 6-bit digits; a final group of
    one or two bytes gives two or three digits. *)
Fixpoint sextets (bs : list Z) : list Z :=
  match bs with
  | a :: b :: c :: rest =>
      a / 4 :: (a mod 4) * 16 + b / 16 :: (b mod 16) * 4 + c / 64 :: c mod 64
        :: sextets rest
  | [a; b] => [a / 4; (a mod 4) * 16 + b / 16; (b mod 16) * 4]
  | [a] => [a / 4; (a mod 4) * 16]
  | [] => []
  end.

Definition padding (n : nat) : list ascii :=
  replicate ((3 - n mod 3) mod 3)%nat pad.

Definition charCodeAt (c : ascii) : Z := Z.of_N (N_of_ascii c).
Definition fromCharCode (b : Z) : ascii := ascii_of_N (Z.to_N (b mod 65536)).

Definition btoa (binary : string) : string :=
  let bs := charCodeAt <$> String.list_ascii_of_string binary in
  String.string_of_list_ascii ((b64char <$> sextets bs) ++ padding (length bs)).

Definition is_whitespace (c : ascii) : bool :=
  match N_of_ascii c with
  | 9%N | 10%N | 12%N | 13%N | 32%N => true
  | _ => false
  end.

(** Step 2 of the forgiving decoder: when the length is a multiple of four,
    one or two trailing [=] are dropped. *)
Definition strip_padding (s : list ascii) : list ascii :=
  if (length s mod 4 =? 0)%nat then
    match rev s with
    | c1 :: c2 :: r =>
        if Ascii.eqb c1 pad then
          if Ascii.eqb c2 pad then rev r else rev (c2 :: r)
        else s
    | [c1] => if Ascii.eqb c1 pad then [] else s
    | [] => s
    end
  else s.

(** Digits back to bytes; the left-over bits of a final group of two or
    three digits are discarded. *)
Fixpoint unsextets (ds : list Z) : list Z :=
  match ds with
  | s1 :: s2 :: s3 :: s4 :: rest =>
      s1 * 4 + s2 / 16 :: (s2 mod 16) * 16 + s3 / 4 :: (s3 mod 4) * 64 + s4
        :: unsextets rest
  | [s1; s2; s3] => [s1 * 4 + s2 / 16; (s2 mod 16) * 16 + s3 / 4]
  | [s1; s2] => [s1 * 4 + s2 / 16]
  | _ => []
  end.

Definition atob (base64 : string) : Completion string :=
  let data :=
    strip_padding
      (List.filter (fun c => negb (is_whitespace c))
                   (String.list_ascii_of_string base64)) in
  if (length data mod 4 =? 1)%nat then
    Throw (DOMException "InvalidCharacterError"
             "The string to be decoded is not correctly encoded.")
  else
    match mapM b64index data with
    | None =>
        Throw (DOMException "InvalidCharacterError"
                 "The string to be decoded is not correctly encoded.")
    | Some ds => Normal (String.string_of_list_ascii (fromCharCode <$> unsextets ds))
    end.

(** *** Typed arrays *)

(** Storing a number into an [Int16Array]: truncate toward zero, wrap
    modulo 2^16, read the 16 bits as signed. *)
Definition toInt16 (x : Q) : Z :=
  let t := Z.quot (Qnum x) (Z.pos (Qden x)) in
  let m := t mod 65536 in
  if 32768 <=? m then m - 65536 else m.

(** [int16.buffer] seen through a [Uint8Array]: two bytes per element,
    low byte first. *)
Definition int16_bytes (v : Z) : list Z :=
  let u := v mod 65536 in [u mod 256; u / 256].

Definition buffer_of_int16 (int16 : list Z) : list Z :=
  int16 ≫= int16_bytes.

Definition signed16 (u : Z) : Z := if 32768 <=? u then u - 65536 else u.

Fixpoint int16_elements (bytes : list Z) : list Z :=
  match bytes with
  | lo :: hi :: rest => signed16 (lo + 256 * hi) :: int16_elements rest
  | _ => []
  end.

(** [new Int16Array(buffer)]: a buffer whose byte length is not a multiple
    of the element size is refused with a [RangeError]. *)
Definition new_Int16Array (bytes : list Z) : Completion (list Z) :=
  if (length bytes mod 2 =? 0)%nat then Normal (int16_elements bytes)
  else Throw (RangeError "byte length of Int16Array should be a multiple of 2").

(** *** The three source functions

    Samples are rationals.  Every [Float32Array] element is a dyadic
    rational, and on such inputs each product and quotient below is exact
    in the double arithmetic of the source, so nothing is lost. *)

Definition Qltb (x y : Q) : bool := negb (Qle_bool y x).

(** [Math.max(-1, Math.min(1, x))] *)
Definition clamp (x : Q) : Q := Qmax (-1) (Qmin 1 x).

Definition sample_to_int16 (x : Q) : Z :=
  let s := clamp x in
  toInt16 (if Qltb s 0 then s * 32768 else s * 32767)%Q.

Definition float32To16BitPCM (float32 : list Q) : list Z :=
  buffer_of_int16 (sample_to_int16 <$> float32).

Definition arrayBufferToBase64 (buffer : list Z) : string :=
  let binary := String.string_of_list_ascii (fromCharCode <$> buffer) in
  btoa binary.

Definition base64ToFloat32Array (base64 : string) : Completion (list Q) :=
  match atob base64 with
  | Throw e => Throw e
  | Normal binaryString =>
      let bytes := charCodeAt <$> String.list_ascii_of_string binaryString in
      match new_Int16Array bytes with
      | Throw e => Throw e
      | Normal int16 => Normal ((fun v => inject_Z v / 32768)%Q <$> int16)
      end
  end.

End Codec.

(** ** Playback scheduler *)

Module Scheduler.

(** The three scheduling lines of [onmessage]:
    [startTime = Math.max(now, nextStartTime)], [source.start(startTime)],
    [nextStartTime = startTime + buffer.duration].  The result is the start
    time handed to [source.start] and the new [nextStartTime]. *)
Definition schedule (now duration nextStartTime : Float64.t)
    : Float64.t * Float64.t :=
  let startTime := Float64.max now nextStartTime in
  (startTime, Float64.add startTime duration).

(** [buffer.duration] of a one-channel buffer of [len] frames at 24 kHz:
    the number of frames divided by the sample rate, a double. *)
Definition duration_of (len : nat) : Float64.t :=
  Float64.ratio (Z.of_nat len) 24000.

End Scheduler.

(** ** Values and records *)

(** The values that travel in tool-call arguments and task fields.  The
    [as string], [as number] and [as Priority] casts of the source are
    erased at run time, so a field holds whatever value arrived.  A
    property holding [undefined] and an absent property read the same,
    which is also what survives [JSON.stringify] / [JSON.parse].  Numbers
    are the integers (task ids); the one sum computed on them rounds as
    [Float64.integer] says. *)
Inductive JsVal : Type :=
  | JUndefined
  | JNull
  | JBool (b : bool)
  | JNum (n : Z)
  | JStr (s : string).

#[global] Instance JsVal_eq_dec : EqDecision JsVal.
Proof. solve_decision. Defined.

(** ToBoolean *)
Definition truthy (v : JsVal) : bool :=
  match v with
  | JUndefined | JNull => false
  | JBool b => b
  | JNum n => negb (n =? 0)
  | JStr s => negb (String.eqb s "")
  end.

(** [a || b] *)
Definition js_or (a b : JsVal) : JsVal := if truthy a then a else b.

Module Subtask.
Record t : Type := mk { id : string; title : string; completed : bool }.
End Subtask.

Module Task.
(** [interface Task]; the optional [due_date] and [completed_at] are
    [JUndefined] when absent, the optional [subtasks] is [None]. *)
Record t : Type := mk {
  id : Z;
  title : JsVal;
  description : JsVal;
  priority : JsVal;
  completed : JsVal;
  created_at : string;
  due_date : JsVal;
  completed_at : JsVal;
  subtasks : option (list Subtask.t)
}.
End Task.

Module TaskData.
(** [Omit<Task, 'id' | 'created_at'>], the argument of [createTask]. *)
Record t : Type := mk {
  title : JsVal;
  description : JsVal;
  priority : JsVal;
  completed : JsVal;
  due_date : JsVal;
  completed_at : JsVal;
  subtasks : option (list Subtask.t)
}.
End TaskData.

Module Patch.
(** [Partial<Task>]: [Some v] is a property that is present, also when
    [v] is [JUndefined]. *)
Record t : Type := mk {
  id : option Z;
  title : option JsVal;
  description : option JsVal;
  priority : option JsVal;
  completed : option JsVal;
  created_at : option string;
  due_date : option JsVal;
  completed_at : option JsVal;
  subtasks : option (list Subtask.t)
}.
Definition empty : t := mk None None None None None None None None None.
End Patch.

(** [{ ...task, ...updates }] *)
Definition spread (task : Task.t) (updates : Patch.t) : Task.t :=
  Task.mk
    (default (Task.id task) (Patch.id updates))
    (default (Task.title task) (Patch.title updates))
    (default (Task.description task) (Patch.description updates))
    (default (Task.priority task) (Patch.priority updates))
    (default (Task.completed task) (Patch.completed updates))
    (default (Task.created_at task) (Patch.created_at updates))
    (default (Task.due_date task) (Patch.due_date updates))
    (default (Task.completed_at task) (Patch.completed_at updates))
    (match Patch.subtasks updates with
     | Some s => Some s
     | None => Task.subtasks task
     end).

Module FunctionCall.
(** One entry of [msg.toolCall.functionCalls]; [args] may be missing. *)
Record t : Type := mk {
  id : string;
  name : string;
  args : option (gmap string JsVal)
}.
End FunctionCall.

Module Summary.
(** The projection [get_tasks] answers with. *)
Record t : Type := mk {
  id : Z;
  title : JsVal;
  priority : JsVal;
  completed : JsVal;
  due_date : JsVal
}.
End Summary.

(** The [result] object of a tool response. *)
Inductive ToolResult : Type :=
  | ResError (error : string)          (* { error } *)
  | ResTask (task : Task.t)            (* { success: true, task } *)
  | ResTasks (tasks : list Summary.t)  (* { tasks } *)
  | ResSuccess                         (* { success: true } *)
  | ResCount (count : Z).              (* { success: true, count } *)

Module FunctionResponse.
(** The argument of [session.sendToolResponse]. *)
Record t : Type := mk {
  id : string;
  name : string;
  result : ToolResult
}.
End FunctionResponse.

Module LiveServerMessage.
(** What [onmessage] reads of a message:
    [serverContent?.modelTurn?.parts?.[0]?.inlineData?.data] and
    [toolCall.functionCalls].  Each call comes with the reading that
    [new Date().toISOString()] gives while it is handled. *)
Record t : Type := mk {
  audioData : option string;
  toolCall : option (list (string * FunctionCall.t))
}.
End LiveServerMessage.

(** ** The state the session code reads and writes *)

Module World.
Record t : Type := mk {
  (** [localStorage[DB_NAME]], parsed; [None] when the item is absent *)
  localStorage : option (list Task.t);
  (** React state [tasks] *)
  tasks : list Task.t;
  (** React state [isLiveActive] and [liveError] *)
  isLiveActive : bool;
  liveError : option string;
  (** number of [ai.live.connect] calls made so far *)
  connects : nat;
  (** the closure variable of [startLiveSession], of the session that was
      started last *)
  nextStartTime : Float64.t;
  (** the [source.start(startTime)] calls so far, oldest first, each with
      the duration of its buffer *)
  started : list (Float64.t * Float64.t);
  (** the [session.sendToolResponse] calls so far, oldest first *)
  sent : list FunctionResponse.t
}.

Definition set_localStorage (v : option (list Task.t)) (w : t) : t :=
  mk v (tasks w) (isLiveActive w) (liveError w) (connects w)
     (nextStartTime w) (started w) (sent w).
Definition set_tasks (v : list Task.t) (w : t) : t :=
  mk (localStorage w) v (isLiveActive w) (liveError w) (connects w)
     (nextStartTime w) (started w) (sent w).
Definition set_isLiveActive (v : bool) (w : t) : t :=
  mk (localStorage w) (tasks w) v (liveError w) (connects w)
     (nextStartTime w) (started w) (sent w).
Definition set_liveError (v : option string) (w : t) : t :=
  mk (localStorage w) (tasks w) (isLiveActive w) v (connects w)
     (nextStartTime w) (started w) (sent w).
Definition set_connects (v : nat) (w : t) : t :=
  mk (localStorage w) (tasks w) (isLiveActive w) (liveError w) v
     (nextStartTime w) (started w) (sent w).
Definition set_nextStartTime (v : Float64.t) (w : t) : t :=
  mk (localStorage w) (tasks w) (isLiveActive w) (liveError w) (connects w)
     v (started w) (sent w).
Definition set_started (v : list (Float64.t * Float64.t)) (w : t) : t :=
  mk (localStorage w) (tasks w) (isLiveActive w) (liveError w) (connects w)
     (nextStartTime w) v (sent w).
Definition set_sent (v : list FunctionResponse.t) (w : t) : t :=
  mk (localStorage w) (tasks w) (isLiveActive w) (liveError w) (connects w)
     (nextStartTime w) (started w) v.

(** The page as loaded: nothing stored, nothing running. *)
Definition initial : t := mk None [] false None 0 Float64.zero [] [].
End World.

(** ** Effectful code: state and exceptions *)

Definition M (A : Type) : Type := World.t → Completion A * World.t.

#[global] Instance M_ret : MRet M := λ A a w, (Normal a, w).
#[global] Instance M_bind : MBind M := λ A B f m w,
  match m w with
  | (Normal a, w') => f a w'
  | (Throw e, w') => (Throw e, w')
  end.

Definition throw {A} (e : JsExn) : M A := λ w, (Throw e, w).
Definition get {A} (f : World.t → A) : M A := λ w, (Normal (f w), w).
Definition modify (f : World.t → World.t) : M unit := λ w, (Normal (), f w).

(** [try { body } catch (e) { handler }] *)
Definition try_catch {A} (body : M A) (handler : JsExn → M A) : M A := λ w,
  match body w with
  | (Normal a, w') => (Normal a, w')
  | (Throw e, w') => handler e w'
  end.

(** An already computed completion, used for the calls whose outcome the
    environment decides. *)
Definition lift {A} (c : Completion A) : M A := λ w, (c, w).

(** ** The mock back end *)

Module DjangoAPI.

(** [Math.max(...xs)]; the source only calls it on a non-empty list (on the
    empty one JavaScript gives [-Infinity]). *)
Definition Math_max (xs : list Z) : Z :=
  match xs with
  | [] => 0
  | x :: rest => foldl Z.max x rest
  end.

(** [raw ? JSON.parse(raw) : []]; the [setTimeout] pauses that open every
    method only let time pass. *)
Definition getTasks : M (list Task.t) :=
  get (λ w, default [] (World.localStorage w)).

Definition createTask (now : string) (data : TaskData.t) : M Task.t :=
  tasks ← getTasks;
  let nextId :=
    if bool_decide (0 < length tasks)%nat
    then Float64.integer (Math_max (Task.id <$> tasks) + 1)
    else 1 in
  let newTask :=
    Task.mk nextId
      (TaskData.title data) (TaskData.description data)
      (TaskData.priority data) (TaskData.completed data)
      now
      (TaskData.due_date data) (TaskData.completed_at data)
      (Some (default [] (TaskData.subtasks data))) in
  modify (World.set_localStorage (Some (newTask :: tasks)));;
  mret newTask.

(** [tasks.findIndex(t => t.id === id)]: strict equality, so only a number
    can match. *)
Definition findIndex (id : JsVal) (tasks : list Task.t) : option (nat * Task.t) :=
  list_find (λ t, JNum (Task.id t) = id) tasks.

Definition updateTask (id : JsVal) (updates : Patch.t) : M Task.t :=
  tasks ← getTasks;
  match findIndex id tasks with
  | None => throw (Error "404 Not Found")
  | Some (index, task) =>
      let updatedTask := spread task updates in
      modify (World.set_localStorage (Some (<[index := updatedTask]> tasks)));;
      mret updatedTask
  end.

Definition deleteTask (id : JsVal) : M unit :=
  tasks ← getTasks;
  let filtered := filter (λ t, JNum (Task.id t) ≠ id) tasks in
  modify (World.set_localStorage (Some filtered)).

Definition deleteCompletedTasks : M Z :=
  tasks ← getTasks;
  let initialCount := Z.of_nat (length tasks) in
  let activeTasks := filter (λ t, truthy (Task.completed t) = false) tasks in
  modify (World.set_localStorage (Some activeTasks));;
  mret (initialCount - Z.of_nat (length activeTasks)).

(** [localStorage.removeItem(DB_NAME)] *)
Definition clearDatabase : M unit :=
  modify (World.set_localStorage None).

End DjangoAPI.

(** ** The component's handlers *)

(** [loadTasks]; its own [try]/[catch] keeps every failure inside (the
    loading spinner it toggles is left out). *)
Definition loadTasks : M unit :=
  try_catch
    (data ← DjangoAPI.getTasks;
     modify (World.set_tasks data))
    (λ _, mret ()).

(** [handleToggle], the check-box of the task list. *)
Definition handleToggle (now : string) (id : Z) (current : bool) : M unit :=
  let updates :=
    Patch.mk None None None None
      (Some (JBool (negb current)))
      None None
      (Some (if negb current then JStr now else JUndefined))
      None in
  modify (λ w,
    World.set_tasks
      ((λ t, if decide (Task.id t = id) then spread t updates else t)
         <$> World.tasks w) w);;
  _ ← DjangoAPI.updateTask (JNum id) updates;
  mret ().

(** ** Tool dispatcher *)

Module Dispatcher.

(** [fc.args.k]: a [TypeError] when [args] is missing (the message is
    V8's), otherwise the property or [undefined]. *)
Definition prop (fc : FunctionCall.t) (k : string) : M JsVal :=
  match FunctionCall.args fc with
  | None =>
      throw (TypeError
        ("Cannot read properties of undefined (reading '" +:+ k +:+ "')"))
  | Some o => mret (default JUndefined (o !! k))
  end.

Definition summary (t : Task.t) : Summary.t :=
  Summary.mk (Task.id t) (Task.title t) (Task.priority t)
             (Task.completed t) (Task.due_date t).

(** The [switch] inside the [try]; with no matching [case] the initial
    value of [result] stays. *)
Definition switch (now : string) (fc : FunctionCall.t) : M ToolResult :=
  let name := FunctionCall.name fc in
  if decide (name = "create_task") then
    title ← prop fc "title";
    description ← prop fc "description";
    priority ← prop fc "priority";
    due_date ← prop fc "due_date";
    newTask ← DjangoAPI.createTask now
      (TaskData.mk title
         (js_or description (JStr ""))
         (js_or priority (JStr "Medium"))
         (JBool false)
         (js_or due_date (JStr ""))
         JUndefined None);
    loadTasks;;
    mret (ResTask newTask)
  else if decide (name = "get_tasks") then
    tasks ← DjangoAPI.getTasks;
    mret (ResTasks (summary <$> tasks))
  else if decide (name = "update_task_status") then
    id ← prop fc "id";
    completed ← prop fc "completed";
    _ ← DjangoAPI.updateTask id
      (Patch.mk None None None None (Some completed) None None None None);
    loadTasks;;
    mret ResSuccess
  else if decide (name = "delete_task") then
    id ← prop fc "id";
    DjangoAPI.deleteTask id;;
    loadTasks;;
    mret ResSuccess
  else if decide (name = "delete_completed_tasks") then
    count ← DjangoAPI.deleteCompletedTasks;
    loadTasks;;
    mret (ResCount count)
  else
    mret (ResError "Unknown function").

(** [session.sendToolResponse]; the [sessionPromise.then] callbacks run in
    the order they were queued. *)
Definition sendToolResponse (r : FunctionResponse.t) : M unit :=
  modify (λ w, World.set_sent (World.sent w ++ [r]) w).

(** One turn of the [for] loop over [msg.toolCall.functionCalls]. *)
Definition handle (now : string) (fc : FunctionCall.t) : M unit :=
  result ← try_catch (switch now fc) (λ e, mret (ResError (message_of e)));
  sendToolResponse
    (FunctionResponse.mk (FunctionCall.id fc) (FunctionCall.name fc) result).

Fixpoint dispatch (functionCalls : list (string * FunctionCall.t)) : M unit :=
  match functionCalls with
  | [] => mret ()
  | (now, fc) :: rest => handle now fc;; dispatch rest
  end.

End Dispatcher.

(** ** Session callbacks *)

(** [outputCtx.createBuffer(1, length, 24000)] refuses a length of zero. *)
Definition createBuffer (length : nat) : M unit :=
  if bool_decide (length = 0%nat) then
    throw (DOMException "NotSupportedError"
             "The number of frames provided (0) is less than or equal to the minimum bound (0).")
  else mret ().

(** The audio branch of [onmessage]; [currentTime] is the reading of
    [outputCtx.currentTime]. *)
Definition play (currentTime : Float64.t) (audioData : string) : M unit :=
  float32Data ← lift (Codec.base64ToFloat32Array audioData);
  createBuffer (length float32Data);;
  nextStartTime ← get World.nextStartTime;
  let duration := Scheduler.duration_of (length float32Data) in
  let '(startTime, next) :=
    Scheduler.schedule currentTime duration nextStartTime in
  modify (λ w, World.set_started (World.started w ++ [(startTime, duration)]) w);;
  modify (World.set_nextStartTime next).

Definition onmessage (currentTime : Float64.t) (msg : LiveServerMessage.t) : M unit :=
  match LiveServerMessage.audioData msg with
  | Some audioData =>
      if String.eqb audioData "" then mret () else play currentTime audioData
  | None => mret ()
  end;;
  match LiveServerMessage.toolCall msg with
  | Some functionCalls => Dispatcher.dispatch functionCalls
  | None => mret ()
  end.

Definition onopen : M unit := modify (World.set_isLiveActive true).

Definition onclose : M unit := modify (World.set_isLiveActive false).

Definition onerror : M unit :=
  modify (World.set_liveError (Some "Connection error."));;
  modify (World.set_isLiveActive false).

Module Env.
(** What the browser answers to [startLiveSession]: the outcome of
    [getUserMedia] and of the two [AudioContext] constructors. *)
Record t : Type := mk {
  getUserMedia : Completion unit;
  inputCtx : Completion unit;
  outputCtx : Completion unit
}.
End Env.

(** [startLiveSession].  [ai.live.connect] is not awaited, so only the
    calls before it can reach the [catch]. *)
Definition startLiveSession (env : Env.t) : M unit :=
  modify (World.set_liveError None);;
  try_catch
    (lift (Env.getUserMedia env);;
     lift (Env.inputCtx env);;
     lift (Env.outputCtx env);;
     modify (World.set_nextStartTime Float64.zero);;
     modify (λ w, World.set_connects (S (World.connects w)) w))
    (λ _, modify (World.set_liveError (Some "Microphone access denied."))).

(** A run of inbound messages, each with its reading of the output clock;
    a message whose handler throws leaves a rejected promise behind and the
    next message is handled all the same. *)
Definition receive (w : World.t) (m : Float64.t * LiveServerMessage.t) : World.t :=
  (onmessage m.1 m.2 w).2.

Definition session (msgs : list (Float64.t * LiveServerMessage.t))
    (w : World.t) : World.t :=
  foldl receive w msgs.

(** ** The other handlers of the component *)

Module FormData.
(** The value the task form hands to [handleSave]. *)
Record t : Type := mk {
  title : string;
  description : string;
  priority : string;
  due_date : string;
  subtasks : list Subtask.t
}.
End FormData.

(** [handleSave]; [editingTask] is the React state of that name. *)
Definition handleSave (editingTask : option Task.t) (now : string)
    (data : FormData.t) : M unit :=
  match editingTask with
  | Some editing =>
      updated ← DjangoAPI.updateTask (JNum (Task.id editing))
        (Patch.mk
           None
           (Some (JStr (FormData.title data)))
           (Some (JStr (FormData.description data)))
           (Some (JStr (FormData.priority data)))
           None
           None
           (Some (JStr (FormData.due_date data)))
           None
           (Some (FormData.subtasks data)));
      modify (λ w,
        World.set_tasks
          ((λ t, if decide (Task.id t = Task.id updated) then updated else t)
             <$> World.tasks w) w)
  | None =>
      created ← DjangoAPI.createTask now
        (TaskData.mk
           (JStr (FormData.title data))
           (JStr (FormData.description data))
           (JStr (FormData.priority data))
           (JBool false)
           (JStr (FormData.due_date data))
           JUndefined
           (Some (FormData.subtasks data)));
      modify (λ w, World.set_tasks (created :: World.tasks w) w)
  end.

(** [handleDelete]: the list on screen is filtered first, then the store. *)
Definition handleDelete (id : Z) : M unit :=
  modify (λ w,
    World.set_tasks (filter (λ t, Task.id t ≠ id) (World.tasks w)) w);;
  try_catch (DjangoAPI.deleteTask (JNum id)) (λ _, mret ()).

(** [handleClearCompleted]; [confirmed] is the answer to the [confirm]
    dialog. *)
Definition handleClearCompleted (confirmed : bool) : M unit :=
  if negb confirmed then mret ()
  else
    DjangoAPI.deleteCompletedTasks;;
    loadTasks.

Definition handleClearData : M unit :=
  DjangoAPI.clearDatabase;;
  modify (World.set_tasks []).

(** [filteredTasks] for the value of the [filter] state. *)
Definition filteredTasks (filter_ : string) (tasks : list Task.t) : list Task.t :=
  filter
    (λ t,
       (if decide (filter_ = "active") then negb (truthy (Task.completed t))
        else if decide (filter_ = "completed") then truthy (Task.completed t)
        else true) = true)
    tasks.

Module Stats.
(** The [stats] object of the header. *)
Record t : Type := mk { total : nat; completed : nat; pending : nat }.
End Stats.

Definition stats (tasks : list Task.t) : Stats.t :=
  Stats.mk
    (length tasks)
    (length (filter (λ t, truthy (Task.completed t) = true) tasks))
    (length (filter (λ t, negb (truthy (Task.completed t)) = true) tasks)).

(** ** The sub-task editor of the task form *)

(** [toggleSubtask] and [deleteSubtask] on the [subtasks] of the form. *)
Definition toggleSubtask (id : string) (subtasks : list Subtask.t) : list Subtask.t :=
  (λ st,
     if decide (Subtask.id st = id)
     then Subtask.mk (Subtask.id st) (Subtask.title st)
            (negb (Subtask.completed st))
     else st) <$> subtasks.

Definition deleteSubtask (id : string) (subtasks : list Subtask.t) : list Subtask.t :=
  filter (λ st, Subtask.id st ≠ id) subtasks.

(** ** Badges *)

Module Badges.

(** [tasks.filter(t => t.completed).length] *)
Definition completedCount (tasks : list Task.t) : nat :=
  length (filter (λ t, truthy (Task.completed t) = true) tasks).

(** The test shared by the two on-time badges and [onTimeCount]:
    [t.completed && t.due_date && t.completed_at
     && new Date(t.completed_at) <= new Date(t.due_date)].
    [dateLe] stands for the comparison of the two parsed dates, which is
    only evaluated when the three fields before it are truthy. *)
Definition onTime (dateLe : JsVal → JsVal → bool) (t : Task.t) : bool :=
  if truthy (Task.completed t) then
    if truthy (Task.due_date t) then
      if truthy (Task.completed_at t)
      then dateLe (Task.completed_at t) (Task.due_date t)
      else false
    else false
  else false.

Definition onTimeCount (dateLe : JsVal → JsVal → bool) (tasks : list Task.t) : nat :=
  length (filter (λ t, onTime dateLe t = true) tasks).

(** The [isUnlocked] functions of [BADGES], in the order of the table. *)
Definition first_step (tasks : list Task.t) : bool :=
  bool_decide (1 ≤ completedCount tasks)%nat.
Definition on_a_roll (tasks : list Task.t) : bool :=
  bool_decide (5 ≤ completedCount tasks)%nat.
Definition punctual (dateLe : JsVal → JsVal → bool) (tasks : list Task.t) : bool :=
  existsb (onTime dateLe) tasks.
Definition time_master (dateLe : JsVal → JsVal → bool) (tasks : list Task.t) : bool :=
  bool_decide (5 ≤ onTimeCount dateLe tasks)%nat.
Definition productivity_king (tasks : list Task.t) : bool :=
  bool_decide (10 ≤ completedCount tasks)%nat.

End Badges.

(** ** The due-date label of a task card *)

Module RelativeTime.
(** The text [getRelativeTime] returns: one of the four templates with the
    number it interpolates, or one of the two locale date formats. *)
Inductive t : Type :=
  | OverdueMinutes (n : Z)   (* Overdue by ${n}m *)
  | OverdueHours (n : Z)     (* Overdue by ${n}h *)
  | OverdueDays (n : Z)      (* Overdue by ${n}d *)
  | DueInMinutes (n : Z)     (* Due in ${n}m *)
  | DueInHours (n : Z)       (* Due in ${n}h *)
  | WeekdayFormat            (* weekday, hour, minute *)
  | MonthDayFormat.          (* month, day, hour, minute *)
End RelativeTime.

(** [getRelativeTime]; [date] and [now] are the two [getTime()] readings in
    milliseconds, [Math.floor] of the quotients is [Z.div]. *)
Definition getRelativeTime (date now : Z) : RelativeTime.t :=
  let diff := date - now in
  let days := diff / (1000 * 60 * 60 * 24) in
  let hours := diff / (1000 * 60 * 60) in
  let minutes := diff / (1000 * 60) in
  if diff <? 0 then
    if Z.abs hours <? 1 then RelativeTime.OverdueMinutes (Z.abs minutes)
    else if Z.abs hours <? 24 then RelativeTime.OverdueHours (Z.abs hours)
    else RelativeTime.OverdueDays (Z.abs days)
  else if hours <? 1 then RelativeTime.DueInMinutes minutes
  else if hours <? 24 then RelativeTime.DueInHours hours
  else if days <? 7 then RelativeTime.WeekdayFormat
  else RelativeTime.MonthDayFormat.

(** ** The deadline notifier *)

Module Status.
(** An entry of [notifiedRef.current]. *)
Record t : Type := mk { approaching : bool; overdue : bool }.
End Status.

(** A call of [addToast] by the notifier: the warning interpolates the
    task's title and [Math.ceil(diffMins)], the error the task's title. *)
Inductive Toast : Type :=
  | Warning (task : Task.t) (mins : Z)
  | Alert (task : Task.t).

Module Notifier.

(** [Math.ceil(diffMs / 60000)] *)
Definition ceilMins (diffMs : Z) : Z := - ((- diffMs) / 60000).

(** The body of the [forEach] of the interval callback for one task.
    [getTime] is [new Date(due_date).getTime()], [None] for an invalid
    date, on which every comparison is false.  [status] is the object
    stored in the map, so the second test sees what the first one wrote. *)
Definition checkTask (getTime : JsVal → option Z) (now : Z)
    (st : gmap Z Status.t * list Toast) (task : Task.t)
  : gmap Z Status.t * list Toast :=
  let '(notified, toasts) := st in
  if truthy (Task.completed task) || negb (truthy (Task.due_date task)) then st
  else
    let id := Task.id task in
    let notified :=
      match notified !! id with
      | Some _ => notified
      | None => <[id := Status.mk false false]> notified
      end in
    match getTime (Task.due_date task) with
    | None => (notified, toasts)
    | Some dueDate =>
        let diffMs := dueDate - now in
        let status := default (Status.mk false false) (notified !! id) in
        let '(notified, toasts) :=
          if (0 <? diffMs) && (diffMs <=? 15 * 60000)
             && negb (Status.approaching status)
          then (<[id := Status.mk true (Status.overdue status)]> notified,
                toasts ++ [Warning task (ceilMins diffMs)])
          else (notified, toasts) in
        let status := default (Status.mk false false) (notified !! id) in
        if (diffMs <=? 0) && negb (Status.overdue status)
        then (<[id := Status.mk true true]> notified, toasts ++ [Alert task])
        else (notified, toasts)
    end.

(** One firing of the interval: [tasksRef.current.forEach(...)]. *)
Definition tick (getTime : JsVal → option Z)
    (st : gmap Z Status.t * list Toast) (firing : Z * list Task.t)
  : gmap Z Status.t * list Toast :=
  foldl (checkTask getTime firing.1) st firing.2.

(** The firings of a page's life, from the empty [notifiedRef]; each comes
    with its clock reading and the task list of that moment. *)
Definition run (getTime : JsVal → option Z) (firings : list (Z * list Task.t))
  : gmap Z Status.t * list Toast :=
  foldl (tick getTime) (∅, []) firings.

End Notifier.

(** * Notions used in the statements *)

(** Linear arithmetic with division and remainder by constants. *)
Ltac zdiv := Z.to_euclidean_division_equations; lia.

(** The range of a [Uint8Array] element and of a base64 digit. *)
Definition is_byte (b : Z) : Prop := 0 ≤ b < 256.
Definition is_digit (d : Z) : Prop := 0 ≤ d < 64.

(** The encoded text without its padding. *)
Definition digits_text (bs : list Z) : list ascii :=
  Codec.b64char <$> Codec.sextets bs.

(** The range of an [Int16Array] element. *)
Definition is_int16 (v : Z) : Prop := -32768 ≤ v < 32768.

(** What comes back from the wire for a sample. *)
Definition decoded (x : Q) : Q := (inject_Z (Codec.sample_to_int16 x) / 32768)%Q.

(** Encoding as the capture callback does, then decoding as [onmessage]
    does. *)
Definition decode_encode (xs : list Q) : Completion (list Q) :=
  Codec.base64ToFloat32Array
    (Codec.arrayBufferToBase64 (Codec.float32To16BitPCM xs)).

(** What the [Int16Array] constructor throws on an odd byte length. *)
Definition odd_length_error : JsExn :=
  RangeError "byte length of Int16Array should be a multiple of 2".

(** Base64 text of the single byte 0. *)
Definition one_byte_audio : string := "AA==".

(** [m] leaves the observation [f] of the state as it found it. *)
Definition keeps {A B} (f : World.t → B) (m : M A) : Prop :=
  ∀ w, f (m w).2 = f w.

(** [m] neither reads nor writes the log of sent responses. *)
Definition sent_blind {A} (m : M A) : Prop :=
  ∀ s w, m (World.set_sent s w) = ((m w).1, World.set_sent s (m w).2).

(** The [result] a call ends with, and the state it leaves. *)
Definition outcome (now : string) (fc : FunctionCall.t) (w : World.t)
  : ToolResult * World.t :=
  match Dispatcher.switch now fc w with
  | (Normal result, w') => (result, w')
  | (Throw e, w') => (ResError (message_of e), w')
  end.

(** The response that answers [fc] with [result]. *)
Definition response (fc : FunctionCall.t) (result : ToolResult) : FunctionResponse.t :=
  FunctionResponse.mk (FunctionCall.id fc) (FunctionCall.name fc) result.

(** The responses of a batch, in order, and the state after it. *)
Fixpoint responses (functionCalls : list (string * FunctionCall.t)) (w : World.t)
  : list FunctionResponse.t * World.t :=
  match functionCalls with
  | [] => ([], w)
  | (now, fc) :: rest =>
      let '(result, w1) := outcome now fc w in
      let '(rs, w2) := responses rest w1 in
      (response fc result :: rs, w2)
  end.

(** The task list as [getTasks] reads it. *)
Definition stored (w : World.t) : list Task.t := default [] (World.localStorage w).

(** The task the scenario creates: [Buy milk], open, with id 1. *)
Definition milk_task : Task.t :=
  Task.mk 1 (JStr "Buy milk") (JStr "") (JStr "Medium") (JBool false)
    "2026-01-05T09:00:00.000Z" (JStr "") JUndefined (Some []).

(** The page with that task stored. *)
Definition milk_world : World.t := World.set_localStorage (Some [milk_task]) World.initial.

(** A store whose only task has the id 2^53, the first integer whose
    successor is not a double. *)
Definition last_exact_task : Task.t :=
  Task.mk (2 ^ 53) (JStr "Buy milk") (JStr "") (JStr "Medium") (JBool false)
    "2026-01-05T09:00:00.000Z" (JStr "") JUndefined (Some []).

Definition last_exact_world : World.t :=
  World.set_localStorage (Some [last_exact_task]) World.initial.

(** The ids of the stored tasks are safe integers. *)
Definition safe_ids (w : World.t) : Prop :=
  Forall Float64.isSafeInteger (Task.id <$> stored w).

(** The request of the scenario: [create_task] with only a title. *)
Definition buy_milk : FunctionCall.t :=
  FunctionCall.mk "call-1" "create_task" (Some {[ "title" := JStr "Buy milk" ]}).

(** [update_task_status] with [id] and [completed]. *)
Definition set_status (call : string) (id : Z) (completed : bool) : FunctionCall.t :=
  FunctionCall.mk call "update_task_status"
    (Some (<[ "id" := JNum id ]> {[ "completed" := JBool completed ]})).

(** The stored tasks after the voice request [update_task_status] with
    [id] 1 and [completed] true on the store holding the open task 1. *)
Definition after_voice_completion : list Task.t :=
  stored
    (Dispatcher.dispatch
       [("2026-01-05T10:00:00.000Z", set_status "call-1" 1 true)]
       milk_world).2.

(** The stored tasks after ticking the same task in the list. *)
Definition after_checkbox_completion : list Task.t :=
  stored (handleToggle "2026-01-05T10:00:00.000Z" 1 false milk_world).2.

(** The browser refusing the microphone. *)
Definition microphone_denied : Env.t :=
  Env.mk (Throw (DOMException "NotAllowedError" "Permission denied"))
         (Normal ()) (Normal ()).

Section RationalNotions.

Local Open Scope Q_scope.

(** A sample as the capture device delivers it. *)
Definition in_range (x : Q) : Prop := -1 <= x <= 1.

(** One quantization step. *)
Definition quantum : Q := 1 # 32768.

(** Decoding the encoded form of [xs] gives as many samples, each within
    [bound] of the original. *)
Definition round_trip_within (bound : Q) (xs : list Q) : Prop :=
  ∃ ys,
    decode_encode xs = Normal ys
    ∧ length ys = length xs
    ∧ ∀ i x y, xs !! i = Some x → ys !! i = Some y → Qabs (y - x) <= bound.

(** A sample just below full scale, exact in single precision. *)
Definition near_full_scale : Q := 65535 # 65536.

End RationalNotions.

(** In the arithmetic of the code, no entry of the log starts before the
    previous one has ended: the sum of start and duration, as the code
    adds them, is at most the next start. *)
Definition spaced (starts : list (Float64.t * Float64.t)) : Prop :=
  ∀ n s d s' d',
    starts !! n = Some (s, d) → starts !! S n = Some (s', d') →
    Float64.le (Float64.add s d) s'.

(** By how much the segment that starts at [s] and lasts [d] runs past
    the time [s'] in exact arithmetic, in steps of 2^-1074 s; the segment
    has ended by [s'] when this is not positive. *)
Definition overrun (s d s' : Float64.t) : Z :=
  Float64.grid s + Float64.grid d - Float64.grid s'.

(** The exact sum of a list of durations, in steps of 2^-1074 s. *)
Definition total (durations : list Float64.t) : Z :=
  foldr (λ d acc, Float64.grid d + acc) 0 durations.

(** The state after a segment of the given duration has been scheduled. *)
Definition scheduled (now duration : Float64.t) (w : World.t) : World.t :=
  let startTime := Float64.max now (World.nextStartTime w) in
  World.set_nextStartTime (Float64.add startTime duration)
    (World.set_started (World.started w ++ [(startTime, duration)]) w).

(** What every reachable state of a session satisfies. *)
Definition scheduler_invariant (w : World.t) : Prop :=
  spaced (World.started w)
  ∧ (∀ s d, last (World.started w) = Some (s, d) →
            Float64.le (Float64.add s d) (World.nextStartTime w)).

(** Three inbound audio messages: two samples at device time 5, a chunk of
    three bytes, three samples at device time 0. *)
Definition three_chunks : list (Float64.t * LiveServerMessage.t) :=
  [ (Float64.ratio 5 1, LiveServerMessage.mk (Some "AAAAAA==") None);
    (Float64.zero, LiveServerMessage.mk (Some "AAAA") None);
    (Float64.zero, LiveServerMessage.mk (Some "AAAAAAAA") None) ].

(** Two chunks of three samples each that arrive together at device
    time 1, and three such chunks. *)
Definition back_to_back : list (Float64.t * LiveServerMessage.t) :=
  [ (Float64.ratio 1 1, LiveServerMessage.mk (Some "AAAAAAAA") None);
    (Float64.ratio 1 1, LiveServerMessage.mk (Some "AAAAAAAA") None) ].

Definition three_back_to_back : list (Float64.t * LiveServerMessage.t) :=
  (Float64.ratio 1 1, LiveServerMessage.mk (Some "AAAAAAAA") None)
  :: back_to_back.

(** The screen shows the stored list, and no two stored tasks share an id. *)
Definition in_sync (w : World.t) : Prop :=
  World.tasks w = stored w ∧ NoDup (Task.id <$> stored w).

(** The stored ids are pairwise distinct safe integers, and [c] more
    tasks can be created before an id leaves the safe integers. *)
Definition room (c : Z) (w : World.t) : Prop :=
  0 ≤ c < 2 ^ 53
  ∧ NoDup (Task.id <$> stored w)
  ∧ ∀ i, i ∈ Task.id <$> stored w → Float64.isSafeInteger i ∧ i + c < 2 ^ 53.

(** A store operation that creates at most [cost] tasks: it uses up that
    much room, leaves the screen alone and changes nothing when it
    throws. *)
Definition store_safe {A} (cost : Z) (m : M A) : Prop :=
  ∀ c w, 0 ≤ c → room (c + cost) w →
    room c (m w).2
    ∧ World.tasks (m w).2 = World.tasks w
    ∧ ∀ e, (m w).1 = Throw e → (m w).2 = w.

(** The screen shows the stored list, which has room for [c] more tasks. *)
Definition synced (c : Z) (w : World.t) : Prop :=
  World.tasks w = stored w ∧ room c w.

(** The number of [create_task] requests of a batch. *)
Definition creating (calls : list (string * FunctionCall.t)) : Z :=
  Z.of_nat
    (length (filter (λ c, FunctionCall.name c.2 = "create_task") calls)).

(** The updates of [update_task_status] for a task reported done. *)
Definition completed_patch : Patch.t :=
  Patch.mk None None None None (Some (JBool true)) None None None None.

(** A store of two tasks: [Buy milk] (id 1) and a completed [Call mum]
    (id 2) on top. *)
Definition mum_task : Task.t :=
  Task.mk 2 (JStr "Call mum") (JStr "") (JStr "High") (JBool true)
    "2026-01-05T09:30:00.000Z" (JStr "2026-01-06T12:00") 
    (JStr "2026-01-05T18:00:00.000Z") (Some []).

Definition two_tasks : World.t :=
  World.set_tasks [mum_task; milk_task]
    (World.set_localStorage (Some [mum_task; milk_task]) World.initial).

(** What can happen to the page: the initial load, the handlers of the
    task list and of the settings, and an inbound message of the voice
    session. *)
Inductive Action : Type :=
  | Load
  | Toggle (now : string) (id : Z) (current : bool)
  | Delete (id : Z)
  | Save (editingTask : option Task.t) (now : string) (data : FormData.t)
  | ClearCompleted (confirmed : bool)
  | ClearData
  | Message (currentTime : Float64.t) (msg : LiveServerMessage.t).

(** The state after an action; an exception that leaves a handler is an
    unhandled rejection and the state stays as the handler left it. *)
Definition perform (w : World.t) (a : Action) : World.t :=
  match a with
  | Load => (loadTasks w).2
  | Toggle now id current => (handleToggle now id current w).2
  | Delete id => (handleDelete id w).2
  | Save editingTask now data => (handleSave editingTask now data w).2
  | ClearCompleted confirmed => (handleClearCompleted confirmed w).2
  | ClearData => (handleClearData w).2
  | Message currentTime msg => (onmessage currentTime msg w).2
  end.

(** The number of tasks an action can create at most: one for the form
    saved as a new task, one for each [create_task] request of a message. *)
Definition creations (a : Action) : Z :=
  match a with
  | Save None _ _ => 1
  | Message _ msg => creating (default [] (LiveServerMessage.toolCall msg))
  | _ => 0
  end.

Definition budget (actions : list Action) : Z :=
  foldr (λ a n, creations a + n) 0 actions.

(** A task that carries no completion time. *)
Definition unstamped (t : Task.t) : Prop := truthy (Task.completed_at t) = false.

(** The fields the check-box never touches. *)
Definition kept_by_toggle (t : Task.t) :=
  (Task.id t, Task.title t, Task.description t, Task.priority t,
   Task.created_at t, Task.due_date t, Task.subtasks t).

(** The fields the task form never touches. *)
Definition kept_by_form (t : Task.t) :=
  (Task.id t, Task.completed t, Task.created_at t, Task.completed_at t).

(** A form as the user fills it in. *)
Definition sample_form : FormData.t :=
  FormData.mk "Buy oat milk" "Two cartons" "Low" "2026-01-07T18:00" [].

(** The messages an error response can carry. *)
Definition dispatcher_error (message : string) : Prop :=
  message = "Unknown function"
  ∨ message = "404 Not Found"
  ∨ ∃ k, message = "Cannot read properties of undefined (reading '" +:+ k +:+ "')".

(** Write the integer constants of a goal as rationals, then decide it by
    linear arithmetic. *)
Ltac qlra :=
  repeat match goal with
    | |- context [inject_Z (Z.neg ?p)] =>
        change (inject_Z (Z.neg p)) with (Z.neg p # 1)%Q
    | |- context [inject_Z (Z.pos ?p)] =>
        change (inject_Z (Z.pos p)) with (Z.pos p # 1)%Q
    | |- context [inject_Z 0] => change (inject_Z 0) with (0 # 1)%Q
    | H : context [inject_Z (Z.neg ?p)] |- _ =>
        change (inject_Z (Z.neg p)) with (Z.neg p # 1)%Q in H
    | H : context [inject_Z (Z.pos ?p)] |- _ =>
        change (inject_Z (Z.pos p)) with (Z.pos p # 1)%Q in H
    | H : context [inject_Z 0] |- _ =>
        change (inject_Z 0) with (0 # 1)%Q in H
    end;
  lra.

(** A decoded sample lies in the half-open interval from -1 to 1. *)
Definition decoded_range (y : Q) : Prop := (-1 <= y ∧ y < 1)%Q.

(** The browser granting the microphone and refusing the second audio
    context. *)
Definition output_context_refused : Env.t :=
  Env.mk (Normal ()) (Normal ())
    (Throw (DOMException "NotSupportedError"
              "The provided sample rate is not supported")).

(** The task a toast is about. *)
Definition toast_task (toast : Toast) : Task.t :=
  match toast with Warning task _ | Alert task => task end.

Definition is_warning (toast : Toast) : bool :=
  match toast with Warning _ _ => true | Alert _ => false end.

(** The toasts of a log that are about tasks with the id [n], as warnings
    ([true]) and alerts ([false]), in order. *)
Definition toasts_for (n : Z) (toasts : list Toast) : list bool :=
  is_warning <$> filter (λ toast, Task.id (toast_task toast) = n) toasts.

(** What the flags of an id say about the toasts issued for it. *)
Definition flags_match (status : option Status.t) (kinds : list bool) : Prop :=
  match status with
  | None | Some (Status.mk false false) => kinds = []
  | Some (Status.mk true false) => kinds = [true]
  | Some (Status.mk true true) => kinds = [false] ∨ kinds = [true; false]
  | Some (Status.mk false true) => False
  end.

(** The conditions under which the notifier speaks about a task. *)
Definition toast_justified (getTime : JsVal → option Z) (toast : Toast) : Prop :=
  truthy (Task.completed (toast_task toast)) = false
  ∧ truthy (Task.due_date (toast_task toast)) = true
  ∧ is_Some (getTime (Task.due_date (toast_task toast)))
  ∧ match toast with
    | Warning _ mins => 1 ≤ mins ≤ 15
    | Alert _ => True
    end.

(** Due dates read as milliseconds when they are numbers, for examples. *)
Definition sample_getTime (v : JsVal) : option Z :=
  match v with JNum n => Some n | _ => None end.

(** A task due at millisecond 1000000. *)
Definition dated_task : Task.t :=
  Task.mk 5 (JStr "File taxes") (JStr "") (JStr "High") (JBool false)
    "2026-01-05T09:00:00.000Z" (JNum 1000000) JUndefined (Some []).

(** Normalise the flag maps and toast lists that [checkTask] builds. *)
Ltac flags_norm :=
  simpl;
  rewrite ?insert_insert_eq, ?orb_true_r, ?orb_false_r, ?app_nil_r,
    ?app_nil_l, <- ?app_assoc;
  simpl;
  rewrite ?insert_id by done;
  try done.

(** One hour and one day in milliseconds. *)
Definition hour_ms : Z := 1000 * 60 * 60.
Definition day_ms : Z := 1000 * 60 * 60 * 24.

(** * Properties *)

(** ** Rounding to the nearest double *)

Section Float64Facts.

Import Float64.

Lemma rne_bounds n d : 0 < d → n / d ≤ rne n d ≤ n / d + 1.
Proof.
  intros Hd. unfold rne.
  destruct (2 * (n mod d) <? d); [lia|].
  destruct (d <? 2 * (n mod d)); [lia|].
  destruct (Z.even (n / d)); lia.
Qed.

Lemma rne_exact k d : 0 < d → rne (k * d) d = k.
Proof.
  intros Hd. unfold rne. rewrite Z.div_mul, Z.mod_mul by lia.
  by rewrite (proj2 (Z.ltb_lt _ _)) by lia.
Qed.

Lemma rne_mono n n' d : 0 < d → n ≤ n' → rne n d ≤ rne n' d.
Proof.
  intros Hd Hn.
  assert (Hq : n / d ≤ n' / d) by (apply Z.div_le_mono; lia).
  destruct (decide (n / d = n' / d)) as [Heq | Hne].
  - assert (Hr : n mod d ≤ n' mod d).
    { pose proof (Z.div_mod n d ltac:(lia)). pose proof (Z.div_mod n' d ltac:(lia)).
      rewrite Heq in *. lia. }
    unfold rne. rewrite Heq.
    destruct (Z.ltb_spec (2 * (n mod d)) d), (Z.ltb_spec (2 * (n' mod d)) d);
      destruct (Z.ltb_spec d (2 * (n mod d))), (Z.ltb_spec d (2 * (n' mod d)));
      destruct (Z.even (n' / d)); lia.
  - pose proof (rne_bounds n d Hd). pose proof (rne_bounds n' d Hd). lia.
Qed.

(** The rounded quotient is within half a unit of the exact one. *)
Lemma rne_error n d : 0 < d → 2 * Z.abs (rne n d * d - n) ≤ d.
Proof.
  intros Hd. unfold rne.
  pose proof (Z.div_mod n d ltac:(lia)). pose proof (Z.mod_pos_bound n d Hd).
  destruct (Z.ltb_spec (2 * (n mod d)) d); [lia|].
  destruct (Z.ltb_spec d (2 * (n mod d))); [lia|].
  destruct (Z.even (n / d)); lia.
Qed.

(** With [j] the excess of [n / d]: [n / d < 2^(53+j)], and
    [2^(52+j) <= n / d] unless [j] is 0. *)
Lemma excess_spec n d :
  0 ≤ n → 0 < d →
  0 ≤ excess n d
  ∧ n < d * 2 ^ (53 + excess n d)
  ∧ (0 < excess n d → d * 2 ^ (52 + excess n d) ≤ n).
Proof.
  intros Hn Hd. unfold excess.
  assert (HF : 0 ≤ n / d) by (apply Z.div_pos; lia).
  assert (Hlt : ∀ p, n / d < p → n < d * p).
  { intros p Hp. pose proof (Z.div_mod n d ltac:(lia)).
    pose proof (Z.mod_pos_bound n d Hd). nia. }
  assert (Hle : ∀ p, p ≤ n / d → d * p ≤ n).
  { intros p Hp. pose proof (Z.div_mod n d ltac:(lia)).
    pose proof (Z.mod_pos_bound n d Hd). nia. }
  destruct (decide (n / d = 0)) as [H0 | H0].
  - rewrite H0. simpl. split; [lia|]. split; [|lia]. apply Hlt. by rewrite H0.
  - pose proof (Z.log2_spec (n / d) ltac:(lia)) as [Hlo Hhi].
    pose proof (Z.log2_nonneg (n / d)) as HL.
    destruct (Z.max_spec 0 (Z.log2 (n / d) - 52)) as [[Hc ->] | [Hc ->]].
    + split; [lia|]. split.
      * apply Hlt.
        by replace (53 + (Z.log2 (n / d) - 52)) with (Z.succ (Z.log2 (n / d))) by lia.
      * intros _. apply Hle.
        by replace (52 + (Z.log2 (n / d) - 52)) with (Z.log2 (n / d)) by lia.
    + split; [lia|]. split; [|lia]. apply Hlt.
      eapply Z.lt_le_trans; [exact Hhi|]. apply Z.pow_le_mono_r; lia.
Qed.

Lemma excess_unique k j :
  0 ≤ k → 0 ≤ j → k < 2 ^ (53 + j) → (0 < j → 2 ^ (52 + j) ≤ k) →
  excess k 1 = j.
Proof.
  intros Hk Hj Hhi Hlo. unfold excess. rewrite Z.div_1_r.
  destruct (decide (0 < j)) as [Hpos | Hzero].
  - rewrite (Z.log2_unique k (52 + j)); [lia|lia|].
    split; [by apply Hlo|]. by replace (Z.succ (52 + j)) with (53 + j) by lia.
  - assert (j = 0) as -> by lia.
    destruct (decide (k = 0)) as [-> | Hne]; [done|].
    assert (Z.log2 k < 53); [|lia].
    apply Z.log2_lt_pow2; lia.
Qed.

(** The significand of a rounded number has at most 53 bits, and exactly
    53 when low bits were dropped. *)
Lemma round_mantissa n d :
  0 ≤ n → 0 < d →
  0 ≤ rne n (d * 2 ^ excess n d) ≤ 2 ^ 53
  ∧ (0 < excess n d → 2 ^ 52 ≤ rne n (d * 2 ^ excess n d)).
Proof.
  intros Hn Hd. destruct (excess_spec n d Hn Hd) as (Hj & Hhi & Hlo).
  assert (Hp : 0 < 2 ^ excess n d) by (apply Z.pow_pos_nonneg; lia).
  assert (HD : 0 < d * 2 ^ excess n d) by lia.
  rewrite Z.pow_add_r in Hhi by lia. split_and!.
  - pose proof (rne_bounds n (d * 2 ^ excess n d) HD).
    assert (0 ≤ n / (d * 2 ^ excess n d)) by (apply Z.div_pos; lia). lia.
  - rewrite <- (rne_exact (2 ^ 53) (d * 2 ^ excess n d)) by done.
    apply rne_mono; [done|]. lia.
  - intros Hpos. specialize (Hlo Hpos). rewrite Z.pow_add_r in Hlo by lia.
    rewrite <- (rne_exact (2 ^ 52) (d * 2 ^ excess n d)) at 1 by done.
    apply rne_mono; [done|]. lia.
Qed.

Lemma round_nonneg n d : 0 ≤ n → 0 < d → 0 ≤ round n d.
Proof.
  intros Hn Hd. unfold round.
  destruct (excess_spec n d Hn Hd) as (Hj & _).
  destruct (round_mantissa n d Hn Hd) as [Hm _].
  assert (Hp : 0 < 2 ^ excess n d) by (apply Z.pow_pos_nonneg; lia). nia.
Qed.

(** A number with at most 53 significant bits is its own rounding. *)
Lemma round_multiple m j :
  0 ≤ j → 0 ≤ m ≤ 2 ^ 53 → (0 < j → 2 ^ 52 ≤ m) → round (m * 2 ^ j) 1 = m * 2 ^ j.
Proof.
  intros Hj Hm Hlo.
  assert (Hp : 0 < 2 ^ j) by (apply Z.pow_pos_nonneg; lia).
  destruct (decide (m = 2 ^ 53)) as [-> | Hne].
  - unfold round. rewrite (excess_unique _ (j + 1)).
    + rewrite Z.mul_1_l.
      replace (2 ^ 53 * 2 ^ j) with (2 ^ 52 * 2 ^ (j + 1))
        by (rewrite (Z.pow_add_r 2 j 1) by lia; change (2 ^ 53) with (2 ^ 52 * 2); lia).
      rewrite rne_exact; [done|]. apply Z.pow_pos_nonneg; lia.
    + lia.
    + lia.
    + rewrite <- Z.pow_add_r by lia. apply Z.pow_lt_mono_r; lia.
    + intros _. rewrite <- Z.pow_add_r by lia. apply Z.pow_le_mono_r; lia.
  - unfold round. rewrite (excess_unique _ j).
    + rewrite Z.mul_1_l. by rewrite rne_exact.
    + nia.
    + done.
    + rewrite Z.pow_add_r by lia. nia.
    + intros Hpos. rewrite Z.pow_add_r by lia. specialize (Hlo Hpos). nia.
Qed.

Lemma round_fixed n d : 0 ≤ n → 0 < d → round (round n d) 1 = round n d.
Proof.
  intros Hn Hd. unfold round at 2 3.
  destruct (excess_spec n d Hn Hd) as (Hj & _).
  destruct (round_mantissa n d Hn Hd) as [Hm Hlo].
  by apply round_multiple.
Qed.

Lemma round_small k : 0 ≤ k ≤ 2 ^ 53 → round k 1 = k.
Proof.
  intros H. pose proof (round_multiple k 0 ltac:(lia) H ltac:(lia)) as Hr.
  by rewrite Z.pow_0_r, Z.mul_1_r in Hr.
Qed.

Lemma excess_mono k k' : 0 ≤ k ≤ k' → excess k 1 ≤ excess k' 1.
Proof.
  intros H. unfold excess. rewrite !Z.div_1_r.
  pose proof (Z.log2_le_mono k k' ltac:(lia)). lia.
Qed.

(** Rounding keeps the order. *)
Lemma round_mono k k' : 0 ≤ k ≤ k' → round k 1 ≤ round k' 1.
Proof.
  intros [Hk Hle].
  pose proof (excess_mono k k' ltac:(lia)) as Hj.
  destruct (excess_spec k 1 Hk ltac:(lia)) as (Hj0 & _).
  destruct (round_mantissa k 1 Hk ltac:(lia)) as [[_ Hhi] _].
  destruct (round_mantissa k' 1 ltac:(lia) ltac:(lia)) as [_ Hlo'].
  assert (Hp : 0 < 2 ^ excess k 1) by (apply Z.pow_pos_nonneg; lia).
  destruct (decide (excess k 1 = excess k' 1)) as [Heq | Hne].
  - unfold round. rewrite <- Heq.
    apply Z.mul_le_mono_nonneg_r; [lia|]. apply rne_mono; lia.
  - specialize (Hlo' ltac:(lia)). unfold round.
    transitivity (2 ^ 53 * 2 ^ excess k 1); [nia|].
    transitivity (2 ^ 52 * 2 ^ excess k' 1).
    + rewrite <- !Z.pow_add_r by lia. apply Z.pow_le_mono_r; lia.
    + assert (0 < 2 ^ excess k' 1) by (apply Z.pow_pos_nonneg; lia). nia.
Qed.

(** A rounded number is within 2^-53 of the exact one, relative to
    itself. *)
Lemma round_error k :
  0 ≤ k → 2 ^ 53 * Z.abs (round k 1 - k) ≤ round k 1.
Proof.
  intros Hk.
  destruct (excess_spec k 1 Hk ltac:(lia)) as (Hj & Hhi & Hlo).
  destruct (round_mantissa k 1 Hk ltac:(lia)) as [_ Hm].
  destruct (decide (excess k 1 = 0)) as [H0 | H0].
  - rewrite round_small; [lia|]. rewrite H0 in Hhi. simpl in Hhi. lia.
  - specialize (Hm ltac:(lia)). unfold round.
    assert (Hp : 0 < 2 ^ excess k 1) by (apply Z.pow_pos_nonneg; lia).
    pose proof (rne_error k (1 * 2 ^ excess k 1) ltac:(lia)) as He.
    rewrite Z.mul_1_l in *.
    set (D := 2 ^ excess k 1) in *. set (M := rne k D) in *.
    change (2 ^ 53) with (2 * 2 ^ 52). nia.
Qed.

Lemma integer_small k : isSafeInteger (k - 1) → integer k = k.
Proof.
  unfold isSafeInteger, integer. intros H.
  rewrite round_small by lia. lia.
Qed.

Lemma round_infinity : round infinity 1 = infinity.
Proof.
  unfold infinity. pose proof (round_multiple (2 ^ 52) 2046) as H.
  change (2 ^ 52 * 2 ^ 2046) with (2 ^ 2098) in H. apply H; [lia|lia|lia].
Qed.

Lemma is_double_round n d :
  0 ≤ n → 0 < d → is_double (overflow (round n d)) = true.
Proof.
  intros Hn Hd. pose proof (round_nonneg n d Hn Hd) as H0.
  pose proof (round_fixed n d Hn Hd) as Hf.
  assert (Hi : 0 < infinity) by done.
  unfold is_double, overflow.
  destruct (Z.min_spec (round n d) infinity) as [[Hc ->] | [Hc ->]].
  - rewrite Hf.
    rewrite (proj2 (Z.leb_le _ _)), (proj2 (Z.leb_le _ _)), Z.eqb_refl by lia.
    done.
  - rewrite round_infinity.
    rewrite (proj2 (Z.leb_le _ _)), (proj2 (Z.leb_le _ _)), Z.eqb_refl by lia.
    done.
Qed.

Lemma grid_of_grid k : is_double k = true → grid (of_grid k) = k.
Proof.
  intros H. unfold of_grid.
  destruct (Sumbool.sumbool_of_bool (is_double k)) as [H'|H']; [done|congruence].
Qed.

Lemma grid_of_round n d :
  0 ≤ n → 0 < d → grid (of_grid (overflow (round n d))) = overflow (round n d).
Proof. intros Hn Hd. by apply grid_of_grid, is_double_round. Qed.

(** Every time is a double: not negative, at most [infinity], and its own
    rounding. *)
Lemma grid_spec (a : t) : 0 ≤ grid a ≤ infinity ∧ round (grid a) 1 = grid a.
Proof.
  destruct a as [k H]. simpl. unfold is_double in H.
  apply andb_prop in H as [H H3]. apply andb_prop in H as [H1 H2].
  apply Z.leb_le in H1, H2. apply Z.eqb_eq in H3. lia.
Qed.

(** Two times with the same number of steps are the same. *)
Lemma grid_inj (a b : t) : grid a = grid b → a = b.
Proof.
  destruct a as [k H], b as [k' H']. simpl. intros <-.
  f_equal. apply proof_irrel.
Qed.

Lemma grid_add a b : grid (add a b) = overflow (round (grid a + grid b) 1).
Proof.
  destruct (grid_spec a) as [Ha _], (grid_spec b) as [Hb _].
  unfold add. apply grid_of_round; lia.
Qed.

Lemma grid_ratio n d :
  0 ≤ n → 0 < d → grid (ratio n d) = overflow (round (n * 2 ^ 1074) d).
Proof. intros Hn Hd. unfold ratio. apply grid_of_round; lia. Qed.

Lemma grid_max a b : grid (max a b) = Z.max (grid a) (grid b).
Proof. unfold max. destruct (Z.ltb_spec (grid a) (grid b)); lia. Qed.

(** A sum is never below its first term, nor below its second. *)
Lemma add_ge a b : le a (add a b) ∧ le b (add a b).
Proof.
  destruct (grid_spec a) as [Ha Hfa], (grid_spec b) as [Hb Hfb].
  unfold le. rewrite grid_add. unfold overflow.
  pose proof (round_mono (grid a) (grid a + grid b) ltac:(lia)).
  pose proof (round_mono (grid b) (grid a + grid b) ltac:(lia)). lia.
Qed.

(** A finite sum is the rounding of the exact sum, within 2^-53 of it. *)
Lemma add_finite a b :
  finite (add a b) →
  grid (add a b) = round (grid a + grid b) 1
  ∧ 2 ^ 53 * Z.abs (grid (add a b) - (grid a + grid b)) ≤ grid (add a b).
Proof.
  destruct (grid_spec a) as [Ha _], (grid_spec b) as [Hb _].
  unfold finite. rewrite grid_add. unfold overflow. intros Hfin.
  assert (Hr : Z.min (round (grid a + grid b) 1) infinity
               = round (grid a + grid b) 1) by lia.
  rewrite Hr. split; [done|]. apply round_error. lia.
Qed.

(** A sum that is a double itself is exact. *)
Lemma add_exact a b :
  is_double (grid a + grid b) = true → grid (add a b) = grid a + grid b.
Proof.
  intros H. rewrite grid_add. unfold is_double in H.
  apply andb_prop in H as [H H3]. apply andb_prop in H as [H1 H2].
  apply Z.leb_le in H1, H2. apply Z.eqb_eq in H3.
  rewrite H3. unfold overflow. lia.
Qed.

(** A segment that ends, in the arithmetic of the code, by the finite time
    [s'] runs past it by at most 2^-53 of [s'] in exact arithmetic. *)
Lemma add_overrun s d s' :
  le (add s d) s' → finite s' →
  2 ^ 53 * (grid s + grid d - grid s') ≤ grid s'.
Proof.
  unfold le, finite. intros Hle Hfin.
  destruct (add_finite s d) as [_ He]; [unfold finite; lia|].
  change (2 ^ 53) with 9007199254740992 in *. lia.
Qed.

End Float64Facts.

(** ** Base64 carries every binary string unchanged *)

Section Base64.

Lemma list_ind3 {A} (P : list A → Prop) :
  P [] → (∀ a, P [a]) → (∀ a b, P [a; b]) →
  (∀ a b c l, P l → P (a :: b :: c :: l)) →
  ∀ l, P l.
Proof.
  intros H0 H1 H2 H3 l.
  cut (P l ∧ (∀ a, P (a :: l)) ∧ (∀ a b, P (a :: b :: l))); [tauto|].
  induction l as [|x l (IH0 & IH1 & IH2)]; [by auto|].
  split_and!; [apply IH1 | intros a; apply IH2 | intros a b; apply H3, IH0].
Qed.

Lemma sextets_digits bs : Forall is_byte bs → Forall is_digit (Codec.sextets bs).
Proof.
  unfold is_byte, is_digit.
  induction bs as [|a|a b|a b c l IH] using list_ind3; intros Hb; simpl.
  - constructor.
  - inversion_clear Hb. repeat (apply List.Forall_cons; [zdiv|]). constructor.
  - inversion_clear Hb as [|?? Ha Hb']. inversion_clear Hb'.
    repeat (apply List.Forall_cons; [zdiv|]). constructor.
  - inversion_clear Hb as [|?? Ha Hb']. inversion_clear Hb' as [|?? Hb Hc'].
    inversion_clear Hc' as [|?? Hc Hl].
    repeat (apply List.Forall_cons; [zdiv|]). by apply IH.
Qed.

Lemma unsextets_sextets bs : Forall is_byte bs → Codec.unsextets (Codec.sextets bs) = bs.
Proof.
  unfold is_byte.
  induction bs as [|a|a b|a b c l IH] using list_ind3; intros Hb; simpl.
  - done.
  - inversion_clear Hb. f_equal; zdiv.
  - inversion_clear Hb as [|?? Ha Hb']. inversion_clear Hb'.
    repeat f_equal; zdiv.
  - inversion_clear Hb as [|?? Ha Hb']. inversion_clear Hb' as [|?? Hb Hc'].
    inversion_clear Hc' as [|?? Hc Hl].
    rewrite IH by done. repeat f_equal; zdiv.
Qed.

Lemma alphabet_all (P : ascii → bool) :
  forallb P Codec.alphabet = true →
  ∀ d, is_digit d → P (Codec.b64char d) = true.
Proof.
  intros HP d [Hd0 Hd1]. rewrite forallb_forall in HP.
  apply HP, nth_In. change (length Codec.alphabet) with 64%nat. lia.
Qed.

Lemma b64index_b64char d : is_digit d → Codec.b64index (Codec.b64char d) = Some d.
Proof.
  intros [Hd0 Hd1]. rewrite <- (Z2Nat.id d) by lia.
  assert (Hn : (Z.to_nat d < 64)%nat) by lia.
  generalize dependent (Z.to_nat d). clear. intros n Hn.
  unfold Codec.b64char. rewrite Nat2Z.id.
  do 64 (destruct n as [|n]; [reflexivity|]). lia.
Qed.

Lemma mapM_b64index ds :
  Forall is_digit ds → mapM Codec.b64index (Codec.b64char <$> ds) = Some ds.
Proof.
  intros Hds. apply mapM_Some_2, Forall2_fmap_l, Forall_Forall2_diag.
  eapply Forall_impl; [exact Hds|]. apply b64index_b64char.
Qed.

Lemma filter_all {A} (P : A → bool) l :
  Forall (λ x, P x = true) l → List.filter P l = l.
Proof. induction 1 as [|x l Hx _ IH]; simpl; [done|]. by rewrite Hx, IH. Qed.

Lemma padding_cases n :
  Codec.padding n = [] ∨ Codec.padding n = [Codec.pad]
  ∨ Codec.padding n = [Codec.pad; Codec.pad].
Proof.
  unfold Codec.padding.
  assert (H : ((3 - n mod 3) mod 3 < 3)%nat) by (apply Nat.mod_upper_bound; lia).
  destruct ((3 - n mod 3) mod 3)%nat as [|[|[|k]]]; simpl; auto. lia.
Qed.

Lemma padding_step n : Codec.padding (S (S (S n))) = Codec.padding n.
Proof.
  unfold Codec.padding. f_equal.
  replace (S (S (S n))) with (n + 1 * 3)%nat by lia.
  by rewrite Nat.Div0.mod_add.
Qed.

Lemma text_length bs :
  ∃ k j : nat,
    (length (digits_text bs ++ Codec.padding (length bs)) = 4 * k)%nat
    ∧ ((length (digits_text bs) = 4 * j)%nat
       ∨ (length (digits_text bs) = 4 * j + 2)%nat
       ∨ (length (digits_text bs) = 4 * j + 3)%nat).
Proof.
  unfold digits_text.
  induction bs as [|a|a b|a b c l (k & j & IH1 & IH2)] using list_ind3.
  - exists 0%nat, 0%nat. split; [reflexivity|]. by left.
  - exists 1%nat, 0%nat. split; [reflexivity|]. right. by left.
  - exists 1%nat, 0%nat. split; [reflexivity|]. right. by right.
  - exists (S k), (S j). cbn [length]. rewrite padding_step.
    revert IH1 IH2. cbn [Codec.sextets fmap list_fmap app length].
    rewrite !length_app, !length_fmap. lia.
Qed.

Lemma digits_text_plain bs :
  Forall is_byte bs →
  Forall (λ c, Ascii.eqb c Codec.pad = false ∧ Codec.is_whitespace c = false)
         (digits_text bs).
Proof.
  intros Hb. unfold digits_text. apply Forall_fmap.
  eapply Forall_impl; [by apply sextets_digits|].
  intros d Hd; simpl.
  pose proof (alphabet_all (λ c, negb (Ascii.eqb c Codec.pad)) eq_refl d Hd) as H1.
  pose proof (alphabet_all (λ c, negb (Codec.is_whitespace c)) eq_refl d Hd) as H2.
  simpl in H1, H2. split; by apply negb_true_iff.
Qed.

Lemma strip_padding_text u n :
  Forall (λ c, Ascii.eqb c Codec.pad = false) u →
  (length (u ++ Codec.padding n) mod 4 = 0)%nat →
  Codec.strip_padding (u ++ Codec.padding n) = u.
Proof.
  intros Hu Hlen. unfold Codec.strip_padding.
  rewrite Hlen. simpl. rewrite rev_app_distr.
  assert (Hhd : ∀ c r, rev u = c :: r → Ascii.eqb c Codec.pad = false).
  { intros c r Hr. rewrite Forall_forall in Hu. apply Hu.
    apply list_elem_of_In, in_rev. rewrite Hr. by left. }
  destruct (padding_cases n) as [-> | [-> | ->]]; simpl.
  - rewrite app_nil_r.
    destruct (rev u) as [|c1 [|c2 r]] eqn:Hr; [done| |];
      by rewrite (Hhd _ _ eq_refl).
  - destruct (rev u) as [|c2 r] eqn:Hr.
    + apply (f_equal (@rev ascii)) in Hr. rewrite rev_involutive in Hr.
      by subst u.
    + rewrite (Hhd _ _ eq_refl). change (rev r ++ [c2]) with (rev (c2 :: r)).
      by rewrite <- Hr, rev_involutive.
  - by rewrite rev_involutive.
Qed.

Lemma charCodeAt_byte c : is_byte (Codec.charCodeAt c).
Proof.
  unfold is_byte, Codec.charCodeAt.
  pose proof (N_ascii_bounded c). lia.
Qed.

Lemma fromCharCode_charCodeAt c : Codec.fromCharCode (Codec.charCodeAt c) = c.
Proof.
  unfold Codec.fromCharCode. pose proof (charCodeAt_byte c) as Hc.
  unfold is_byte in Hc. rewrite Z.mod_small by lia.
  unfold Codec.charCodeAt. rewrite N2Z.id. apply ascii_N_embedding.
Qed.

Lemma charCodeAt_fromCharCode b : is_byte b → Codec.charCodeAt (Codec.fromCharCode b) = b.
Proof.
  unfold is_byte, Codec.charCodeAt, Codec.fromCharCode. intros Hb.
  rewrite Z.mod_small by lia.
  rewrite N_ascii_embedding by lia. lia.
Qed.

(** [atob(btoa(s))] is [s] for every binary string. *)
Lemma atob_btoa (binary : string) : Codec.atob (Codec.btoa binary) = Normal binary.
Proof.
  unfold Codec.atob, Codec.btoa.
  set (cs := String.list_ascii_of_string binary).
  set (bs := Codec.charCodeAt <$> cs).
  assert (Hbs : Forall is_byte bs).
  { apply Forall_fmap, Forall_true. intros c. apply charCodeAt_byte. }
  rewrite String.list_ascii_of_string_of_list_ascii.
  fold (digits_text bs).
  pose proof (digits_text_plain bs Hbs) as Hplain.
  destruct (text_length bs) as (k & j & Hlen & Hu).
  rewrite filter_all.
  2:{ apply Forall_app. split.
      - eapply Forall_impl; [exact Hplain|]. by intros c [_ ->].
      - destruct (padding_cases (length bs)) as [-> | [-> | ->]];
          repeat constructor. }
  rewrite strip_padding_text.
  2:{ eapply Forall_impl; [exact Hplain|]. by intros c [-> _]. }
  2:{ rewrite Hlen. by rewrite Nat.mul_comm, Nat.Div0.mod_mul. }
  assert (Hne : (length (digits_text bs) mod 4 =? 1)%nat = false).
  { apply Nat.eqb_neq. destruct Hu as [-> | [-> | ->]];
      rewrite 1?(Nat.add_comm (4 * j)), 1?(Nat.mul_comm 4 j),
        ?Nat.Div0.mod_add, ?Nat.Div0.mod_mul; simpl; lia. }
  rewrite Hne. unfold digits_text.
  rewrite mapM_b64index by by apply sextets_digits.
  rewrite unsextets_sextets by done.
  f_equal. unfold bs. rewrite <- list_fmap_compose.
  rewrite (list_fmap_ext _ id cs) by (intros; apply fromCharCode_charCodeAt).
  rewrite list_fmap_id. apply String.string_of_list_ascii_of_string.
Qed.

End Base64.

(** ** PCM framing *)

Section PCM.

Lemma toInt16_int16 q : is_int16 (Codec.toInt16 q).
Proof.
  unfold is_int16, Codec.toInt16.
  destruct (Z.leb_spec 32768 ((Qnum q ÷ Z.pos (Qden q)) mod 65536)); zdiv.
Qed.

Lemma buffer_bytes vs : Forall is_byte (Codec.buffer_of_int16 vs).
Proof.
  unfold Codec.buffer_of_int16, is_byte.
  induction vs as [|v vs IH]; csimpl; [constructor|].
  repeat (apply List.Forall_cons; [zdiv|]). exact IH.
Qed.

Lemma buffer_length vs : length (Codec.buffer_of_int16 vs) = (2 * length vs)%nat.
Proof.
  unfold Codec.buffer_of_int16.
  induction vs as [|v vs IH]; csimpl; [done|]. rewrite IH. lia.
Qed.

Lemma int16_elements_buffer vs :
  Forall is_int16 vs → Codec.int16_elements (Codec.buffer_of_int16 vs) = vs.
Proof.
  unfold Codec.buffer_of_int16, is_int16.
  induction 1 as [|v vs Hv _ IH]; csimpl; [done|].
  rewrite IH. f_equal. unfold Codec.signed16.
  destruct (Z.leb_spec 32768 (v mod 65536 mod 256 + 256 * (v mod 65536 / 256)));
    zdiv.
Qed.

Lemma new_Int16Array_buffer vs :
  Forall is_int16 vs → Codec.new_Int16Array (Codec.buffer_of_int16 vs) = Normal vs.
Proof.
  intros Hvs. unfold Codec.new_Int16Array.
  rewrite buffer_length, Nat.mul_comm, Nat.Div0.mod_mul. simpl.
  by rewrite int16_elements_buffer.
Qed.

(** The transport is lossless: every buffer of bytes comes back from its
    base64 text. *)
Lemma bytes_round_trip buffer :
  Forall is_byte buffer →
  ∃ binary,
    Codec.atob (Codec.arrayBufferToBase64 buffer) = Normal binary
    ∧ Codec.charCodeAt <$> String.list_ascii_of_string binary = buffer.
Proof.
  intros Hb. unfold Codec.arrayBufferToBase64. eexists. split.
  - apply atob_btoa.
  - rewrite String.list_ascii_of_string_of_list_ascii, <- list_fmap_compose.
    rewrite <- (list_fmap_id buffer) at 2. apply Forall_fmap_ext.
    eapply Forall_impl; [exact Hb|]. intros b. apply charCodeAt_fromCharCode.
Qed.

Lemma decode_encode_eq xs : decode_encode xs = Normal (decoded <$> xs).
Proof.
  unfold decode_encode, Codec.base64ToFloat32Array, Codec.float32To16BitPCM.
  destruct (bytes_round_trip _ (buffer_bytes (Codec.sample_to_int16 <$> xs)))
    as (binary & -> & ->).
  rewrite new_Int16Array_buffer.
  - by rewrite <- list_fmap_compose.
  - apply Forall_fmap, Forall_true. intros x. apply toInt16_int16.
Qed.

End PCM.

Section Quantization.

Local Open Scope Q_scope.

Lemma truncate_spec (q : Q) :
  (0 <= q →
     inject_Z (Qnum q ÷ Z.pos (Qden q)) <= q
     ∧ q < inject_Z (Qnum q ÷ Z.pos (Qden q)) + 1)
  ∧ (q <= 0 →
     q <= inject_Z (Qnum q ÷ Z.pos (Qden q))
     ∧ inject_Z (Qnum q ÷ Z.pos (Qden q)) - 1 < q).
Proof.
  destruct q as [n d]. unfold Qle, Qlt. simpl.
  split; intros H; split; zdiv.
Qed.

Lemma clamp_in_range x : in_range x → Codec.clamp x == x.
Proof.
  intros [Hlo Hhi]. unfold Codec.clamp.
  rewrite (Q.min_r 1 x) by done. by apply Q.max_r.
Qed.

Lemma toInt16_truncate q :
  is_int16 (Qnum q ÷ Z.pos (Qden q)) →
  Codec.toInt16 q = (Qnum q ÷ Z.pos (Qden q))%Z.
Proof.
  unfold is_int16, Codec.toInt16. intros Ht.
  destruct (Z.leb_spec 32768 ((Qnum q ÷ Z.pos (Qden q)) mod 65536)); zdiv.
Qed.

Lemma Qltb_spec x y : reflect (x < y) (Codec.Qltb x y).
Proof.
  unfold Codec.Qltb. destruct (Qle_bool y x) eqn:H; constructor.
  - apply Qle_bool_iff in H. by apply Qle_not_lt.
  - apply Qnot_le_lt. intros Hle. apply Qle_bool_iff in Hle. congruence.
Qed.

Lemma sample_bound x :
  in_range x →
  (0 <= x → x - 2 * quantum < decoded x ∧ decoded x <= x)
  ∧ (x < 0 → x <= decoded x ∧ decoded x < x + quantum).
Proof.
  intros Hx. pose proof (clamp_in_range x Hx) as Hs. destruct Hx as [Hlo Hhi].
  unfold decoded, Codec.sample_to_int16, quantum, Qdiv.
  change (/ 32768) with (1 # 32768).
  set (s := Codec.clamp x) in *. clearbody s.
  destruct (Qltb_spec s 0) as [Hneg | Hpos].
  - pose proof (truncate_spec (s * 32768)) as [_ Ht].
    set (t := (Qnum (s * 32768) ÷ Z.pos (Qden (s * 32768)))%Z) in *.
    destruct Ht as [Ht1 Ht2]; [lra|].
    rewrite toInt16_truncate; fold t.
    2:{ unfold is_int16. rewrite Zle_Qle, Zlt_Qlt.
        change (inject_Z (-32768)) with (-32768 # 1).
        change (inject_Z 32768) with (32768 # 1). lra. }
    split; intros H; [lra|]. split; lra.
  - pose proof (truncate_spec (s * 32767)) as [Ht _].
    set (t := (Qnum (s * 32767) ÷ Z.pos (Qden (s * 32767)))%Z) in *.
    destruct Ht as [Ht1 Ht2]; [lra|].
    rewrite toInt16_truncate; fold t.
    2:{ unfold is_int16. rewrite Zle_Qle, Zlt_Qlt.
        change (inject_Z (-32768)) with (-32768 # 1).
        change (inject_Z 32768) with (32768 # 1). lra. }
    split; intros H; [|lra]. split; lra.
Qed.

End Quantization.

(** ** Codec round trip *)

Section RoundTrip.

Local Open Scope Q_scope.

(** C2, as stated, fails: the sample [1 - 2^-16] is in range and comes back
    as [32766/32768], one and a half quantization steps away. *)
Lemma codec_round_trip_one_step_fails :
  Forall in_range [near_full_scale]
  ∧ ¬ round_trip_within quantum [near_full_scale].
Proof.
  split.
  - repeat constructor; unfold Qle; simpl; lia.
  - intros (ys & Hys & _ & H). rewrite decode_encode_eq in Hys.
    injection Hys as <-.
    specialize (H 0%nat _ _ eq_refl eq_refl).
    vm_compute in H. by apply H.
Qed.

(** C2, amended: for samples in [-1, 1] the decoded sequence has the same
    length and every element is less than two quantization steps away from
    the original (never above it for a non-negative sample), and less than
    one step away for a negative sample. *)
Theorem codec_round_trip_two_steps (xs : list Q) :
  Forall in_range xs →
  ∃ ys,
    decode_encode xs = Normal ys
    ∧ length ys = length xs
    ∧ ∀ i x y, xs !! i = Some x → ys !! i = Some y →
        Qabs (y - x) < 2 * quantum
        ∧ (0 <= x → y <= x)
        ∧ (x < 0 → Qabs (y - x) < quantum).
Proof.
  intros Hxs. exists (decoded <$> xs). split; [apply decode_encode_eq|].
  split; [apply length_fmap|].
  intros i x y Hx Hy. rewrite list_lookup_fmap, Hx in Hy.
  injection Hy as <-.
  rewrite Forall_lookup in Hxs. specialize (Hxs i x Hx).
  destruct (sample_bound x Hxs) as [Hpos Hneg]. unfold quantum in *.
  destruct (Qlt_le_dec x 0) as [Hx0 | Hx0].
  - destruct (Hneg Hx0) as [H1 H2].
    split_and!; [| intros; lra |intros _]; apply Qabs_Qlt_condition; lra.
  - destruct (Hpos Hx0) as [H1 H2].
    split_and!; [| done | intros; lra]. apply Qabs_Qlt_condition; lra.
Qed.

Lemma codec_round_trip_two_steps_witness :
  ∃ ys,
    decode_encode [near_full_scale; -1; 0; 1; -(1 # 3)] = Normal ys
    ∧ length ys = 5%nat
    ∧ ∀ i x y,
        [near_full_scale; -1; 0; 1; -(1 # 3)] !! i = Some x →
        ys !! i = Some y →
        Qabs (y - x) < 2 * quantum
        ∧ (0 <= x → y <= x)
        ∧ (x < 0 → Qabs (y - x) < quantum).
Proof.
  apply (codec_round_trip_two_steps [near_full_scale; -1; 0; 1; -(1 # 3)]).
  repeat constructor; unfold Qle; simpl; lia.
Defined.

End RoundTrip.

(** ** Odd-length audio *)

Section MalformedAudio.

Lemma length_list_ascii (s : string) :
  length (String.list_ascii_of_string s) = String.length s.
Proof. induction s as [|c s IH]; simpl; [done|]. by rewrite IH. Qed.

(** C6, as stated, fails: one byte of audio is refused, but what is thrown
    is the typed-array constructor's [RangeError]; no error named
    [MalformedAudio] exists. *)
Lemma odd_length_not_MalformedAudio :
  Codec.atob one_byte_audio = Normal (String.String "000" "")
  ∧ ¬ ∃ e, Codec.base64ToFloat32Array one_byte_audio = Throw e
            ∧ exn_name e = "MalformedAudio".
Proof.
  split; [reflexivity|]. intros (e & He & Hname).
  vm_compute in He. injection He as <-. discriminate Hname.
Qed.

(** C6, amended: whenever the base64 text decodes to an odd number of
    bytes, [base64ToFloat32Array] produces no samples at all: the
    [Int16Array] constructor throws a [RangeError] before any sample is
    computed.  The exception leaves [onmessage]: nothing is scheduled, the
    tool calls of the same message are not dispatched, and the state is as
    it was before the message. *)
Theorem odd_length_audio_rejected (base64 binary : string) :
  Codec.atob base64 = Normal binary →
  Nat.odd (String.length binary) = true →
  Codec.base64ToFloat32Array base64 = Throw odd_length_error
  ∧ ∀ now toolCall w,
      onmessage now (LiveServerMessage.mk (Some base64) toolCall) w
      = (Throw odd_length_error, w).
Proof.
  intros Hatob Hodd.
  assert (Hdec : Codec.base64ToFloat32Array base64 = Throw odd_length_error).
  { unfold Codec.base64ToFloat32Array, Codec.new_Int16Array. rewrite Hatob.
    rewrite length_fmap, length_list_ascii.
    rewrite Nat.odd_spec in Hodd. destruct Hodd as [k ->].
    replace (2 * k + 1)%nat with (1 + k * 2)%nat by lia.
    by rewrite Nat.Div0.mod_add. }
  split; [done|]. intros now toolCall w.
  unfold onmessage, play. simpl.
  destruct (String.eqb_spec base64 "") as [-> | _].
  - vm_compute in Hatob. injection Hatob as <-. discriminate Hodd.
  - unfold mbind, M_bind, lift. by rewrite Hdec.
Qed.

Lemma odd_length_audio_rejected_witness :
  Codec.base64ToFloat32Array one_byte_audio = Throw odd_length_error
  ∧ ∀ now toolCall w,
      onmessage now (LiveServerMessage.mk (Some one_byte_audio) toolCall) w
      = (Throw odd_length_error, w).
Proof.
  apply (odd_length_audio_rejected one_byte_audio (String.String "000" ""));
    reflexivity.
Defined.

End MalformedAudio.

(** ** Reasoning about effectful code *)

Section Effects.

Context {B : Type} (f : World.t → B).

Lemma keeps_ret {A} (a : A) : keeps f (mret a).
Proof. by intros w. Qed.

Lemma keeps_throw {A} e : keeps f (@throw A e).
Proof. by intros w. Qed.

Lemma keeps_lift {A} (c : Completion A) : keeps f (lift c).
Proof. by intros w. Qed.

Lemma keeps_get {A} (g : World.t → A) : keeps f (get g).
Proof. by intros w. Qed.

Lemma keeps_modify g : (∀ w, f (g w) = f w) → keeps f (modify g).
Proof. intros Hg w. apply Hg. Qed.

Lemma keeps_bind {A C} (m : M A) (k : A → M C) :
  keeps f m → (∀ a, keeps f (k a)) → keeps f (m ≫= k).
Proof.
  intros Hm Hk w. unfold mbind, M_bind. specialize (Hm w).
  destruct (m w) as [[a|e] w1]; simpl in *; [|done].
  by rewrite Hk.
Qed.

Lemma keeps_try_catch {A} (m : M A) h :
  keeps f m → (∀ e, keeps f (h e)) → keeps f (try_catch m h).
Proof.
  intros Hm Hh w. unfold try_catch. specialize (Hm w).
  destruct (m w) as [[a|e] w1]; simpl in *; [done|].
  by rewrite Hh.
Qed.

Lemma blind_ret {A} (a : A) : sent_blind (mret a).
Proof. by intros s w. Qed.

Lemma blind_throw {A} e : sent_blind (@throw A e).
Proof. by intros s w. Qed.

Lemma blind_lift {A} (c : Completion A) : sent_blind (lift c).
Proof. by intros s w. Qed.

Lemma blind_get {A} (g : World.t → A) :
  (∀ s w, g (World.set_sent s w) = g w) → sent_blind (get g).
Proof. intros Hg s w. unfold get. simpl. by rewrite Hg. Qed.

Lemma blind_modify g :
  (∀ s w, g (World.set_sent s w) = World.set_sent s (g w)) →
  sent_blind (modify g).
Proof. intros Hg s w. unfold modify. simpl. by rewrite Hg. Qed.

Lemma blind_bind {A C} (m : M A) (k : A → M C) :
  sent_blind m → (∀ a, sent_blind (k a)) → sent_blind (m ≫= k).
Proof.
  intros Hm Hk s w. unfold mbind, M_bind. rewrite Hm.
  destruct (m w) as [[a|e] w1]; simpl; [|done].
  by rewrite Hk.
Qed.

Lemma blind_try_catch {A} (m : M A) h :
  sent_blind m → (∀ e, sent_blind (h e)) → sent_blind (try_catch m h).
Proof.
  intros Hm Hh s w. unfold try_catch. rewrite Hm.
  destruct (m w) as [[a|e] w1]; simpl; [done|].
  by rewrite Hh.
Qed.

End Effects.

Section StoreEffects.

Context {B : Type} (f : World.t → B).
Hypothesis f_storage : ∀ v w, f (World.set_localStorage v w) = f w.
Hypothesis f_tasks : ∀ v w, f (World.set_tasks v w) = f w.

Lemma getTasks_keeps : keeps f DjangoAPI.getTasks.
Proof. apply keeps_get. Qed.

Lemma store_modify_keeps v : keeps f (modify (World.set_localStorage v)).
Proof. apply keeps_modify, f_storage. Qed.

Lemma createTask_keeps now data : keeps f (DjangoAPI.createTask now data).
Proof.
  unfold DjangoAPI.createTask.
  apply keeps_bind; [apply getTasks_keeps|]; intros tasks.
  apply keeps_bind; [apply store_modify_keeps|]; intros _. apply keeps_ret.
Qed.

Lemma updateTask_keeps id updates : keeps f (DjangoAPI.updateTask id updates).
Proof.
  unfold DjangoAPI.updateTask.
  apply keeps_bind; [apply getTasks_keeps|]; intros tasks.
  destruct (DjangoAPI.findIndex id tasks) as [[index task]|];
    [|apply keeps_throw].
  apply keeps_bind; [apply store_modify_keeps|]; intros _. apply keeps_ret.
Qed.

Lemma deleteTask_keeps id : keeps f (DjangoAPI.deleteTask id).
Proof.
  unfold DjangoAPI.deleteTask.
  apply keeps_bind; [apply getTasks_keeps|]; intros tasks.
  apply store_modify_keeps.
Qed.

Lemma deleteCompletedTasks_keeps : keeps f DjangoAPI.deleteCompletedTasks.
Proof.
  unfold DjangoAPI.deleteCompletedTasks.
  apply keeps_bind; [apply getTasks_keeps|]; intros tasks.
  apply keeps_bind; [apply store_modify_keeps|]; intros _. apply keeps_ret.
Qed.

Lemma loadTasks_keeps : keeps f loadTasks.
Proof.
  unfold loadTasks. apply keeps_try_catch; [|intros; apply keeps_ret].
  apply keeps_bind; [apply getTasks_keeps|]; intros data.
  apply keeps_modify, f_tasks.
Qed.

Lemma prop_keeps fc k : keeps f (Dispatcher.prop fc k).
Proof.
  unfold Dispatcher.prop. destruct (FunctionCall.args fc);
    [apply keeps_ret | apply keeps_throw].
Qed.

Lemma switch_keeps now fc : keeps f (Dispatcher.switch now fc).
Proof.
  unfold Dispatcher.switch.
  repeat case_decide;
    repeat first
      [ apply prop_keeps | apply createTask_keeps | apply updateTask_keeps
      | apply deleteTask_keeps | apply deleteCompletedTasks_keeps
      | apply loadTasks_keeps | apply getTasks_keeps
      | apply keeps_ret
      | apply keeps_bind; [|intros ?] ].
Qed.

End StoreEffects.

Section Blind.

Lemma getTasks_blind : sent_blind DjangoAPI.getTasks.
Proof. by apply blind_get. Qed.

Lemma store_modify_blind v : sent_blind (modify (World.set_localStorage v)).
Proof. by apply blind_modify. Qed.

Lemma createTask_blind now data : sent_blind (DjangoAPI.createTask now data).
Proof.
  unfold DjangoAPI.createTask.
  apply blind_bind; [apply getTasks_blind|]; intros tasks.
  apply blind_bind; [apply store_modify_blind|]; intros _. apply blind_ret.
Qed.

Lemma updateTask_blind id updates : sent_blind (DjangoAPI.updateTask id updates).
Proof.
  unfold DjangoAPI.updateTask.
  apply blind_bind; [apply getTasks_blind|]; intros tasks.
  destruct (DjangoAPI.findIndex id tasks) as [[index task]|];
    [|apply blind_throw].
  apply blind_bind; [apply store_modify_blind|]; intros _. apply blind_ret.
Qed.

Lemma deleteTask_blind id : sent_blind (DjangoAPI.deleteTask id).
Proof.
  unfold DjangoAPI.deleteTask.
  apply blind_bind; [apply getTasks_blind|]; intros tasks.
  apply store_modify_blind.
Qed.

Lemma deleteCompletedTasks_blind : sent_blind DjangoAPI.deleteCompletedTasks.
Proof.
  unfold DjangoAPI.deleteCompletedTasks.
  apply blind_bind; [apply getTasks_blind|]; intros tasks.
  apply blind_bind; [apply store_modify_blind|]; intros _. apply blind_ret.
Qed.

Lemma loadTasks_blind : sent_blind loadTasks.
Proof.
  unfold loadTasks. apply blind_try_catch; [|intros; apply blind_ret].
  apply blind_bind; [apply getTasks_blind|]; intros data.
  by apply blind_modify.
Qed.

Lemma prop_blind fc k : sent_blind (Dispatcher.prop fc k).
Proof.
  unfold Dispatcher.prop. destruct (FunctionCall.args fc);
    [apply blind_ret | apply blind_throw].
Qed.

Lemma switch_blind now fc : sent_blind (Dispatcher.switch now fc).
Proof.
  unfold Dispatcher.switch.
  repeat case_decide;
    repeat first
      [ apply prop_blind | apply createTask_blind | apply updateTask_blind
      | apply deleteTask_blind | apply deleteCompletedTasks_blind
      | apply loadTasks_blind | apply getTasks_blind
      | apply blind_ret
      | apply blind_bind; [|intros ?] ].
Qed.

End Blind.

(** ** The dispatcher as a function from a batch to its responses *)

Section Dispatch.

Lemma outcome_blind now fc s w :
  outcome now fc (World.set_sent s w)
  = ((outcome now fc w).1, World.set_sent s (outcome now fc w).2).
Proof.
  unfold outcome. rewrite switch_blind.
  by destruct (Dispatcher.switch now fc w) as [[r|e] w'].
Qed.

Lemma outcome_sent now fc w : World.sent (outcome now fc w).2 = World.sent w.
Proof.
  unfold outcome. pose proof (switch_keeps World.sent (λ _ _, eq_refl)
    (λ _ _, eq_refl) now fc w) as H.
  by destruct (Dispatcher.switch now fc w) as [[r|e] w'].
Qed.

Lemma responses_blind calls s w :
  responses calls (World.set_sent s w)
  = ((responses calls w).1, World.set_sent s (responses calls w).2).
Proof.
  revert w. induction calls as [|[now fc] rest IH]; intros w; simpl; [done|].
  rewrite outcome_blind. destruct (outcome now fc w) as [r w1]. simpl.
  rewrite IH. by destruct (responses rest w1) as [rs w2].
Qed.

Lemma responses_sent calls w : World.sent (responses calls w).2 = World.sent w.
Proof.
  revert w. induction calls as [|[now fc] rest IH]; intros w; simpl; [done|].
  pose proof (outcome_sent now fc w) as H1.
  destruct (outcome now fc w) as [r w1]. specialize (IH w1).
  destruct (responses rest w1) as [rs w2]. simpl in *. congruence.
Qed.

Lemma set_sent_set_sent s1 s2 w :
  World.set_sent s1 (World.set_sent s2 w) = World.set_sent s1 w.
Proof. done. Qed.

Lemma handle_outcome now fc w :
  Dispatcher.handle now fc w
  = (Normal (),
     World.set_sent (World.sent w ++ [response fc (outcome now fc w).1])
       (outcome now fc w).2).
Proof.
  pose proof (outcome_sent now fc w) as Hs. revert Hs.
  unfold Dispatcher.handle, outcome, try_catch, mbind, M_bind,
    Dispatcher.sendToolResponse, modify.
  destruct (Dispatcher.switch now fc w) as [[r|e] w']; simpl;
    by intros ->.
Qed.

(** [dispatch] never throws, and it appends exactly [responses] to the
    log. *)
Lemma dispatch_responses calls w :
  Dispatcher.dispatch calls w
  = (Normal (),
     World.set_sent (World.sent w ++ (responses calls w).1)
       (responses calls w).2).
Proof.
  revert w. induction calls as [|[now fc] rest IH]; intros w.
  - simpl. rewrite app_nil_r. by destruct w.
  - cbn [Dispatcher.dispatch responses]. unfold mbind, M_bind.
    rewrite handle_outcome. destruct (outcome now fc w) as [r w1]. simpl.
    rewrite IH, responses_blind. destruct (responses rest w1) as [rs w2].
    simpl. by rewrite <- app_assoc.
Qed.

End Dispatch.

(** ** Tool dispatch: completeness *)

Section Completeness.

Lemma responses_echo calls w :
  Forall2
    (λ c r, FunctionResponse.id r = FunctionCall.id c.2
            ∧ FunctionResponse.name r = FunctionCall.name c.2)
    calls (responses calls w).1.
Proof.
  revert w. induction calls as [|[now fc] rest IH]; intros w; simpl.
  - constructor.
  - destruct (outcome now fc w) as [r w1]. specialize (IH w1).
    destruct (responses rest w1) as [rs w2]. by constructor.
Qed.

(** C3: whatever the batch holds (known or unknown names, missing
    arguments, failing store operations), the dispatcher ends normally and
    has sent exactly one response per request, in order, each carrying the
    [id] (and the [name]) of the request it answers; and handling a
    tool-call message is running the dispatcher on its batch. *)
Theorem dispatch_complete (functionCalls : list (string * FunctionCall.t)) (w : World.t) :
  ∃ rs,
    (Dispatcher.dispatch functionCalls w).1 = Normal ()
    ∧ World.sent (Dispatcher.dispatch functionCalls w).2 = World.sent w ++ rs
    ∧ length rs = length functionCalls
    ∧ Forall2
        (λ c r, FunctionResponse.id r = FunctionCall.id c.2
                ∧ FunctionResponse.name r = FunctionCall.name c.2)
        functionCalls rs
    ∧ ∀ currentTime,
        onmessage currentTime (LiveServerMessage.mk None (Some functionCalls)) w
        = Dispatcher.dispatch functionCalls w.
Proof.
  exists (responses functionCalls w).1. rewrite dispatch_responses. simpl.
  pose proof (responses_echo functionCalls w) as H.
  split_and!; try done.
  - symmetry. by eapply Forall2_length.
  - intros currentTime. apply (dispatch_responses functionCalls w).
Qed.

End Completeness.

(** ** Tool dispatch: failure isolation *)

Section Isolation.

Lemma switch_throw now fc w e w' :
  Dispatcher.switch now fc w = (Throw e, w') → w' = w.
Proof.
  unfold Dispatcher.switch, Dispatcher.prop, DjangoAPI.createTask,
    DjangoAPI.updateTask, DjangoAPI.deleteTask, DjangoAPI.deleteCompletedTasks,
    DjangoAPI.getTasks, loadTasks, try_catch, mbind, M_bind, mret, M_ret,
    throw, get, modify.
  repeat case_decide; destruct (FunctionCall.args fc); simpl;
    repeat case_match; intros; simplify_eq; done.
Qed.

Lemma outcome_throw now fc w e :
  (Dispatcher.switch now fc w).1 = Throw e →
  outcome now fc w = (ResError (message_of e), w).
Proof.
  unfold outcome. destruct (Dispatcher.switch now fc w) as [[r|e'] w'] eqn:Hs;
    simpl; intros He; simplify_eq.
  by rewrite (switch_throw _ _ _ _ _ Hs).
Qed.

Lemma responses_app calls1 calls2 w :
  responses (calls1 ++ calls2) w
  = ((responses calls1 w).1 ++ (responses calls2 (responses calls1 w).2).1,
     (responses calls2 (responses calls1 w).2).2).
Proof.
  revert w. induction calls1 as [|[now fc] rest IH]; intros w; simpl.
  - by destruct (responses calls2 w).
  - destruct (outcome now fc w) as [r w1]. rewrite IH.
    by destruct (responses rest w1) as [rs w2].
Qed.

(** C4: when the body of the [try] throws for one request of a batch, the
    dispatcher still ends normally, that request is answered with the
    exception's message as its error, and everything else (the responses
    to the requests before and after it, the stored tasks, the rest of the
    state) is exactly what the batch without that request produces. *)
Theorem dispatch_failure_isolated
    (before after : list (string * FunctionCall.t))
    (now : string) (fc : FunctionCall.t) (e : JsExn) (w : World.t) :
  (Dispatcher.switch now fc (Dispatcher.dispatch before w).2).1 = Throw e →
  ∃ rs1 rs2 w',
    length rs1 = length before
    ∧ length rs2 = length after
    ∧ Dispatcher.dispatch (before ++ after) w
      = (Normal (), World.set_sent (World.sent w ++ rs1 ++ rs2) w')
    ∧ Dispatcher.dispatch (before ++ (now, fc) :: after) w
      = (Normal (),
         World.set_sent
           (World.sent w ++ rs1 ++ response fc (ResError (message_of e)) :: rs2)
           w').
Proof.
  intros Hthrow.
  rewrite dispatch_responses in Hthrow. simpl in Hthrow.
  rewrite switch_blind in Hthrow. simpl in Hthrow.
  apply outcome_throw in Hthrow.
  set (w1 := (responses before w).2) in *.
  exists (responses before w).1, (responses after w1).1, (responses after w1).2.
  split; [symmetry; eapply Forall2_length, responses_echo|].
  split; [symmetry; eapply Forall2_length, responses_echo|].
  rewrite !dispatch_responses, !responses_app. fold w1.
  cbn [responses]. rewrite Hthrow.
  by destruct (responses after w1) as [rs2 w2].
Qed.

End Isolation.

(** ** The task store *)

Section Store.

Lemma foldl_max_spec (rest : list Z) (x : Z) :
  foldl Z.max x rest ∈ x :: rest
  ∧ ∀ i, i ∈ x :: rest → i ≤ foldl Z.max x rest.
Proof.
  revert x. induction rest as [|y rest IH]; intros x; simpl.
  - split; [left|]. intros i Hi. apply list_elem_of_singleton in Hi. lia.
  - destruct (IH (Z.max x y)) as [Hin Hle]. split.
    + apply elem_of_cons in Hin as [Hin | Hin]; [|by do 2 right].
      rewrite Hin. destruct (Z.max_spec x y) as [[_ ->] | [_ ->]];
        [right; left | left].
    + intros i Hi. apply elem_of_cons in Hi as [-> | Hi].
      * etrans; [|apply Hle; left]. lia.
      * apply elem_of_cons in Hi as [-> | Hi].
        -- etrans; [|apply Hle; left]. lia.
        -- apply Hle. by right.
Qed.

Lemma Math_max_spec (xs : list Z) :
  xs ≠ [] →
  DjangoAPI.Math_max xs ∈ xs ∧ ∀ i, i ∈ xs → i ≤ DjangoAPI.Math_max xs.
Proof. destruct xs as [|x rest]; [done|]. intros _. apply foldl_max_spec. Qed.

Lemma createTask_eq now data w :
  DjangoAPI.createTask now data w
  = let newTask :=
      Task.mk
        (if bool_decide (0 < length (stored w))%nat
         then Float64.integer (DjangoAPI.Math_max (Task.id <$> stored w) + 1)
         else 1)
        (TaskData.title data) (TaskData.description data)
        (TaskData.priority data) (TaskData.completed data) now
        (TaskData.due_date data) (TaskData.completed_at data)
        (Some (default [] (TaskData.subtasks data))) in
    (Normal newTask, World.set_localStorage (Some (newTask :: stored w)) w).
Proof. reflexivity. Qed.

Lemma deleteTask_eq id w :
  DjangoAPI.deleteTask id w
  = (Normal (),
     World.set_localStorage
       (Some (filter (λ t, JNum (Task.id t) ≠ id) (stored w))) w).
Proof. reflexivity. Qed.

(** On a store of safe integers the sum [Math.max(...) + 1] is exact. *)
Lemma nextId_exact w :
  safe_ids w →
  (if bool_decide (0 < length (stored w))%nat
   then Float64.integer (DjangoAPI.Math_max (Task.id <$> stored w) + 1)
   else 1)
  = (if bool_decide (0 < length (stored w))%nat
     then DjangoAPI.Math_max (Task.id <$> stored w) + 1
     else 1).
Proof.
  intros Hsafe. destruct (stored w) as [|t ts] eqn:Hst; [done|].
  rewrite bool_decide_true by (simpl; lia).
  apply integer_small.
  destruct (Math_max_spec (Task.id <$> t :: ts)) as [Hin _]; [done|].
  unfold safe_ids in Hsafe. rewrite Hst, Forall_forall in Hsafe.
  replace (DjangoAPI.Math_max (Task.id <$> t :: ts) + 1 - 1)
    with (DjangoAPI.Math_max (Task.id <$> t :: ts)) by lia.
  by apply Hsafe.
Qed.

(** C10, as stated, fails: on a store whose only id is 2^53 the sum
    [Math.max(...) + 1] rounds back to 2^53, so the new task gets the id
    that is already there. *)
Lemma createTask_repeats_id :
  NoDup (Task.id <$> stored last_exact_world)
  ∧ ∃ newTask w',
      DjangoAPI.createTask "2026-01-05T09:30:00.000Z"
        (TaskData.mk (JStr "Call mum") (JStr "") (JStr "High") (JBool false)
           (JStr "") JUndefined None) last_exact_world
      = (Normal newTask, w')
      ∧ Task.id newTask = 2 ^ 53
      ∧ Task.id newTask ∈ Task.id <$> stored last_exact_world
      ∧ ¬ (∀ i, i ∈ Task.id <$> stored last_exact_world → i < Task.id newTask)
      ∧ ¬ NoDup (Task.id <$> stored w').
Proof.
  split; [apply NoDup_singleton|].
  exists (Task.mk (2 ^ 53) (JStr "Call mum") (JStr "") (JStr "High")
            (JBool false) "2026-01-05T09:30:00.000Z" (JStr "") JUndefined
            (Some [])).
  eexists. split; [vm_compute; reflexivity|]. split; [reflexivity|].
  split_and!.
  - by apply list_elem_of_singleton.
  - intros H. specialize (H (2 ^ 53)).
    assert (2 ^ 53 < 2 ^ 53); [|lia].
    apply H. by apply list_elem_of_singleton.
  - intros H. apply NoDup_cons in H as [H _]. apply H.
    by apply list_elem_of_singleton.
Qed.

(** C10, amended: on a store whose ids are pairwise distinct safe
    integers, [createTask] puts the new task in front of the list with id
    1 when the list is empty and otherwise one more than the greatest id
    present; that id is above every id present and the ids of the new list
    are pairwise distinct again. *)
Theorem createTask_fresh_id (now : string) (data : TaskData.t) (w : World.t) :
  NoDup (Task.id <$> stored w) →
  safe_ids w →
  ∃ newTask,
    DjangoAPI.createTask now data w
    = (Normal newTask, World.set_localStorage (Some (newTask :: stored w)) w)
    ∧ (stored w = [] → Task.id newTask = 1)
    ∧ (stored w ≠ [] →
       Task.id newTask - 1 ∈ Task.id <$> stored w
       ∧ ∀ i, i ∈ Task.id <$> stored w → i ≤ Task.id newTask - 1)
    ∧ (∀ i, i ∈ Task.id <$> stored w → i < Task.id newTask)
    ∧ NoDup (Task.id <$> newTask :: stored w).
Proof.
  intros Hnodup Hsafe. rewrite createTask_eq. cbv zeta.
  rewrite (nextId_exact w Hsafe).
  eexists. split; [reflexivity|]. simpl.
  assert (Hmax : stored w ≠ [] →
    DjangoAPI.Math_max (Task.id <$> stored w) ∈ Task.id <$> stored w
    ∧ ∀ i, i ∈ Task.id <$> stored w →
           i ≤ DjangoAPI.Math_max (Task.id <$> stored w)).
  { intros Hne. apply Math_max_spec. by destruct (stored w). }
  assert (Hlt : ∀ i, i ∈ Task.id <$> stored w →
    i < (if bool_decide (0 < length (stored w))%nat
         then DjangoAPI.Math_max (Task.id <$> stored w) + 1 else 1)).
  { intros i Hi. destruct (stored w) as [|t ts] eqn:Hst.
    - by apply elem_of_nil in Hi.
    - rewrite bool_decide_true by (simpl; lia).
      destruct Hmax as [_ Hle]; [done|]. specialize (Hle i Hi). lia. }
  split_and!.
  - by intros ->.
  - intros Hne. rewrite bool_decide_true by (destruct (stored w); [done|simpl; lia]).
    replace (DjangoAPI.Math_max (Task.id <$> stored w) + 1 - 1)
      with (DjangoAPI.Math_max (Task.id <$> stored w)) by lia.
    by apply Hmax.
  - exact Hlt.
  - apply NoDup_cons. split; [|done]. intros Hin. apply Hlt in Hin. lia.
Qed.

Lemma createTask_fresh_id_witness :
  ∃ newTask,
    DjangoAPI.createTask "2026-01-05T09:30:00.000Z"
      (TaskData.mk (JStr "Call mum") (JStr "") (JStr "High") (JBool false)
         (JStr "") JUndefined None) milk_world
    = (Normal newTask,
       World.set_localStorage (Some (newTask :: stored milk_world)) milk_world)
    ∧ (stored milk_world = [] → Task.id newTask = 1)
    ∧ (stored milk_world ≠ [] →
       Task.id newTask - 1 ∈ Task.id <$> stored milk_world
       ∧ ∀ i, i ∈ Task.id <$> stored milk_world → i ≤ Task.id newTask - 1)
    ∧ (∀ i, i ∈ Task.id <$> stored milk_world → i < Task.id newTask)
    ∧ NoDup (Task.id <$> newTask :: stored milk_world).
Proof.
  apply (createTask_fresh_id "2026-01-05T09:30:00.000Z"
           (TaskData.mk (JStr "Call mum") (JStr "") (JStr "High") (JBool false)
              (JStr "") JUndefined None) milk_world).
  - simpl. apply NoDup_singleton.
  - apply Forall_cons_2; [by vm_compute|apply Forall_nil_2].
Defined.

(** C8, as stated, fails: deleting the id 7 from a store that only holds
    the id 1 does not answer [NotFound]; nothing is thrown and the call
    returns normally with the store as it was. *)
Lemma deleteTask_missing_id_succeeds :
  (JNum 7 ∉ (λ t, JNum (Task.id t)) <$> stored milk_world)
  ∧ ¬ (∃ e, (DjangoAPI.deleteTask (JNum 7) milk_world).1 = Throw e)
  ∧ DjangoAPI.deleteTask (JNum 7) milk_world = (Normal (), milk_world).
Proof.
  split_and!.
  - intros Hin. apply list_elem_of_singleton in Hin. discriminate.
  - intros [e He]. vm_compute in He. discriminate.
  - reflexivity.
Qed.

(** C8, amended: [deleteTask] always returns normally and never reports
    [NotFound].  The stored list afterwards holds, in the same order,
    exactly the tasks whose id differs from the given one: it is the old
    list when no task has that id, and it is one task shorter when the ids
    are pairwise distinct and some task has that id. *)
Theorem deleteTask_result (id : JsVal) (w : World.t) :
  ∃ remaining,
    DjangoAPI.deleteTask id w
    = (Normal (), World.set_localStorage (Some remaining) w)
    ∧ (∀ t, t ∈ remaining ↔ t ∈ stored w ∧ JNum (Task.id t) ≠ id)
    ∧ remaining `sublist_of` stored w
    ∧ ((∀ t, t ∈ stored w → JNum (Task.id t) ≠ id) → remaining = stored w)
    ∧ (NoDup (Task.id <$> stored w) →
       (∃ t, t ∈ stored w ∧ JNum (Task.id t) = id) →
       length (stored w) = S (length remaining)).
Proof.
  rewrite deleteTask_eq. eexists. split; [reflexivity|].
  generalize (stored w). clear w. intros tasks. split_and!.
  - intros t. rewrite list_elem_of_filter. tauto.
  - apply sublist_filter.
  - intros Hall. induction tasks as [|t ts IH]; [done|].
    rewrite filter_cons_True by (apply Hall; left).
    f_equal. apply IH. intros t' Ht'. apply Hall. by right.
  - intros Hnodup (t & Ht & Hid). induction tasks as [|t' ts IH]; simpl in *.
    + by apply elem_of_nil in Ht.
    + apply NoDup_cons in Hnodup as [Hnotin Hnodup].
      destruct (decide (JNum (Task.id t') = id)) as [Heq | Hne].
      * rewrite filter_cons_False by (by intros H; apply H).
        f_equal. clear IH Ht. subst id.
        induction ts as [|u us IHus]; [done|].
        apply not_elem_of_cons in Hnotin as [Hne Hnotin].
        apply NoDup_cons in Hnodup as [_ Hnodup].
        rewrite filter_cons_True by congruence.
        simpl. f_equal. by apply IHus.
      * rewrite filter_cons_True by done. simpl. f_equal.
        apply IH; [done|]. apply elem_of_cons in Ht as [-> | Ht]; [done|done].
Qed.

Lemma deleteTask_result_witness :
  ∃ remaining,
    DjangoAPI.deleteTask (JNum 1) milk_world
    = (Normal (), World.set_localStorage (Some remaining) milk_world)
    ∧ (∀ t, t ∈ remaining ↔ t ∈ stored milk_world ∧ JNum (Task.id t) ≠ JNum 1)
    ∧ remaining `sublist_of` stored milk_world
    ∧ ((∀ t, t ∈ stored milk_world → JNum (Task.id t) ≠ JNum 1) →
       remaining = stored milk_world)
    ∧ (NoDup (Task.id <$> stored milk_world) →
       (∃ t, t ∈ stored milk_world ∧ JNum (Task.id t) = JNum 1) →
       length (stored milk_world) = S (length remaining)).
Proof. exact (deleteTask_result (JNum 1) milk_world). Defined.

End Store.

(** ** Tool dispatch: the individual operations *)

Section Operations.

(** C7: a [create_task] request whose arguments hold a title is answered
    by exactly one response, which carries the created task; that task is
    put in front of the stored list, has the title as given, is not
    completed, and has priority [Medium] when no priority was given (and
    also when the given one is falsy). *)
Theorem create_task_defaults
    (now : string) (fc : FunctionCall.t) (o : gmap string JsVal)
    (title : JsVal) (w : World.t) :
  FunctionCall.name fc = "create_task" →
  FunctionCall.args fc = Some o →
  o !! "title" = Some title →
  ∃ task,
    (Dispatcher.dispatch [(now, fc)] w).1 = Normal ()
    ∧ World.sent (Dispatcher.dispatch [(now, fc)] w).2
      = World.sent w ++ [response fc (ResTask task)]
    ∧ stored (Dispatcher.dispatch [(now, fc)] w).2 = task :: stored w
    ∧ Task.title task = title
    ∧ Task.completed task = JBool false
    ∧ Task.priority task
      = match o !! "priority" with
        | None => JStr "Medium"
        | Some p => js_or p (JStr "Medium")
        end.
Proof.
  intros Hname Hargs Htitle. rewrite dispatch_responses.
  cbn [responses]. unfold outcome, Dispatcher.switch.
  rewrite Hname. rewrite decide_True by done.
  unfold Dispatcher.prop. rewrite Hargs. rewrite Htitle.
  eexists. split_and!; try reflexivity.
  simpl. by destruct (o !! "priority").
Qed.

Lemma create_task_defaults_witness :
  ∃ task,
    (Dispatcher.dispatch [("2026-01-05T09:00:00.000Z", buy_milk)]
       World.initial).1 = Normal ()
    ∧ World.sent
        (Dispatcher.dispatch [("2026-01-05T09:00:00.000Z", buy_milk)]
           World.initial).2
      = World.sent World.initial ++ [response buy_milk (ResTask task)]
    ∧ stored
        (Dispatcher.dispatch [("2026-01-05T09:00:00.000Z", buy_milk)]
           World.initial).2
      = task :: stored World.initial
    ∧ Task.title task = JStr "Buy milk"
    ∧ Task.completed task = JBool false
    ∧ Task.priority task
      = match ({[ "title" := JStr "Buy milk" ]} : gmap string JsVal) !! "priority" with
        | None => JStr "Medium"
        | Some p => js_or p (JStr "Medium")
        end.
Proof.
  apply (create_task_defaults "2026-01-05T09:00:00.000Z" buy_milk
           {[ "title" := JStr "Buy milk" ]} (JStr "Buy milk") World.initial);
    reflexivity.
Defined.

(** The scenario of C7, evaluated: one response, title [Buy milk],
    priority [Medium]. *)
Example buy_milk_scenario :
  World.sent
    (Dispatcher.dispatch [("2026-01-05T09:00:00.000Z", buy_milk)]
       World.initial).2
  = [FunctionResponse.mk "call-1" "create_task" (ResTask milk_task)].
Proof. vm_compute. reflexivity. Qed.

Lemma dispatch_failure_isolated_witness :
  ∃ rs1 rs2 w',
    length rs1 = 1%nat
    ∧ length rs2 = 1%nat
    ∧ Dispatcher.dispatch
        ([("2026-01-05T09:00:00.000Z", buy_milk)]
           ++ [("2026-01-05T09:02:00.000Z", set_status "call-3" 1 true)])
        World.initial
      = (Normal (), World.set_sent (World.sent World.initial ++ rs1 ++ rs2) w')
    ∧ Dispatcher.dispatch
        ([("2026-01-05T09:00:00.000Z", buy_milk)]
           ++ ("2026-01-05T09:01:00.000Z", set_status "call-2" 7 true)
           :: [("2026-01-05T09:02:00.000Z", set_status "call-3" 1 true)])
        World.initial
      = (Normal (),
         World.set_sent
           (World.sent World.initial ++ rs1
              ++ response (set_status "call-2" 7 true)
                   (ResError (message_of (Error "404 Not Found")))
              :: rs2)
           w').
Proof.
  apply (dispatch_failure_isolated
           [("2026-01-05T09:00:00.000Z", buy_milk)]
           [("2026-01-05T09:02:00.000Z", set_status "call-3" 1 true)]
           "2026-01-05T09:01:00.000Z" (set_status "call-2" 7 true)
           (Error "404 Not Found") World.initial).
  vm_compute. reflexivity.
Defined.

(** C5: the dispatcher sets the completion flag but leaves [completed_at]
    unset when the task becomes completed, whereas the check-box handler
    stamps it. *)
Theorem voice_completion_not_stamped :
  (Task.completed <$> after_voice_completion = [JBool true]
   ∧ Task.completed_at <$> after_voice_completion = [JUndefined])
  ∧ (Task.completed <$> after_checkbox_completion = [JBool true]
     ∧ Task.completed_at <$> after_checkbox_completion
       = [JStr "2026-01-05T10:00:00.000Z"]).
Proof. vm_compute. repeat split. Qed.

(** In general no [update_task_status] request changes any [completed_at]. *)
Lemma update_task_status_keeps_completed_at now fc w :
  FunctionCall.name fc = "update_task_status" →
  Task.completed_at <$> stored (Dispatcher.dispatch [(now, fc)] w).2
  = Task.completed_at <$> stored w.
Proof.
  intros Hname. rewrite dispatch_responses. cbn [responses].
  unfold outcome, Dispatcher.switch. rewrite Hname.
  rewrite decide_False by done. rewrite decide_False by done.
  rewrite decide_True by done.
  unfold Dispatcher.prop, DjangoAPI.updateTask, DjangoAPI.getTasks, loadTasks,
    try_catch, mbind, M_bind, mret, M_ret, throw, get, modify.
  destruct (FunctionCall.args fc) as [o|]; simpl; [|done].
  fold (stored w).
  destruct (DjangoAPI.findIndex _ (stored w)) as [[index task]|] eqn:Hfind;
    simpl; [|done].
  unfold stored at 1. simpl.
  apply list_find_Some in Hfind as (Hlookup & _ & _).
  rewrite list_fmap_insert. simpl. by apply list_insert_id, list_lookup_fmap_Some_2.
Qed.

End Operations.

(** ** Playback scheduler *)

Section Playback.

Lemma play_eq now audioData w :
  play now audioData w
  = match Codec.base64ToFloat32Array audioData with
    | Throw e => (Throw e, w)
    | Normal float32Data =>
        if bool_decide (length float32Data = 0%nat)
        then (Throw (DOMException "NotSupportedError"
                "The number of frames provided (0) is less than or equal to the minimum bound (0)."),
              w)
        else (Normal (),
              scheduled now (Scheduler.duration_of (length float32Data)) w)
    end.
Proof.
  unfold play, lift, createBuffer, mbind, M_bind.
  destruct (Codec.base64ToFloat32Array audioData) as [float32Data|e]; [|done].
  by destruct (bool_decide (length float32Data = 0%nat)).
Qed.

Lemma dispatch_keeps {B} (f : World.t → B) calls :
  (∀ v w, f (World.set_localStorage v w) = f w) →
  (∀ v w, f (World.set_tasks v w) = f w) →
  (∀ v w, f (World.set_sent v w) = f w) →
  keeps f (Dispatcher.dispatch calls).
Proof.
  intros H1 H2 H3.
  induction calls as [|[now fc] rest IH]; simpl; [apply keeps_ret|].
  apply keeps_bind; [|by intros _].
  unfold Dispatcher.handle. apply keeps_bind.
  - apply keeps_try_catch; [by apply switch_keeps|]. intros e. apply keeps_ret.
  - intros r. apply keeps_modify. intros w'. apply H3.
Qed.

(** The tool calls of a message leave the scheduler alone. *)
Lemma tools_keep_scheduler (toolCall : option (list (string * FunctionCall.t))) :
  keeps World.started
    match toolCall with
    | Some functionCalls => Dispatcher.dispatch functionCalls
    | None => mret ()
    end
  ∧ keeps World.nextStartTime
      match toolCall with
      | Some functionCalls => Dispatcher.dispatch functionCalls
      | None => mret ()
      end.
Proof.
  destruct toolCall; split; try apply keeps_ret; by apply dispatch_keeps.
Qed.

(** A message either leaves the scheduler alone or schedules one segment
    at [max(now, nextStartTime)]. *)
Lemma receive_cases w now msg :
  (World.started (receive w (now, msg)) = World.started w
   ∧ World.nextStartTime (receive w (now, msg)) = World.nextStartTime w)
  ∨ ∃ d,
      World.started (receive w (now, msg))
      = World.started w ++ [(Float64.max now (World.nextStartTime w), d)]
      ∧ World.nextStartTime (receive w (now, msg))
        = Float64.add (Float64.max now (World.nextStartTime w)) d.
Proof.
  unfold receive, onmessage. simpl.
  destruct (tools_keep_scheduler (LiveServerMessage.toolCall msg)) as [Hs Hn].
  unfold mbind, M_bind.
  destruct (LiveServerMessage.audioData msg) as [audioData|]; simpl.
  2:{ left. by rewrite Hs, Hn. }
  destruct (String.eqb audioData ""); simpl.
  { left. by rewrite Hs, Hn. }
  rewrite play_eq.
  destruct (Codec.base64ToFloat32Array audioData) as [float32Data|e];
    [|by left].
  destruct (bool_decide (length float32Data = 0%nat)); [by left|].
  right. exists (Scheduler.duration_of (length float32Data)).
  by rewrite Hs, Hn.
Qed.

(** A message whose audio decodes to samples schedules them, whatever tool
    calls it carries. *)
Lemma onmessage_plays now msg audioData float32Data w :
  LiveServerMessage.audioData msg = Some audioData →
  Codec.base64ToFloat32Array audioData = Normal float32Data →
  float32Data ≠ [] →
  World.started (onmessage now msg w).2
  = World.started w
    ++ [(Float64.max now (World.nextStartTime w),
         Scheduler.duration_of (length float32Data))]
  ∧ World.nextStartTime (onmessage now msg w).2
    = Float64.add (Float64.max now (World.nextStartTime w))
        (Scheduler.duration_of (length float32Data)).
Proof.
  intros Haudio Hdec Hne. unfold onmessage.
  destruct (tools_keep_scheduler (LiveServerMessage.toolCall msg)) as [Hs Hn].
  unfold mbind, M_bind. rewrite Haudio.
  destruct (String.eqb_spec audioData "") as [-> | _].
  { vm_compute in Hdec. by simplify_eq. }
  rewrite play_eq, Hdec.
  rewrite bool_decide_false by (by destruct float32Data).
  by rewrite Hs, Hn.
Qed.

Lemma receive_invariant w m : scheduler_invariant w → scheduler_invariant (receive w m).
Proof.
  destruct m as [now msg]. intros (Hsp & Hlast).
  unfold scheduler_invariant.
  destruct (receive_cases w now msg) as [[-> ->] | (d & -> & ->)]; [done|].
  split.
  - intros n s1 d1 s2 d2 H1 H2.
    destruct (decide (S n < length (World.started w))%nat) as [Hlt | Hge].
    + rewrite lookup_app_l in H1 by lia. rewrite lookup_app_l in H2 by lia.
      by eapply Hsp.
    + assert (Hn : S n = length (World.started w)).
      { apply lookup_lt_Some in H2. rewrite length_app in H2. simpl in H2. lia. }
      rewrite lookup_app_l in H1 by lia.
      rewrite Hn, list_lookup_middle in H2 by done. injection H2 as <- <-.
      assert (Hl : last (World.started w) = Some (s1, d1)).
      { rewrite last_lookup, <- Hn. exact H1. }
      specialize (Hlast _ _ Hl). unfold Float64.le in *.
      rewrite grid_max. lia.
  - intros s1 d1. rewrite last_snoc. intros [= <- <-]. unfold Float64.le. lia.
Qed.

Lemma session_invariant msgs w : scheduler_invariant w → scheduler_invariant (session msgs w).
Proof.
  unfold session. revert w.
  induction msgs as [|m msgs IH]; intros w Hw; simpl; [done|].
  by apply IH, receive_invariant.
Qed.

Lemma total_snoc ds d : total (ds ++ [d]) = total ds + Float64.grid d.
Proof.
  unfold total. induction ds as [|x ds IH]; simpl; [lia|]. rewrite IH. lia.
Qed.

(** Exact sums along a spaced log: the rounding of each sum costs at most
    2^-53 of the start that follows it. *)
Lemma spaced_cumulative starts :
  spaced starts →
  ∀ n s0 d0 sn dn,
    starts !! 0%nat = Some (s0, d0) → starts !! n = Some (sn, dn) →
    Float64.finite sn →
    2 ^ 53 * (Float64.grid s0 + total ((take n starts).*2) - Float64.grid sn)
    ≤ Z.of_nat n * Float64.grid sn.
Proof.
  intros Hsp n. induction n as [|n IH]; intros s0 d0 sn dn H0 Hn Hfin.
  - rewrite H0 in Hn. injection Hn as <- <-. rewrite take_0. simpl. lia.
  - destruct (starts !! n) as [[s d]|] eqn:Hprev.
    2:{ apply lookup_ge_None in Hprev. apply lookup_lt_Some in Hn. lia. }
    rewrite (take_S_r _ _ _ Hprev), fmap_app. simpl.
    rewrite total_snoc.
    specialize (Hsp _ _ _ _ _ Hprev Hn).
    pose proof (add_overrun s d sn Hsp Hfin) as Hover.
    destruct (add_ge s d) as [Hge _].
    destruct (grid_spec s) as [Hs _].
    assert (Hle : Float64.grid s ≤ Float64.grid sn)
      by (unfold Float64.le in *; lia).
    assert (Hfs : Float64.finite s) by (unfold Float64.finite in *; lia).
    specialize (IH _ _ _ _ H0 eq_refl Hfs).
    assert (Hmul : Z.of_nat n * Float64.grid s ≤ Z.of_nat n * Float64.grid sn)
      by (apply Z.mul_le_mono_nonneg_l; lia).
    change (2 ^ 53) with 9007199254740992 in *. lia.
Qed.

(** C1, as stated, fails: two chunks of three samples each arrive at
    device time 1.  The first is started at 1 and lasts the double nearest
    to 3/24000; the second is started at the double nearest to their sum,
    which is below the sum, by 639/2^63 s: the second segment starts
    before the first one has ended.  With a third such chunk the third
    start is below the first start plus the two durations before it, in
    exact arithmetic and also when the sum is taken in doubles. *)
Lemma playback_exact_non_overlap_fails :
  (∃ s d s' d',
     World.nextStartTime World.initial = Float64.zero
     ∧ World.started (session back_to_back World.initial) = [(s, d); (s', d')]
     ∧ s = Float64.ratio 1 1
     ∧ d = Scheduler.duration_of 3
     ∧ Float64.grid s' < Float64.grid s + Float64.grid d
     ∧ overrun s d s' * 2 ^ 63 = 639 * 2 ^ 1074)
  ∧ (∃ s1 d1 s2 d2 s3 d3,
       World.started (session three_back_to_back World.initial)
       = [(s1, d1); (s2, d2); (s3, d3)]
       ∧ Float64.grid s3 < Float64.grid s1 + total [d1; d2]
       ∧ ¬ Float64.le (Float64.add s1 (Float64.add d1 d2)) s3).
Proof.
  split.
  - eexists _, _, _, _. split; [reflexivity|].
    split; [vm_compute; reflexivity|].
    split; [apply grid_inj; vm_compute; reflexivity|].
    split; [apply grid_inj; vm_compute; reflexivity|].
    split; vm_compute; reflexivity.
  - eexists _, _, _, _, _, _. split; [vm_compute; reflexivity|].
    split; [vm_compute; reflexivity|].
    unfold Float64.le. vm_compute. intros H. by apply H.
Qed.

(** C1, amended: a message whose audio decodes to samples starts them at
    [max(currentTime, nextStartTime)] and moves [nextStartTime] to the
    double nearest to that start plus the duration.  Hence, for any run of
    inbound messages, no segment starts before the previous one has ended
    in the arithmetic of the code, the starts never go back, and in exact
    arithmetic a segment runs past the start of the next one by at most
    2^-53 of that start; the [n]-th start is below the first start plus
    the durations before it by at most [n] times 2^-53 of itself. *)
Theorem playback_non_overlap_rounded
    (msgs : list (Float64.t * LiveServerMessage.t)) (w0 : World.t) :
  World.started w0 = [] →
  (∀ now msg audioData float32Data w,
     LiveServerMessage.audioData msg = Some audioData →
     Codec.base64ToFloat32Array audioData = Normal float32Data →
     float32Data ≠ [] →
     World.started (onmessage now msg w).2
     = World.started w
       ++ [(Float64.max now (World.nextStartTime w),
            Scheduler.duration_of (length float32Data))]
     ∧ World.nextStartTime (onmessage now msg w).2
       = Float64.add (Float64.max now (World.nextStartTime w))
           (Scheduler.duration_of (length float32Data))
     ∧ Float64.grid (Float64.max now (World.nextStartTime w))
       = Z.max (Float64.grid now) (Float64.grid (World.nextStartTime w))
     ∧ (Float64.finite (World.nextStartTime (onmessage now msg w).2) →
        Float64.grid (World.nextStartTime (onmessage now msg w).2)
        = Float64.round
            (Float64.grid (Float64.max now (World.nextStartTime w))
             + Float64.grid (Scheduler.duration_of (length float32Data))) 1))
  ∧ (∀ n s d s' d',
       World.started (session msgs w0) !! n = Some (s, d) →
       World.started (session msgs w0) !! S n = Some (s', d') →
       Float64.le (Float64.add s d) s'
       ∧ Float64.le s s'
       ∧ (Float64.finite s' → 2 ^ 53 * overrun s d s' ≤ Float64.grid s'))
  ∧ (∀ n s0 d0 sn dn,
       World.started (session msgs w0) !! 0%nat = Some (s0, d0) →
       World.started (session msgs w0) !! n = Some (sn, dn) →
       Float64.finite sn →
       2 ^ 53
       * (Float64.grid s0
          + total ((take n (World.started (session msgs w0))).*2)
          - Float64.grid sn)
       ≤ Z.of_nat n * Float64.grid sn).
Proof.
  intros Hstarted.
  assert (Hinv : scheduler_invariant (session msgs w0)).
  { apply session_invariant. unfold scheduler_invariant.
    rewrite Hstarted. by split. }
  destruct Hinv as (Hsp & _).
  split_and!.
  - intros now msg audioData float32Data w Haudio Hdec Hne.
    destruct (onmessage_plays now msg audioData float32Data w Haudio Hdec Hne)
      as [Hs Hn].
    split_and!; [done|done|apply grid_max|].
    rewrite Hn. intros Hfin. by apply add_finite.
  - intros n s d s' d' H1 H2. specialize (Hsp _ _ _ _ _ H1 H2).
    split_and!; [done| |by apply add_overrun].
    destruct (add_ge s d) as [Hge _]. unfold Float64.le in *. lia.
  - intros n s0 d0 sn dn H0 Hn Hfin. by eapply spaced_cumulative.
Qed.

Lemma playback_non_overlap_rounded_witness :
  (∀ now msg audioData float32Data w,
     LiveServerMessage.audioData msg = Some audioData →
     Codec.base64ToFloat32Array audioData = Normal float32Data →
     float32Data ≠ [] →
     World.started (onmessage now msg w).2
     = World.started w
       ++ [(Float64.max now (World.nextStartTime w),
            Scheduler.duration_of (length float32Data))]
     ∧ World.nextStartTime (onmessage now msg w).2
       = Float64.add (Float64.max now (World.nextStartTime w))
           (Scheduler.duration_of (length float32Data))
     ∧ Float64.grid (Float64.max now (World.nextStartTime w))
       = Z.max (Float64.grid now) (Float64.grid (World.nextStartTime w))
     ∧ (Float64.finite (World.nextStartTime (onmessage now msg w).2) →
        Float64.grid (World.nextStartTime (onmessage now msg w).2)
        = Float64.round
            (Float64.grid (Float64.max now (World.nextStartTime w))
             + Float64.grid (Scheduler.duration_of (length float32Data))) 1))
  ∧ (∀ n s d s' d',
       World.started (session three_chunks World.initial) !! n = Some (s, d) →
       World.started (session three_chunks World.initial) !! S n = Some (s', d') →
       Float64.le (Float64.add s d) s'
       ∧ Float64.le s s'
       ∧ (Float64.finite s' → 2 ^ 53 * overrun s d s' ≤ Float64.grid s'))
  ∧ (∀ n s0 d0 sn dn,
       World.started (session three_chunks World.initial) !! 0%nat = Some (s0, d0) →
       World.started (session three_chunks World.initial) !! n = Some (sn, dn) →
       Float64.finite sn →
       2 ^ 53
       * (Float64.grid s0
          + total ((take n (World.started (session three_chunks World.initial))).*2)
          - Float64.grid sn)
       ≤ Z.of_nat n * Float64.grid sn).
Proof.
  apply (playback_non_overlap_rounded three_chunks World.initial); reflexivity.
Defined.

(** The log of that run: the second segment starts where, in the
    arithmetic of the code, the first one ends. *)
Example three_chunks_started :
  World.started (session three_chunks World.initial)
  = [ (Float64.ratio 5 1, Scheduler.duration_of 2);
      (Float64.add (Float64.ratio 5 1) (Scheduler.duration_of 2),
       Scheduler.duration_of 3) ].
Proof. vm_compute. reflexivity. Qed.

End Playback.

(** ** Starting a session *)

Section Start.

(** C9: when [getUserMedia] fails, [startLiveSession] ends with the error
    message for the microphone shown and with nothing else changed:
    [ai.live.connect] has not been called (so no callback of a connection
    can ever run), and [isLiveActive] is what it was, [false] for a
    session started from the idle page. *)
Theorem start_with_device_denied (env : Env.t) (e : JsExn) (w : World.t) :
  Env.getUserMedia env = Throw e →
  startLiveSession env w
  = (Normal (), World.set_liveError (Some "Microphone access denied.") w)
  ∧ World.connects (startLiveSession env w).2 = World.connects w
  ∧ World.isLiveActive (startLiveSession env w).2 = World.isLiveActive w
  ∧ World.liveError (startLiveSession env w).2 = Some "Microphone access denied.".
Proof.
  intros Hdenied.
  assert (H : startLiveSession env w
    = (Normal (), World.set_liveError (Some "Microphone access denied.") w)).
  { unfold startLiveSession, try_catch, lift, mbind, M_bind. simpl.
    by rewrite Hdenied. }
  by rewrite H.
Qed.

Lemma start_with_device_denied_witness :
  startLiveSession microphone_denied World.initial
  = (Normal (),
     World.set_liveError (Some "Microphone access denied.") World.initial)
  ∧ World.connects (startLiveSession microphone_denied World.initial).2
    = World.connects World.initial
  ∧ World.isLiveActive (startLiveSession microphone_denied World.initial).2
    = World.isLiveActive World.initial
  ∧ World.liveError (startLiveSession microphone_denied World.initial).2
    = Some "Microphone access denied.".
Proof.
  apply (start_with_device_denied microphone_denied
           (DOMException "NotAllowedError" "Permission denied") World.initial).
  reflexivity.
Defined.

(** With the microphone granted the connection is opened once. *)
Example start_granted :
  World.connects
    (startLiveSession (Env.mk (Normal ()) (Normal ()) (Normal ())) World.initial).2
  = 1%nat.
Proof. reflexivity. Qed.

End Start.

(** * Further properties of the code *)

(** ** The task store, operation by operation *)

Section StoreOperations.

Lemma filter_keeps_all {A} (P : A → Prop) `{∀ x, Decision (P x)} (l : list A) :
  Forall P l → filter P l = l.
Proof.
  induction 1 as [|x l Hx _ IH]; [done|].
  by rewrite filter_cons_True, IH.
Qed.

Lemma filter_drops_all {A} (P : A → Prop) `{∀ x, Decision (P x)} (l : list A) :
  Forall (λ x, ¬ P x) l → filter P l = [].
Proof.
  induction 1 as [|x l Hx _ IH]; [done|].
  by rewrite filter_cons_False.
Qed.

Lemma stored_set v w : stored (World.set_localStorage (Some v) w) = v.
Proof. done. Qed.

Lemma set_localStorage_twice v1 v2 w :
  World.set_localStorage v1 (World.set_localStorage v2 w)
  = World.set_localStorage v1 w.
Proof. done. Qed.

Lemma updateTask_eq id updates w :
  DjangoAPI.updateTask id updates w
  = match DjangoAPI.findIndex id (stored w) with
    | None => (Throw (Error "404 Not Found"), w)
    | Some (index, task) =>
        (Normal (spread task updates),
         World.set_localStorage
           (Some (<[index := spread task updates]> (stored w))) w)
    end.
Proof.
  unfold DjangoAPI.updateTask, DjangoAPI.getTasks, mbind, M_bind, get. simpl.
  fold (stored w). by destruct (DjangoAPI.findIndex id (stored w)) as [[]|].
Qed.

Lemma spread_id task updates :
  Patch.id updates = None → Task.id (spread task updates) = Task.id task.
Proof. unfold spread. simpl. by intros ->. Qed.

Lemma fmap_id_insert (tasks : list Task.t) index task updates :
  Patch.id updates = None →
  tasks !! index = Some task →
  Task.id <$> <[index := spread task updates]> tasks = Task.id <$> tasks.
Proof.
  intros Hid H. rewrite list_fmap_insert, spread_id by done.
  by apply list_insert_id, list_lookup_fmap_Some_2.
Qed.

(** [updateTask] with an id no stored task has: the [404] is thrown and
    the store is left as it was. *)
Theorem updateTask_missing (id : JsVal) (updates : Patch.t) (w : World.t) :
  (∀ t, t ∈ stored w → JNum (Task.id t) ≠ id) →
  DjangoAPI.updateTask id updates w = (Throw (Error "404 Not Found"), w).
Proof.
  intros Hnone. rewrite updateTask_eq.
  destruct (DjangoAPI.findIndex id (stored w)) as [[index task]|] eqn:Hfind;
    [|done].
  apply list_find_Some in Hfind as (Hlookup & Hid & _).
  exfalso. eapply Hnone; [|exact Hid]. by eapply list_elem_of_lookup_2.
Qed.

Lemma updateTask_missing_witness :
  DjangoAPI.updateTask (JStr "1") Patch.empty milk_world
  = (Throw (Error "404 Not Found"), milk_world).
Proof.
  apply (updateTask_missing (JStr "1") Patch.empty milk_world).
  intros t Ht. apply list_elem_of_singleton in Ht. by subst t.
Defined.

(** [updateTask] with the id of a stored task: of the tasks with that id
    the first one in the list is replaced by its merge with the updates,
    which is also what is returned; every other position and the length of
    the list are unchanged.  The merge takes a field from the updates when
    they carry it and from the stored task otherwise: updates without an
    [id] leave the ids of the list as they are, updates with one change
    the id of the task. *)
Theorem updateTask_in_place (n : Z) (updates : Patch.t) (w : World.t) :
  n ∈ Task.id <$> stored w →
  ∃ index task,
    stored w !! index = Some task
    ∧ Task.id task = n
    ∧ (∀ j t, stored w !! j = Some t → Task.id t = n → (index ≤ j)%nat)
    ∧ DjangoAPI.updateTask (JNum n) updates w
      = (Normal (spread task updates),
         World.set_localStorage
           (Some (<[index := spread task updates]> (stored w))) w)
    ∧ stored (DjangoAPI.updateTask (JNum n) updates w).2 !! index
      = Some (spread task updates)
    ∧ (∀ j, j ≠ index →
         stored (DjangoAPI.updateTask (JNum n) updates w).2 !! j = stored w !! j)
    ∧ length (stored (DjangoAPI.updateTask (JNum n) updates w).2)
      = length (stored w)
    ∧ (Patch.id updates = None →
       Task.id (spread task updates) = n
       ∧ Task.id <$> stored (DjangoAPI.updateTask (JNum n) updates w).2
         = Task.id <$> stored w)
    ∧ (∀ n', Patch.id updates = Some n' → Task.id (spread task updates) = n')
    ∧ (Patch.created_at updates = None →
       Task.created_at (spread task updates) = Task.created_at task)
    ∧ (∀ v, Patch.completed updates = Some v →
            Task.completed (spread task updates) = v)
    ∧ (Patch.completed updates = None →
       Task.completed (spread task updates) = Task.completed task).
Proof.
  intros Hin. rewrite updateTask_eq.
  destruct (DjangoAPI.findIndex (JNum n) (stored w)) as [[index task]|] eqn:Hfind.
  - apply list_find_Some in Hfind as (Hlookup & Hid & Hfirst).
    injection Hid as Hid.
    exists index, task. cbn [snd]. rewrite stored_set. split_and!; try done.
    + intros j t Hj Ht. destruct (decide (index ≤ j)%nat) as [|Hlt]; [done|].
      exfalso. apply (Hfirst j t Hj); [lia|]. by rewrite Ht.
    + apply list_lookup_insert_eq. by eapply lookup_lt_Some.
    + intros j Hj. by apply list_lookup_insert_ne.
    + apply length_insert.
    + intros Hnone. split; [by rewrite spread_id|]. by apply fmap_id_insert.
    + intros n' Hn'. unfold spread. simpl. by rewrite Hn'.
    + intros Hnone. unfold spread. simpl. by rewrite Hnone.
    + intros v Hv. unfold spread. simpl. by rewrite Hv.
    + intros Hnone. unfold spread. simpl. by rewrite Hnone.
  - exfalso. apply list_elem_of_fmap in Hin as (t & -> & Ht).
    apply list_find_None in Hfind. rewrite Forall_forall in Hfind.
    by apply (Hfind t Ht).
Qed.

Lemma updateTask_in_place_witness :
  ∃ index task,
    stored two_tasks !! index = Some task
    ∧ Task.id task = 1
    ∧ (∀ j t, stored two_tasks !! j = Some t → Task.id t = 1 → (index ≤ j)%nat)
    ∧ DjangoAPI.updateTask (JNum 1) completed_patch two_tasks
      = (Normal (spread task completed_patch),
         World.set_localStorage
           (Some (<[index := spread task completed_patch]> (stored two_tasks)))
           two_tasks)
    ∧ stored (DjangoAPI.updateTask (JNum 1) completed_patch two_tasks).2 !! index
      = Some (spread task completed_patch)
    ∧ (∀ j, j ≠ index →
         stored (DjangoAPI.updateTask (JNum 1) completed_patch two_tasks).2 !! j
         = stored two_tasks !! j)
    ∧ length (stored (DjangoAPI.updateTask (JNum 1) completed_patch two_tasks).2)
      = length (stored two_tasks)
    ∧ (Patch.id completed_patch = None →
       Task.id (spread task completed_patch) = 1
       ∧ Task.id <$> stored
           (DjangoAPI.updateTask (JNum 1) completed_patch two_tasks).2
         = Task.id <$> stored two_tasks)
    ∧ (∀ n', Patch.id completed_patch = Some n' →
             Task.id (spread task completed_patch) = n')
    ∧ (Patch.created_at completed_patch = None →
       Task.created_at (spread task completed_patch) = Task.created_at task)
    ∧ (∀ v, Patch.completed completed_patch = Some v →
            Task.completed (spread task completed_patch) = v)
    ∧ (Patch.completed completed_patch = None →
       Task.completed (spread task completed_patch) = Task.completed task).
Proof.
  apply (updateTask_in_place 1 completed_patch two_tasks).
  simpl. apply elem_of_cons. right. apply elem_of_cons. by left.
Defined.

(** On a store that holds an id twice only the first of the two tasks is
    updated. *)
Example updateTask_first_of_two :
  stored
    (DjangoAPI.updateTask (JNum 1) completed_patch
       (World.set_localStorage (Some [milk_task; mum_task; milk_task])
          World.initial)).2
  = [spread milk_task completed_patch; mum_task; milk_task].
Proof. reflexivity. Qed.

Lemma deleteCompletedTasks_eq w :
  DjangoAPI.deleteCompletedTasks w
  = (Normal
       (Z.of_nat (length (stored w))
        - Z.of_nat (length (filter (λ t, truthy (Task.completed t) = false)
                              (stored w)))),
     World.set_localStorage
       (Some (filter (λ t, truthy (Task.completed t) = false) (stored w))) w).
Proof. reflexivity. Qed.

Lemma length_filter_split (tasks : list Task.t) :
  length tasks
  = (length (filter (λ t, truthy (Task.completed t) = true) tasks)
     + length (filter (λ t, truthy (Task.completed t) = false) tasks))%nat.
Proof.
  induction tasks as [|t ts IH]; [done|].
  destruct (truthy (Task.completed t)) eqn:Hc.
  - rewrite filter_cons_True, filter_cons_False by congruence. simpl. lia.
  - rewrite filter_cons_False, filter_cons_True by congruence. simpl. lia.
Qed.

(** [deleteCompletedTasks] returns the number of completed tasks, the one
    the badges count; what it keeps is the open tasks in their order, and
    calling it again removes nothing and returns 0. *)
Theorem deleteCompletedTasks_count (w : World.t) :
  ∃ remaining,
    DjangoAPI.deleteCompletedTasks w
    = (Normal (Z.of_nat (Badges.completedCount (stored w))),
       World.set_localStorage (Some remaining) w)
    ∧ remaining `sublist_of` stored w
    ∧ (∀ t, t ∈ remaining ↔ t ∈ stored w ∧ truthy (Task.completed t) = false)
    ∧ Badges.completedCount remaining = 0%nat
    ∧ DjangoAPI.deleteCompletedTasks (World.set_localStorage (Some remaining) w)
      = (Normal 0, World.set_localStorage (Some remaining) w).
Proof.
  rewrite deleteCompletedTasks_eq. eexists. split_and!.
  - f_equal. f_equal. unfold Badges.completedCount.
    rewrite (length_filter_split (stored w)) at 1. lia.
  - apply sublist_filter.
  - intros t. rewrite list_elem_of_filter. tauto.
  - unfold Badges.completedCount. apply (f_equal length (y := [])).
    apply filter_drops_all, Forall_forall. intros t Ht.
    apply list_elem_of_filter in Ht as [Ht _]. congruence.
  - rewrite deleteCompletedTasks_eq, !stored_set, set_localStorage_twice.
    rewrite (filter_keeps_all _ (filter _ (stored w))).
    + do 2 f_equal. lia.
    + apply Forall_forall. intros t Ht.
      by apply list_elem_of_filter in Ht as [Ht _].
Qed.

Lemma createTask_id_above now data w i :
  safe_ids w →
  i ∈ Task.id <$> stored w →
  ∀ t w', DjangoAPI.createTask now data w = (Normal t, w') → i < Task.id t.
Proof.
  intros Hsafe Hi t w'. rewrite createTask_eq. cbv zeta.
  rewrite (nextId_exact w Hsafe). intros [= <- _]. simpl.
  destruct (stored w) as [|t0 ts] eqn:Hst; [by apply elem_of_nil in Hi|].
  rewrite bool_decide_true by (simpl; lia).
  destruct (Math_max_spec (Task.id <$> t0 :: ts)) as [_ Hle]; [done|].
  specialize (Hle i Hi). lia.
Qed.

(** On a store of safe integers, creating a task and deleting it again
    gives back the stored list as it was, so the next task that is created
    gets the id of the deleted one: ids are reused. *)
Theorem create_then_delete (now now' : string) (data data' : TaskData.t) (w : World.t) :
  safe_ids w →
  ∃ created w1 w2 again w3,
    DjangoAPI.createTask now data w = (Normal created, w1)
    ∧ DjangoAPI.deleteTask (JNum (Task.id created)) w1 = (Normal (), w2)
    ∧ stored w2 = stored w
    ∧ DjangoAPI.createTask now' data' w2 = (Normal again, w3)
    ∧ Task.id again = Task.id created.
Proof.
  intros Hsafe.
  destruct (DjangoAPI.createTask now data w) as [r w1] eqn:Hc.
  pose proof Hc as Hc'. rewrite createTask_eq in Hc'. cbv zeta in Hc'.
  destruct r as [created|e]; [|discriminate].
  assert (Hw1 : stored w1 = created :: stored w) by (by simplify_eq).
  assert (Hid : Task.id created
    = if bool_decide (0 < length (stored w))%nat
      then Float64.integer (DjangoAPI.Math_max (Task.id <$> stored w) + 1)
      else 1)
    by (by simplify_eq).
  assert (Hback : filter (λ t, JNum (Task.id t) ≠ JNum (Task.id created)) (stored w1)
                  = stored w).
  { rewrite Hw1, filter_cons_False by (by intros H; apply H).
    apply filter_keeps_all, Forall_forall. intros t Ht [= Heq].
    assert (Hlt : Task.id t < Task.id created).
    { eapply createTask_id_above; [done| |exact Hc]. by apply list_elem_of_fmap_2. }
    lia. }
  eexists created, w1, _, _, _. split; [done|].
  rewrite deleteTask_eq, Hback. split; [reflexivity|].
  split; [done|]. rewrite createTask_eq. cbv zeta.
  split; [reflexivity|]. simpl. by rewrite Hid.
Qed.

Lemma create_then_delete_witness :
  ∃ created w1 w2 again w3,
    DjangoAPI.createTask "2026-01-05T09:30:00.000Z"
      (TaskData.mk (JStr "Call mum") (JStr "") (JStr "High") (JBool false)
         (JStr "") JUndefined None) milk_world
    = (Normal created, w1)
    ∧ DjangoAPI.deleteTask (JNum (Task.id created)) w1 = (Normal (), w2)
    ∧ stored w2 = stored milk_world
    ∧ DjangoAPI.createTask "2026-01-05T09:45:00.000Z"
        (TaskData.mk (JStr "Water plants") (JStr "") (JStr "Low") (JBool false)
           (JStr "") JUndefined None) w2
      = (Normal again, w3)
    ∧ Task.id again = Task.id created.
Proof.
  apply (create_then_delete "2026-01-05T09:30:00.000Z" "2026-01-05T09:45:00.000Z"
           (TaskData.mk (JStr "Call mum") (JStr "") (JStr "High") (JBool false)
              (JStr "") JUndefined None)
           (TaskData.mk (JStr "Water plants") (JStr "") (JStr "Low") (JBool false)
              (JStr "") JUndefined None) milk_world).
  apply Forall_cons_2; [by vm_compute|apply Forall_nil_2].
Defined.

(** Beyond the safe integers the list is not restored: on the store whose
    only id is 2^53 the created task gets that id too, and deleting it
    deletes both. *)
Example create_then_delete_loses_a_task :
  ∃ created w1 w2,
    DjangoAPI.createTask "2026-01-05T09:30:00.000Z"
      (TaskData.mk (JStr "Call mum") (JStr "") (JStr "High") (JBool false)
         (JStr "") JUndefined None) last_exact_world
    = (Normal created, w1)
    ∧ DjangoAPI.deleteTask (JNum (Task.id created)) w1 = (Normal (), w2)
    ∧ stored last_exact_world = [last_exact_task]
    ∧ stored w2 = [].
Proof.
  eexists _, _, _. split; [vm_compute; reflexivity|].
  split; [vm_compute; reflexivity|]. by split.
Qed.

End StoreOperations.

(** ** The list on screen and the stored list *)

Section Sync.

Lemma map_at_id (tasks : list Task.t) index task (f : Task.t → Task.t) :
  NoDup (Task.id <$> tasks) →
  tasks !! index = Some task →
  (λ t, if decide (Task.id t = Task.id task) then f t else t) <$> tasks
  = <[index := f task]> tasks.
Proof.
  intros Hnodup Hlookup. apply list_eq. intros j.
  rewrite list_lookup_fmap.
  destruct (decide (j = index)) as [-> | Hne].
  - rewrite list_lookup_insert_eq by (by eapply lookup_lt_Some).
    rewrite Hlookup. simpl. by rewrite decide_True.
  - rewrite list_lookup_insert_ne by done.
    destruct (tasks !! j) as [t|] eqn:Hj; [|done]. simpl.
    rewrite decide_False; [done|]. intros Heq. apply Hne.
    eapply NoDup_lookup; [exact Hnodup| |];
      rewrite list_lookup_fmap; [by rewrite Hj | by rewrite Hlookup, Heq].
Qed.

Lemma map_no_id (tasks : list Task.t) n (f : Task.t → Task.t) :
  n ∉ Task.id <$> tasks →
  (λ t, if decide (Task.id t = n) then f t else t) <$> tasks = tasks.
Proof.
  intros Hnotin. rewrite <- (list_fmap_id tasks) at 2.
  apply list_fmap_ext. intros i t Ht. rewrite decide_False; [done|].
  intros <-. apply Hnotin. apply list_elem_of_fmap_2.
  by eapply list_elem_of_lookup_2.
Qed.

Lemma findIndex_None n tasks :
  DjangoAPI.findIndex (JNum n) tasks = None ↔ n ∉ Task.id <$> tasks.
Proof.
  unfold DjangoAPI.findIndex. rewrite list_find_None, Forall_forall. split.
  - intros H Hin. apply list_elem_of_fmap in Hin as (t & -> & Ht).
    by apply (H t Ht).
  - intros H t Ht [= Heq]. apply H. rewrite <- Heq. by apply list_elem_of_fmap_2.
Qed.

Lemma findIndex_Some n tasks index task :
  DjangoAPI.findIndex (JNum n) tasks = Some (index, task) →
  tasks !! index = Some task ∧ Task.id task = n.
Proof.
  unfold DjangoAPI.findIndex. intros H.
  apply list_find_Some in H as (? & [= ?] & _). done.
Qed.

Lemma NoDup_filter_ids (P : Task.t → Prop) `{∀ t, Decision (P t)} tasks :
  NoDup (Task.id <$> tasks) → NoDup (Task.id <$> filter P tasks).
Proof.
  intros Hnodup. eapply sublist_NoDup; [exact Hnodup|].
  apply fmap_sublist, sublist_filter.
Qed.

Lemma loadTasks_eq w : loadTasks w = (Normal (), World.set_tasks (stored w) w).
Proof. reflexivity. Qed.

Lemma room_safe c w : room c w → safe_ids w.
Proof.
  intros (_ & _ & H). apply Forall_forall. intros i Hi. by apply H.
Qed.

Lemma room_intro c w :
  0 ≤ c < 2 ^ 53 →
  NoDup (Task.id <$> stored w) →
  (∀ i, i ∈ Task.id <$> stored w → Float64.isSafeInteger i ∧ i + c < 2 ^ 53) →
  room c w.
Proof. done. Qed.

Lemma room_weaken c c' w : 0 ≤ c' ≤ c → room c w → room c' w.
Proof.
  intros Hle (Hc & Hn & H). apply room_intro; [lia|done|].
  intros i Hi. destruct (H i Hi). split; [done|lia].
Qed.

(** Room is kept when ids are only taken away. *)
Lemma room_sublist c w w' :
  (Task.id <$> stored w') `sublist_of` (Task.id <$> stored w) →
  room c w → room c w'.
Proof.
  intros Hsub (Hc & Hn & H). apply room_intro; [done|by eapply sublist_NoDup|].
  intros i Hi. apply H. by eapply elem_of_sublist.
Qed.

Lemma room_ids c w w' :
  Task.id <$> stored w' = Task.id <$> stored w → room c w → room c w'.
Proof. intros Heq. apply room_sublist. by rewrite Heq. Qed.

Lemma createTask_NoDup now data w :
  NoDup (Task.id <$> stored w) →
  safe_ids w →
  ∀ t w', DjangoAPI.createTask now data w = (Normal t, w') →
    stored w' = t :: stored w ∧ NoDup (Task.id <$> t :: stored w).
Proof.
  intros Hnodup Hsafe t w' Hc. split.
  - rewrite createTask_eq in Hc. cbv zeta in Hc. by simplify_eq.
  - apply NoDup_cons. split; [|done]. intros Hin.
    pose proof (createTask_id_above now data w _ Hsafe Hin t w' Hc). lia.
Qed.

Lemma createTask_safe now data : store_safe 1 (DjangoAPI.createTask now data).
Proof.
  intros c w Hc Hroom. pose proof (room_safe _ _ Hroom) as Hsafe.
  destruct Hroom as (Hb & Hn & Hids).
  rewrite createTask_eq. cbv zeta. rewrite (nextId_exact w Hsafe).
  cbn [fst snd]. split_and!; [|done|done].
  assert (Hnew :
    Float64.isSafeInteger
      (if bool_decide (0 < length (stored w))%nat
       then DjangoAPI.Math_max (Task.id <$> stored w) + 1 else 1)
    ∧ (if bool_decide (0 < length (stored w))%nat
       then DjangoAPI.Math_max (Task.id <$> stored w) + 1 else 1) + c < 2 ^ 53
    ∧ ∀ i, i ∈ Task.id <$> stored w →
        i < (if bool_decide (0 < length (stored w))%nat
             then DjangoAPI.Math_max (Task.id <$> stored w) + 1 else 1)).
  { unfold Float64.isSafeInteger in *.
    destruct (stored w) as [|t ts] eqn:Hst.
    - rewrite bool_decide_false by (simpl; lia).
      change (2 ^ 53) with 9007199254740992 in *. split_and!; [lia|lia|].
      intros i Hi. by apply elem_of_nil in Hi.
    - rewrite bool_decide_true by (simpl; lia).
      destruct (Math_max_spec (Task.id <$> t :: ts)) as [Hin Hle]; [done|].
      destruct (Hids _ Hin) as [Hs Hr].
      change (2 ^ 53) with 9007199254740992 in *. split_and!; [lia|lia|].
      intros i Hi. specialize (Hle i Hi). lia. }
  destruct Hnew as (Hs & Hr & Hlt).
  apply room_intro; rewrite ?stored_set, ?fmap_cons; cbn [Task.id].
  - lia.
  - apply NoDup_cons. split; [|done]. intros Hin. apply Hlt in Hin. lia.
  - intros i Hi. apply elem_of_cons in Hi as [-> | Hi]; [done|].
    destruct (Hids i Hi). split; [done|lia].
Qed.

Lemma updateTask_safe id updates :
  Patch.id updates = None → store_safe 0 (DjangoAPI.updateTask id updates).
Proof.
  intros Hid c w Hc Hroom. rewrite Z.add_0_r in Hroom. rewrite updateTask_eq.
  destruct (DjangoAPI.findIndex id (stored w)) as [[index task]|] eqn:Hfind;
    [|done].
  apply list_find_Some in Hfind as (Hlookup & _ & _). cbn [fst snd].
  split_and!; [|done|done].
  eapply room_ids; [|exact Hroom]. rewrite stored_set. by apply fmap_id_insert.
Qed.

Lemma deleteTask_safe id : store_safe 0 (DjangoAPI.deleteTask id).
Proof.
  intros c w Hc Hroom. rewrite Z.add_0_r in Hroom. rewrite deleteTask_eq.
  cbn [fst snd]. split_and!; [|done|done].
  eapply room_sublist; [|exact Hroom]. rewrite stored_set.
  apply fmap_sublist, sublist_filter.
Qed.

Lemma deleteCompletedTasks_safe : store_safe 0 DjangoAPI.deleteCompletedTasks.
Proof.
  intros c w Hc Hroom. rewrite Z.add_0_r in Hroom.
  rewrite deleteCompletedTasks_eq. cbn [fst snd]. split_and!; [|done|done].
  eapply room_sublist; [|exact Hroom]. rewrite stored_set.
  apply fmap_sublist, sublist_filter.
Qed.

Lemma then_loadTasks {A B} (m : M A) (r : A → B) w :
  (m ≫= λ a, loadTasks ≫= λ _, mret (r a)) w
  = match m w with
    | (Normal a, w') => (Normal (r a), World.set_tasks (stored w') w')
    | (Throw e, w') => (Throw e, w')
    end.
Proof. unfold mbind, M_bind. by destruct (m w) as [[a|e] w']. Qed.

Lemma synced_after_load {A B} (m : M A) (r : A → B) w cost c :
  store_safe cost m → 0 ≤ c → synced (c + cost) w →
  synced c ((m ≫= λ a, loadTasks ≫= λ _, mret (r a)) w).2.
Proof.
  intros Hm Hc [Ht Hroom]. rewrite then_loadTasks.
  destruct (Hm c w Hc Hroom) as (Hroom' & Ht' & Hthrow).
  destruct (m w) as [[a|e] w']; simpl in *.
  - by split.
  - split; [|done]. by rewrite (Hthrow e eq_refl).
Qed.

Lemma synced_weaken c c' w : 0 ≤ c' ≤ c → synced c w → synced c' w.
Proof. intros Hle [Ht Hroom]. split; [done|]. by eapply room_weaken. Qed.

Lemma synced_in_sync c w : synced c w → in_sync w.
Proof. intros (Ht & _ & Hn & _). by split. Qed.

Lemma creating_cons now fc rest :
  creating ((now, fc) :: rest)
  = (if decide (FunctionCall.name fc = "create_task") then 1 else 0)
    + creating rest.
Proof.
  unfold creating.
  destruct (decide (FunctionCall.name fc = "create_task")) as [H|H].
  - rewrite filter_cons_True by done. simpl length. lia.
  - rewrite filter_cons_False by done. lia.
Qed.

Lemma creating_nonneg calls : 0 ≤ creating calls.
Proof. unfold creating. lia. Qed.

Lemma switch_synced now fc w c :
  0 ≤ c →
  synced (c + (if decide (FunctionCall.name fc = "create_task") then 1 else 0)) w →
  synced c (Dispatcher.switch now fc w).2.
Proof.
  intros Hc Hw. unfold Dispatcher.switch, Dispatcher.prop.
  destruct (decide (FunctionCall.name fc = "create_task")) as [Hn | Hn].
  - destruct (FunctionCall.args fc) as [o|].
    + by apply (synced_after_load _ _ w 1 c (createTask_safe _ _)).
    + eapply synced_weaken; [|exact Hw]. lia.
  - rewrite Z.add_0_r in Hw.
    repeat case_decide; destruct (FunctionCall.args fc) as [o|];
      try exact Hw;
      first [ apply (synced_after_load (DjangoAPI.updateTask _ _)
                       (λ _, ResSuccess) w 0 c);
              [by apply updateTask_safe|done|by rewrite Z.add_0_r]
            | apply (synced_after_load (DjangoAPI.deleteTask _)
                       (λ _, ResSuccess) w 0 c);
              [apply deleteTask_safe|done|by rewrite Z.add_0_r]
            | apply (synced_after_load DjangoAPI.deleteCompletedTasks
                       ResCount w 0 c);
              [apply deleteCompletedTasks_safe|done|by rewrite Z.add_0_r] ].
Qed.

Lemma outcome_synced now fc w c :
  0 ≤ c →
  synced (c + (if decide (FunctionCall.name fc = "create_task") then 1 else 0)) w →
  synced c (outcome now fc w).2.
Proof.
  intros Hc Hw. pose proof (switch_synced now fc w c Hc Hw) as H. unfold outcome.
  by destruct (Dispatcher.switch now fc w) as [[r|e] w'].
Qed.

Lemma synced_set_sent c s w : synced c w → synced c (World.set_sent s w).
Proof. done. Qed.

Lemma responses_synced calls w c :
  0 ≤ c → synced (c + creating calls) w → synced c (responses calls w).2.
Proof.
  revert w. induction calls as [|[now fc] rest IH]; intros w Hc Hw; simpl.
  { by rewrite Z.add_0_r in Hw. }
  rewrite creating_cons in Hw. pose proof (creating_nonneg rest) as Hrest.
  pose proof (outcome_synced now fc w (c + creating rest) ltac:(lia)) as H1.
  rewrite <- Z.add_assoc, (Z.add_comm (creating rest)) in H1.
  specialize (H1 Hw).
  destruct (outcome now fc w) as [r w1]. specialize (IH w1 Hc H1).
  by destruct (responses rest w1) as [rs w2].
Qed.

Lemma dispatch_synced calls w c :
  0 ≤ c → synced (c + creating calls) w →
  synced c (Dispatcher.dispatch calls w).2.
Proof.
  intros Hc Hw. rewrite dispatch_responses. simpl.
  by apply synced_set_sent, responses_synced.
Qed.

Lemma handleToggle_eq now id current w :
  handleToggle now id current w
  = let updates :=
      Patch.mk None None None None (Some (JBool (negb current))) None None
        (Some (if negb current then JStr now else JUndefined)) None in
    let w1 :=
      World.set_tasks
        ((λ t, if decide (Task.id t = id) then spread t updates else t)
           <$> World.tasks w) w in
    match DjangoAPI.updateTask (JNum id) updates w1 with
    | (Normal _, w2) => (Normal (), w2)
    | (Throw e, w2) => (Throw e, w2)
    end.
Proof.
  unfold handleToggle, mbind, M_bind, modify. simpl.
  by destruct (DjangoAPI.updateTask _ _ _) as [[?|?] ?].
Qed.

Lemma handleToggle_synced now id current w c :
  synced c w → synced c (handleToggle now id current w).2.
Proof.
  intros [Ht Hroom]. pose proof Hroom as (_ & Hn & _).
  rewrite handleToggle_eq. cbv zeta. rewrite updateTask_eq.
  change (stored (World.set_tasks ?l w)) with (stored w).
  destruct (DjangoAPI.findIndex (JNum id) (stored w)) as [[index task]|] eqn:Hfind.
  - apply findIndex_Some in Hfind as [Hlookup <-]. cbn [fst snd].
    split.
    + cbn [World.tasks World.set_localStorage World.set_tasks].
      rewrite stored_set. by rewrite Ht, (map_at_id _ index task).
    + eapply room_ids; [|exact Hroom]. rewrite stored_set.
      by apply fmap_id_insert.
  - apply findIndex_None in Hfind. cbn [fst snd]. split.
    + cbn [World.tasks World.set_tasks]. by rewrite Ht, map_no_id.
    + done.
Qed.

Lemma handleSave_synced editingTask now data w c :
  0 ≤ c →
  synced (c + creations (Save editingTask now data)) w →
  synced c (handleSave editingTask now data w).2.
Proof.
  intros Hc [Ht Hroom]. unfold handleSave, mbind, M_bind, modify.
  destruct editingTask as [editing|]; simpl creations in Hroom.
  - rewrite Z.add_0_r in Hroom. pose proof Hroom as (_ & Hn & _).
    rewrite updateTask_eq.
    destruct (DjangoAPI.findIndex _ (stored w)) as [[index task]|] eqn:Hfind;
      [|by split].
    apply findIndex_Some in Hfind as [Hlookup Hid]. cbn [fst snd].
    split.
    + cbn [World.tasks World.set_localStorage World.set_tasks].
      rewrite spread_id, Ht by done.
      rewrite (map_at_id _ index task (λ _, spread task _)) by done.
      unfold stored. simpl. done.
    + eapply room_ids; [|exact Hroom].
      unfold stored at 1. simpl. fold (stored w). by apply fmap_id_insert.
  - destruct (createTask_safe now
               (TaskData.mk (JStr (FormData.title data))
                  (JStr (FormData.description data))
                  (JStr (FormData.priority data)) (JBool false)
                  (JStr (FormData.due_date data)) JUndefined
                  (Some (FormData.subtasks data))) c w Hc Hroom)
      as (Hroom' & Htasks & _).
    destruct (DjangoAPI.createTask now _ w) as [r w'] eqn:Hc'.
    pose proof Hc' as Hc''. rewrite createTask_eq in Hc''. cbv zeta in Hc''.
    destruct r as [t|e]; [|discriminate].
    assert (Hst : stored w' = t :: stored w) by (by simplify_eq).
    simpl in *. split; [|done].
    change (t :: World.tasks w' = stored w'). by rewrite Htasks, Ht, Hst.
Qed.

Lemma handleDelete_eq id w :
  handleDelete id w
  = (Normal (),
     World.set_localStorage
       (Some (filter (λ t, JNum (Task.id t) ≠ JNum id) (stored w)))
       (World.set_tasks (filter (λ t, Task.id t ≠ id) (World.tasks w)) w)).
Proof. reflexivity. Qed.

Lemma filter_by_number id (tasks : list Task.t) :
  filter (λ t, JNum (Task.id t) ≠ JNum id) tasks
  = filter (λ t, Task.id t ≠ id) tasks.
Proof. apply list_filter_iff. intros t. split; intros H Heq; apply H; congruence. Qed.

Lemma handleDelete_synced id w c : synced c w → synced c (handleDelete id w).2.
Proof.
  intros [Ht Hroom]. rewrite handleDelete_eq. cbn [fst snd]. split.
  - simpl. rewrite stored_set, filter_by_number. by rewrite Ht.
  - eapply room_sublist; [|exact Hroom]. rewrite stored_set.
    apply fmap_sublist, sublist_filter.
Qed.

Lemma handleClearCompleted_synced confirmed w c :
  0 ≤ c → synced c w → synced c (handleClearCompleted confirmed w).2.
Proof.
  intros Hc Hw. destruct confirmed; [|done]. unfold handleClearCompleted. simpl.
  destruct Hw as [Ht Hroom].
  destruct (deleteCompletedTasks_safe c w Hc) as (Hroom' & _ & _).
  { by rewrite Z.add_0_r. }
  revert Hroom'. unfold mbind, M_bind. rewrite deleteCompletedTasks_eq. simpl.
  by split.
Qed.

Lemma handleClearData_synced w c : 0 ≤ c < 2 ^ 53 → synced c (handleClearData w).2.
Proof.
  intros Hc. split; [done|]. apply room_intro; [done|apply NoDup_nil_2|].
  intros i Hi. by apply elem_of_nil in Hi.
Qed.

Lemma onmessage_synced currentTime msg w c :
  0 ≤ c →
  synced (c + creating (default [] (LiveServerMessage.toolCall msg))) w →
  synced c (onmessage currentTime msg w).2.
Proof.
  intros Hc Hw. unfold onmessage, mbind, M_bind.
  pose proof (creating_nonneg (default [] (LiveServerMessage.toolCall msg))).
  set (audio := match LiveServerMessage.audioData msg with
                | Some audioData =>
                    if String.eqb audioData "" then mret ()
                    else play currentTime audioData
                | None => mret ()
                end).
  assert (Ha : synced (c + creating (default [] (LiveServerMessage.toolCall msg)))
                 (audio w).2).
  { unfold audio. destruct (LiveServerMessage.audioData msg) as [a|]; [|done].
    destruct (String.eqb a ""); [done|]. rewrite play_eq.
    destruct (Codec.base64ToFloat32Array a) as [f|e]; [|done].
    by destruct (bool_decide (length f = 0%nat)). }
  destruct (audio w) as [[[]|e] w1]; simpl in Ha.
  2:{ eapply synced_weaken; [|exact Ha]. lia. }
  destruct (LiveServerMessage.toolCall msg) as [calls|]; simpl in *.
  - by apply dispatch_synced.
  - by rewrite Z.add_0_r in Ha.
Qed.

Lemma perform_synced a w c :
  0 ≤ c → synced (c + creations a) w → synced c (perform w a).
Proof.
  intros Hc Hw. destruct a; simpl in *; rewrite ?Z.add_0_r in Hw.
  - split; [done|apply Hw].
  - by apply handleToggle_synced.
  - by apply handleDelete_synced.
  - by apply handleSave_synced.
  - by apply handleClearCompleted_synced.
  - apply handleClearData_synced. destruct Hw as (_ & Hb & _). lia.
  - by apply onmessage_synced.
Qed.

Lemma creations_nonneg a : 0 ≤ creations a.
Proof.
  destruct a as [| | |[e|]| | |]; simpl; try lia. apply creating_nonneg.
Qed.

Lemma budget_nonneg actions : 0 ≤ budget actions.
Proof.
  induction actions as [|a actions IH]; simpl; [lia|].
  pose proof (creations_nonneg a). lia.
Qed.

Lemma run_synced actions w c :
  0 ≤ c → synced (c + budget actions) w → synced c (foldl perform w actions).
Proof.
  revert w. induction actions as [|a actions IH]; intros w Hc Hw; simpl in *.
  { by rewrite Z.add_0_r in Hw. }
  apply IH; [done|]. pose proof (budget_nonneg actions).
  apply perform_synced; [lia|].
  by rewrite <- Z.add_assoc, (Z.add_comm (budget actions)).
Qed.

(** From a store whose ids are pairwise distinct safe integers, with room
    for the tasks that the actions create, once the page has loaded the
    list on screen equals the stored list and the ids stay pairwise
    distinct safe integers after every sequence of check-box, delete,
    save, clear and reset actions and inbound voice messages. *)
Theorem screen_follows_store (actions : list Action) (w : World.t) :
  room (budget actions) w →
  in_sync (foldl perform w (Load :: actions))
  ∧ safe_ids (foldl perform w (Load :: actions)).
Proof.
  intros Hroom. simpl.
  assert (H : synced 0 (foldl perform (loadTasks w).2 actions)).
  { apply run_synced; [done|]. rewrite Z.add_0_l. by split. }
  split; [by eapply synced_in_sync|]. eapply room_safe, H.
Qed.

Lemma screen_follows_store_witness :
  in_sync
    (foldl perform milk_world
       (Load
        :: [ Message Float64.zero
               (LiveServerMessage.mk None
                  (Some [("2026-01-05T10:00:00.000Z", buy_milk)]));
             Toggle "2026-01-05T10:05:00.000Z" 2 false;
             Delete 1;
             ClearCompleted true ]))
  ∧ safe_ids
      (foldl perform milk_world
         (Load
          :: [ Message Float64.zero
                 (LiveServerMessage.mk None
                    (Some [("2026-01-05T10:00:00.000Z", buy_milk)]));
               Toggle "2026-01-05T10:05:00.000Z" 2 false;
               Delete 1;
               ClearCompleted true ])).
Proof.
  apply (screen_follows_store
           [ Message Float64.zero
               (LiveServerMessage.mk None
                  (Some [("2026-01-05T10:00:00.000Z", buy_milk)]));
             Toggle "2026-01-05T10:05:00.000Z" 2 false;
             Delete 1;
             ClearCompleted true ] milk_world).
  apply room_intro; [by vm_compute|apply NoDup_singleton|].
  intros i Hi. apply list_elem_of_singleton in Hi. subst i.
  split; by vm_compute.
Defined.

(** Beyond the safe integers screen and store part: on the store whose
    only id is 2^53 the form saved as a new task gets that id too, and a
    tick on it changes both tasks on screen and one in the store. *)
Example screen_leaves_store :
  let w := foldl perform last_exact_world
             [ Load;
               Save None "2026-01-05T10:00:00.000Z" sample_form;
               Toggle "2026-01-05T10:05:00.000Z" (2 ^ 53) false ] in
  Task.id <$> stored w = [2 ^ 53; 2 ^ 53]
  ∧ Task.completed <$> World.tasks w = [JBool true; JBool true]
  ∧ Task.completed <$> stored w = [JBool true; JBool false].
Proof. vm_compute. done. Qed.

End Sync.

(** ** The handlers of the task list *)

Section Handlers.

(** Ticking or unticking a task that is stored: the handler ends normally,
    the task gets the opposite completion flag, the completion time is the
    current time when it becomes completed and is removed when it becomes
    open again, every other field stays, and screen and store hold the
    same list afterwards. *)
Theorem handleToggle_stamps (now : string) (n : Z) (current : bool) (w : World.t) :
  in_sync w →
  n ∈ Task.id <$> stored w →
  ∃ index task toggled,
    stored w !! index = Some task
    ∧ Task.id task = n
    ∧ (handleToggle now n current w).1 = Normal ()
    ∧ stored (handleToggle now n current w).2 = <[index := toggled]> (stored w)
    ∧ World.tasks (handleToggle now n current w).2
      = <[index := toggled]> (stored w)
    ∧ Task.completed toggled = JBool (negb current)
    ∧ Task.completed_at toggled = (if current then JUndefined else JStr now)
    ∧ kept_by_toggle toggled = kept_by_toggle task.
Proof.
  intros [Ht Hn] Hin. rewrite handleToggle_eq. cbv zeta. rewrite updateTask_eq.
  change (stored (World.set_tasks ?l w)) with (stored w).
  destruct (DjangoAPI.findIndex (JNum n) (stored w)) as [[index task]|] eqn:Hfind.
  - apply findIndex_Some in Hfind as [Hlookup <-].
    eexists index, task, _. split_and!; try done.
    + simpl. by rewrite Ht, (map_at_id _ index task).
    + simpl. by destruct current.
  - by apply findIndex_None in Hfind.
Qed.

Lemma handleToggle_stamps_witness :
  ∃ index task toggled,
    stored two_tasks !! index = Some task
    ∧ Task.id task = 1
    ∧ (handleToggle "2026-01-05T10:00:00.000Z" 1 false two_tasks).1 = Normal ()
    ∧ stored (handleToggle "2026-01-05T10:00:00.000Z" 1 false two_tasks).2
      = <[index := toggled]> (stored two_tasks)
    ∧ World.tasks (handleToggle "2026-01-05T10:00:00.000Z" 1 false two_tasks).2
      = <[index := toggled]> (stored two_tasks)
    ∧ Task.completed toggled = JBool (negb false)
    ∧ Task.completed_at toggled
      = (if false then JUndefined else JStr "2026-01-05T10:00:00.000Z")
    ∧ kept_by_toggle toggled = kept_by_toggle task.
Proof.
  apply (handleToggle_stamps "2026-01-05T10:00:00.000Z" 1 false two_tasks).
  - split; [reflexivity|]. simpl. apply NoDup_cons. split.
    + intros H. apply list_elem_of_singleton in H. discriminate.
    + apply NoDup_singleton.
  - simpl. apply elem_of_cons. right. apply elem_of_cons. by left.
Defined.

(** Saving the form for a task that is stored: the stored task takes title,
    description, priority, due date and sub-tasks from the form and keeps
    its id, completion flag, creation time and completion time, whatever
    the [editingTask] object held; screen and store agree afterwards. *)
Theorem handleSave_edit (editing : Task.t) (now : string) (data : FormData.t) (w : World.t) :
  in_sync w →
  Task.id editing ∈ Task.id <$> stored w →
  ∃ index task saved,
    stored w !! index = Some task
    ∧ Task.id task = Task.id editing
    ∧ (handleSave (Some editing) now data w).1 = Normal ()
    ∧ stored (handleSave (Some editing) now data w).2
      = <[index := saved]> (stored w)
    ∧ World.tasks (handleSave (Some editing) now data w).2
      = <[index := saved]> (stored w)
    ∧ kept_by_form saved = kept_by_form task
    ∧ (Task.title saved, Task.description saved, Task.priority saved,
       Task.due_date saved, Task.subtasks saved)
      = (JStr (FormData.title data), JStr (FormData.description data),
         JStr (FormData.priority data), JStr (FormData.due_date data),
         Some (FormData.subtasks data)).
Proof.
  intros [Ht Hn] Hin. unfold handleSave, mbind, M_bind, modify.
  rewrite updateTask_eq.
  destruct (DjangoAPI.findIndex _ (stored w)) as [[index task]|] eqn:Hfind.
  - apply findIndex_Some in Hfind as [Hlookup Hid].
    eexists index, task, _. split_and!; try done.
    simpl. by rewrite Ht, (map_at_id _ index task (λ _, spread task _)).
  - by apply findIndex_None in Hfind.
Qed.

Lemma handleSave_edit_witness :
  ∃ index task saved,
    stored two_tasks !! index = Some task
    ∧ Task.id task = Task.id milk_task
    ∧ (handleSave (Some milk_task) "2026-01-05T11:00:00.000Z" sample_form
         two_tasks).1 = Normal ()
    ∧ stored (handleSave (Some milk_task) "2026-01-05T11:00:00.000Z"
                sample_form two_tasks).2
      = <[index := saved]> (stored two_tasks)
    ∧ World.tasks (handleSave (Some milk_task) "2026-01-05T11:00:00.000Z"
                     sample_form two_tasks).2
      = <[index := saved]> (stored two_tasks)
    ∧ kept_by_form saved = kept_by_form task
    ∧ (Task.title saved, Task.description saved, Task.priority saved,
       Task.due_date saved, Task.subtasks saved)
      = (JStr (FormData.title sample_form),
         JStr (FormData.description sample_form),
         JStr (FormData.priority sample_form),
         JStr (FormData.due_date sample_form),
         Some (FormData.subtasks sample_form)).
Proof.
  apply (handleSave_edit milk_task "2026-01-05T11:00:00.000Z" sample_form
           two_tasks).
  - split; [reflexivity|]. simpl. apply NoDup_cons. split.
    + intros H. apply list_elem_of_singleton in H. discriminate.
    + apply NoDup_singleton.
  - simpl. apply elem_of_cons. right. apply elem_of_cons. by left.
Defined.

(** Saving the form for a task that is no longer stored (deleted by voice
    while the form was open, say): the [404] of the store leaves the
    handler and neither the store nor the screen changes. *)
Theorem handleSave_deleted (editing : Task.t) (now : string) (data : FormData.t) (w : World.t) :
  Task.id editing ∉ Task.id <$> stored w →
  handleSave (Some editing) now data w = (Throw (Error "404 Not Found"), w).
Proof.
  intros Hnotin. unfold handleSave, mbind, M_bind. rewrite updateTask_eq.
  by rewrite (proj2 (findIndex_None _ _) Hnotin).
Qed.

Lemma handleSave_deleted_witness :
  handleSave (Some mum_task) "2026-01-05T11:00:00.000Z" sample_form milk_world
  = (Throw (Error "404 Not Found"), milk_world).
Proof.
  apply (handleSave_deleted mum_task "2026-01-05T11:00:00.000Z" sample_form
           milk_world).
  simpl. intros H. apply list_elem_of_singleton in H. discriminate.
Defined.

Lemma onTime_completed dateLe t :
  Badges.onTime dateLe t = true → truthy (Task.completed t) = true.
Proof. unfold Badges.onTime. by destruct (truthy (Task.completed t)). Qed.

(** Cancelling the dialog of "clear completed" changes nothing; confirming
    it leaves only open tasks in the store and on screen, so that every
    badge is locked again. *)
Theorem clear_completed_relocks_badges (dateLe : JsVal → JsVal → bool) (w : World.t) :
  handleClearCompleted false w = (Normal (), w)
  ∧ (handleClearCompleted true w).1 = Normal ()
  ∧ World.tasks (handleClearCompleted true w).2
    = stored (handleClearCompleted true w).2
  ∧ Forall (λ t, truthy (Task.completed t) = false)
      (World.tasks (handleClearCompleted true w).2)
  ∧ Badges.first_step (World.tasks (handleClearCompleted true w).2) = false
  ∧ Badges.on_a_roll (World.tasks (handleClearCompleted true w).2) = false
  ∧ Badges.productivity_king (World.tasks (handleClearCompleted true w).2) = false
  ∧ Badges.punctual dateLe (World.tasks (handleClearCompleted true w).2) = false
  ∧ Badges.time_master dateLe (World.tasks (handleClearCompleted true w).2) = false.
Proof.
  split; [done|]. split; [done|]. split; [done|].
  assert (Hv : handleClearCompleted true w
    = (Normal (),
       World.set_tasks
         (filter (λ t, truthy (Task.completed t) = false) (stored w))
         (World.set_localStorage
            (Some (filter (λ t, truthy (Task.completed t) = false) (stored w)))
            w))) by reflexivity.
  rewrite Hv. simpl.
  set (open := filter (λ t, truthy (Task.completed t) = false) (stored w)).
  assert (Hopen : Forall (λ t, truthy (Task.completed t) = false) open).
  { apply Forall_forall. intros t Ht.
    by apply list_elem_of_filter in Ht as [Ht _]. }
  assert (Hcount : Badges.completedCount open = 0%nat).
  { unfold Badges.completedCount. apply (f_equal length (y := [])).
    apply filter_drops_all. eapply Forall_impl; [exact Hopen|].
    intros t Hf. simpl. congruence. }
  assert (Hnone : Forall (λ t, ¬ Badges.onTime dateLe t = true) open).
  { eapply Forall_impl; [exact Hopen|]. intros t Hf Hon.
    apply onTime_completed in Hon. congruence. }
  assert (Hontime : Badges.onTimeCount dateLe open = 0%nat).
  { unfold Badges.onTimeCount. apply (f_equal length (y := [])).
    by apply filter_drops_all. }
  split; [done|].
  unfold Badges.first_step, Badges.on_a_roll, Badges.productivity_king,
    Badges.time_master, Badges.punctual.
  rewrite Hcount, Hontime. split_and!; try done.
  apply not_true_is_false. intros Hex. apply existsb_exists in Hex as (t & Ht & Hon).
  rewrite Forall_forall in Hnone. apply (Hnone t); [|done].
  by apply list_elem_of_In.
Qed.

End Handlers.

(** ** The dispatcher, request by request *)

Section Requests.

Lemma handle_sent now fc w :
  World.sent (Dispatcher.handle now fc w).2
  = World.sent w ++ [response fc (outcome now fc w).1].
Proof. by rewrite handle_outcome. Qed.

Lemma switch_error now fc w message :
  (outcome now fc w).1 = ResError message →
  (outcome now fc w).2 = w ∧ dispatcher_error message.
Proof.
  unfold outcome, dispatcher_error, Dispatcher.switch, Dispatcher.prop.
  unfold mbind, M_bind, mret, M_ret, throw.
  repeat case_decide; destruct (FunctionCall.args fc) as [o|]; simpl;
    rewrite ?createTask_eq, ?updateTask_eq; cbv zeta; simpl;
    repeat case_match; simpl; intros; simplify_eq; eauto 6.
Qed.

(** A response that carries an error means that nothing was changed: the
    state after the request is the state before it plus that response, and
    the message is one of [Unknown function], [404 Not Found] or the
    [TypeError] text for missing arguments. *)
Theorem error_response_changes_nothing
    (now : string) (fc : FunctionCall.t) (w : World.t) (message : string) :
  World.sent (Dispatcher.handle now fc w).2
  = World.sent w ++ [response fc (ResError message)] →
  Dispatcher.handle now fc w
  = (Normal (),
     World.set_sent (World.sent w ++ [response fc (ResError message)]) w)
  ∧ dispatcher_error message.
Proof.
  rewrite handle_sent. intros Heq. apply app_inv_head in Heq.
  injection Heq as Hres. destruct (switch_error now fc w message Hres) as [Hw Hm].
  split; [|done]. rewrite handle_outcome. by rewrite Hres, Hw.
Qed.

Lemma error_response_changes_nothing_witness :
  Dispatcher.handle "2026-01-05T10:00:00.000Z" (set_status "call-9" 7 true)
    milk_world
  = (Normal (),
     World.set_sent
       (World.sent milk_world
        ++ [response (set_status "call-9" 7 true) (ResError "404 Not Found")])
       milk_world)
  ∧ dispatcher_error "404 Not Found".
Proof.
  apply (error_response_changes_nothing "2026-01-05T10:00:00.000Z"
           (set_status "call-9" 7 true) milk_world "404 Not Found").
  vm_compute. reflexivity.
Defined.

(** [update_task_status] is answered with success exactly when its [id]
    argument is a number that is the id of a stored task; an id given as
    text, or missing, is answered with the [404]. *)
Theorem update_task_status_success
    (now : string) (fc : FunctionCall.t) (o : gmap string JsVal) (w : World.t) :
  FunctionCall.name fc = "update_task_status" →
  FunctionCall.args fc = Some o →
  (World.sent (Dispatcher.handle now fc w).2
   = World.sent w ++ [response fc ResSuccess]
   ↔ ∃ n, o !! "id" = Some (JNum n) ∧ n ∈ Task.id <$> stored w)
  ∧ (World.sent (Dispatcher.handle now fc w).2
     = World.sent w ++ [response fc ResSuccess]
     ∨ World.sent (Dispatcher.handle now fc w).2
       = World.sent w ++ [response fc (ResError "404 Not Found")]).
Proof.
  intros Hname Hargs. rewrite handle_sent.
  assert (Hout : (outcome now fc w).1
    = match DjangoAPI.findIndex (default JUndefined (o !! "id")) (stored w) with
      | Some _ => ResSuccess
      | None => ResError "404 Not Found"
      end).
  { unfold outcome, Dispatcher.switch, Dispatcher.prop. rewrite Hname, Hargs.
    rewrite decide_False, decide_False, decide_True by done.
    unfold mbind, M_bind, mret, M_ret. rewrite updateTask_eq.
    by destruct (DjangoAPI.findIndex _ (stored w)) as [[]|]. }
  rewrite Hout.
  destruct (DjangoAPI.findIndex _ (stored w)) as [[index task]|] eqn:Hfind.
  - split; [|by left]. split; [intros _|done].
    apply list_find_Some in Hfind as (Hlookup & Hid & _).
    exists (Task.id task). split.
    + destruct (o !! "id") as [v|]; simpl in Hid; by subst.
    + apply list_elem_of_fmap_2. by eapply list_elem_of_lookup_2.
  - split; [|by right]. split.
    + intros Heq. apply app_inv_head in Heq. discriminate.
    + intros (n & Hid & Hin). rewrite Hid in Hfind. simpl in Hfind.
      by apply findIndex_None in Hfind.
Qed.

Lemma update_task_status_success_witness :
  (World.sent
     (Dispatcher.handle "2026-01-05T10:00:00.000Z" (set_status "call-1" 1 true)
        milk_world).2
   = World.sent milk_world ++ [response (set_status "call-1" 1 true) ResSuccess]
   ↔ ∃ n, (<[ "id" := JNum 1 ]> {[ "completed" := JBool true ]}
            : gmap string JsVal) !! "id" = Some (JNum n)
          ∧ n ∈ Task.id <$> stored milk_world)
  ∧ (World.sent
       (Dispatcher.handle "2026-01-05T10:00:00.000Z"
          (set_status "call-1" 1 true) milk_world).2
     = World.sent milk_world
       ++ [response (set_status "call-1" 1 true) ResSuccess]
     ∨ World.sent
         (Dispatcher.handle "2026-01-05T10:00:00.000Z"
            (set_status "call-1" 1 true) milk_world).2
       = World.sent milk_world
         ++ [response (set_status "call-1" 1 true)
               (ResError "404 Not Found")]).
Proof.
  apply (update_task_status_success "2026-01-05T10:00:00.000Z"
           (set_status "call-1" 1 true)
           (<[ "id" := JNum 1 ]> {[ "completed" := JBool true ]}) milk_world);
    reflexivity.
Defined.

(** A batch can be cut anywhere: dispatching it is dispatching the first
    part and then the second part on the state the first part left. *)
Theorem dispatch_app (calls1 calls2 : list (string * FunctionCall.t)) (w : World.t) :
  Dispatcher.dispatch (calls1 ++ calls2) w
  = Dispatcher.dispatch calls2 (Dispatcher.dispatch calls1 w).2.
Proof.
  revert w. induction calls1 as [|[now fc] rest IH]; intros w; [done|].
  cbn [app Dispatcher.dispatch]. unfold mbind, M_bind.
  rewrite handle_outcome. apply IH.
Qed.

(** No batch of tool calls touches the voice session: the activity flag,
    the error message, the connection count, the next start time and the
    playback log are what they were. *)
Theorem dispatch_leaves_session_alone (calls : list (string * FunctionCall.t)) (w : World.t) :
  World.isLiveActive (Dispatcher.dispatch calls w).2 = World.isLiveActive w
  ∧ World.liveError (Dispatcher.dispatch calls w).2 = World.liveError w
  ∧ World.connects (Dispatcher.dispatch calls w).2 = World.connects w
  ∧ World.nextStartTime (Dispatcher.dispatch calls w).2 = World.nextStartTime w
  ∧ World.started (Dispatcher.dispatch calls w).2 = World.started w.
Proof. split_and!; by apply dispatch_keeps. Qed.

Lemma unstamped_after_load {A B} (m : M A) (r : A → B) w :
  (∀ w', Forall unstamped (stored w') → Forall unstamped (stored (m w').2)) →
  Forall unstamped (stored w) →
  Forall unstamped (stored ((m ≫= λ a, loadTasks ≫= λ _, mret (r a)) w).2).
Proof.
  intros Hm Hw. rewrite then_loadTasks. specialize (Hm w Hw).
  by destruct (m w) as [[a|e] w'].
Qed.

Lemma Forall_filter_keeps {A} (Q P : A → Prop) `{∀ x, Decision (P x)} l :
  Forall Q l → Forall Q (filter P l).
Proof.
  rewrite !Forall_forall. intros HQ x Hx.
  apply list_elem_of_filter in Hx as [_ Hx]. by apply HQ.
Qed.

Lemma switch_unstamped now fc w :
  Forall unstamped (stored w) →
  Forall unstamped (stored (Dispatcher.switch now fc w).2).
Proof.
  intros Hw. unfold Dispatcher.switch, Dispatcher.prop.
  repeat case_decide; destruct (FunctionCall.args fc) as [o|]; try exact Hw;
    apply unstamped_after_load; try done; clear w Hw; intros w Hw.
  - rewrite createTask_eq. cbv zeta. simpl. rewrite stored_set.
    by apply List.Forall_cons.
  - rewrite updateTask_eq.
    destruct (DjangoAPI.findIndex _ (stored w)) as [[index task]|] eqn:Hfind;
      [|done].
    apply list_find_Some in Hfind as (Hlookup & _ & _). simpl.
    rewrite stored_set. apply Forall_insert; [done|].
    rewrite Forall_forall in Hw. unfold unstamped. simpl.
    apply (Hw task). by eapply list_elem_of_lookup_2.
  - rewrite deleteTask_eq. simpl. rewrite stored_set.
    by apply Forall_filter_keeps.
  - rewrite deleteCompletedTasks_eq. simpl. rewrite stored_set.
    by apply Forall_filter_keeps.
  - rewrite deleteCompletedTasks_eq. simpl. rewrite stored_set.
    by apply Forall_filter_keeps.
Qed.

Lemma responses_unstamped calls w :
  Forall unstamped (stored w) → Forall unstamped (stored (responses calls w).2).
Proof.
  revert w. induction calls as [|[now fc] rest IH]; intros w Hw; simpl; [done|].
  pose proof (switch_unstamped now fc w Hw) as H1. unfold outcome.
  destruct (Dispatcher.switch now fc w) as [[r|e] w1]; simpl in H1;
    specialize (IH w1 H1); by destruct (responses rest w1).
Qed.

(** Voice commands never produce an on-time completion: when no stored
    task carries a completion time, none does after any batch of tool
    calls, so the two on-time badges stay locked whatever the calls
    complete. *)
Theorem voice_never_on_time
    (dateLe : JsVal → JsVal → bool)
    (calls : list (string * FunctionCall.t)) (w : World.t) :
  Forall unstamped (stored w) →
  Forall unstamped (stored (Dispatcher.dispatch calls w).2)
  ∧ Badges.onTimeCount dateLe (stored (Dispatcher.dispatch calls w).2) = 0%nat
  ∧ Badges.punctual dateLe (stored (Dispatcher.dispatch calls w).2) = false
  ∧ Badges.time_master dateLe (stored (Dispatcher.dispatch calls w).2) = false.
Proof.
  intros Hw. rewrite dispatch_responses. simpl.
  change (stored (World.set_sent ?s ?w')) with (stored w').
  pose proof (responses_unstamped calls w Hw) as Hu.
  set (tasks := stored (responses calls w).2) in *.
  assert (Hnone : Forall (λ t, ¬ Badges.onTime dateLe t = true) tasks).
  { eapply Forall_impl; [exact Hu|]. unfold unstamped, Badges.onTime.
    intros t Hf. rewrite Hf. by repeat case_match. }
  assert (Hcount : Badges.onTimeCount dateLe tasks = 0%nat).
  { unfold Badges.onTimeCount. apply (f_equal length (y := [])).
    by apply filter_drops_all. }
  split_and!; [done|done| |].
  - apply not_true_is_false. intros Hex.
    apply existsb_exists in Hex as (t & Ht & Hon).
    rewrite Forall_forall in Hnone. apply (Hnone t); [|done].
    by apply list_elem_of_In.
  - unfold Badges.time_master. by rewrite Hcount.
Qed.

Lemma voice_never_on_time_witness :
  Forall unstamped
    (stored
       (Dispatcher.dispatch
          [("2026-01-05T10:00:00.000Z", set_status "call-1" 1 true)]
          milk_world).2)
  ∧ Badges.onTimeCount (λ _ _, true)
      (stored
         (Dispatcher.dispatch
            [("2026-01-05T10:00:00.000Z", set_status "call-1" 1 true)]
            milk_world).2) = 0%nat
  ∧ Badges.punctual (λ _ _, true)
      (stored
         (Dispatcher.dispatch
            [("2026-01-05T10:00:00.000Z", set_status "call-1" 1 true)]
            milk_world).2) = false
  ∧ Badges.time_master (λ _ _, true)
      (stored
         (Dispatcher.dispatch
            [("2026-01-05T10:00:00.000Z", set_status "call-1" 1 true)]
            milk_world).2) = false.
Proof.
  apply (voice_never_on_time (λ _ _, true)
           [("2026-01-05T10:00:00.000Z", set_status "call-1" 1 true)]
           milk_world).
  repeat constructor.
Defined.

End Requests.

(** ** The encoder, sample by sample *)

Section Samples.

Local Open Scope Q_scope.

Lemma clamp_spec x :
  -1 <= Codec.clamp x <= 1
  ∧ (x <= -1 → Codec.clamp x == -1)
  ∧ (1 <= x → Codec.clamp x == 1)
  ∧ (-1 <= x <= 1 → Codec.clamp x == x).
Proof.
  unfold Codec.clamp.
  destruct (Q.min_spec 1 x) as [[H1 E1] | [H1 E1]];
    destruct (Q.max_spec (-1) (Qmin 1 x)) as [[H2 E2] | [H2 E2]];
    rewrite ?E1 in *; rewrite E2, ?E1; split_and!; intros; lra.
Qed.

Lemma clamp_mono x y : x <= y → Codec.clamp x <= Codec.clamp y.
Proof.
  intros Hxy.
  destruct (clamp_spec x) as (Hx & Hx1 & Hx2 & Hx3).
  destruct (clamp_spec y) as (Hy & Hy1 & Hy2 & Hy3).
  destruct (Qlt_le_dec x (-1)) as [?|?]; [rewrite Hx1 by lra; lra|].
  destruct (Qlt_le_dec 1 y) as [?|?]; [rewrite Hy2 by lra; lra|].
  rewrite Hx3, Hy3 by lra. done.
Qed.

(** The encoded value of a sample, between the scaled sample and the next
    integer toward zero. *)
Lemma sample_spec x :
  (Codec.clamp x < 0 →
     Codec.clamp x * 32768 <= inject_Z (Codec.sample_to_int16 x)
     ∧ inject_Z (Codec.sample_to_int16 x) < Codec.clamp x * 32768 + 1)
  ∧ (0 <= Codec.clamp x →
     inject_Z (Codec.sample_to_int16 x) <= Codec.clamp x * 32767
     ∧ Codec.clamp x * 32767 < inject_Z (Codec.sample_to_int16 x) + 1).
Proof.
  destruct (clamp_spec x) as ([Hlo Hhi] & _). unfold Codec.sample_to_int16.
  set (s := Codec.clamp x) in *. clearbody s.
  destruct (Qltb_spec s 0) as [Hneg | Hpos].
  - pose proof (truncate_spec (s * 32768)) as [_ Ht].
    set (t := (Qnum (s * 32768) ÷ Z.pos (Qden (s * 32768)))%Z) in *.
    destruct Ht as [Ht1 Ht2]; [lra|].
    rewrite toInt16_truncate; fold t.
    2:{ unfold is_int16. rewrite Zle_Qle, Zlt_Qlt.
        change (inject_Z (-32768)) with (-32768 # 1).
        change (inject_Z 32768) with (32768 # 1). lra. }
    split; intros; [split|]; lra.
  - pose proof (truncate_spec (s * 32767)) as [Ht _].
    set (t := (Qnum (s * 32767) ÷ Z.pos (Qden (s * 32767)))%Z) in *.
    destruct Ht as [Ht1 Ht2]; [lra|].
    rewrite toInt16_truncate; fold t.
    2:{ unfold is_int16. rewrite Zle_Qle, Zlt_Qlt.
        change (inject_Z (-32768)) with (-32768 # 1).
        change (inject_Z 32768) with (32768 # 1). lra. }
    split; intros; [|split]; lra.
Qed.

Lemma inject_Z_le (a b : Z) : (a ≤ b)%Z → inject_Z a <= inject_Z b.
Proof. by rewrite <- Zle_Qle. Qed.

Lemma inject_Z_lt (a b : Z) : (a < b)%Z → inject_Z a < inject_Z b.
Proof. by rewrite <- Zlt_Qlt. Qed.

Lemma between_integers (a b : Z) :
  inject_Z a < inject_Z b + 1 → (a ≤ b)%Z.
Proof.
  intros H. apply Z.lt_succ_r. rewrite Zlt_Qlt.
  unfold Z.succ. rewrite inject_Z_plus. exact H.
Qed.

(** A sample outside [[-1, 1]] is clipped: it is encoded as the largest
    value, 32767, when it is above 1 and as the smallest, -32768, when it
    is below -1. *)
Theorem encode_saturates (x : Q) :
  ¬ in_range x →
  Codec.sample_to_int16 x = if Codec.Qltb x 0 then (-32768)%Z else 32767%Z.
Proof.
  intros Hout. destruct (clamp_spec x) as (_ & Hlow & Hhigh & _).
  destruct (sample_spec x) as [Hneg Hpos].
  assert (Hcase : x < -1 ∨ 1 < x).
  { destruct (Qlt_le_dec x (-1)); [by left|].
    destruct (Qlt_le_dec 1 x); [by right|]. exfalso. by apply Hout. }
  destruct (Qltb_spec x 0) as [Hx | Hx]; destruct Hcase as [Hc | Hc]; try lra.
  - specialize (Hlow ltac:(lra)). destruct Hneg as [H1 H2]; [lra|].
    rewrite Hlow in H1, H2. apply Z.le_antisymm.
    + apply between_integers. qlra.
    + rewrite Zle_Qle. qlra.
  - specialize (Hhigh ltac:(lra)). destruct Hpos as [H1 H2]; [lra|].
    rewrite Hhigh in H1, H2. apply Z.le_antisymm.
    + rewrite Zle_Qle. qlra.
    + apply between_integers. qlra.
Qed.

Lemma encode_saturates_witness :
  Codec.sample_to_int16 (3 # 2)
  = if Codec.Qltb (3 # 2) 0 then (-32768)%Z else 32767%Z.
Proof.
  apply (encode_saturates (3 # 2)). unfold in_range, Qle. simpl. lia.
Defined.

(** The encoder is monotone: a larger sample is never encoded as a smaller
    value. *)
Theorem encode_monotone (x y : Q) :
  x <= y → (Codec.sample_to_int16 x ≤ Codec.sample_to_int16 y)%Z.
Proof.
  intros Hxy. pose proof (clamp_mono x y Hxy) as Hs.
  destruct (sample_spec x) as [Hxn Hxp].
  destruct (sample_spec y) as [Hyn Hyp].
  generalize dependent (Codec.sample_to_int16 x).
  generalize dependent (Codec.sample_to_int16 y).
  generalize dependent (Codec.clamp x). generalize dependent (Codec.clamp y).
  intros sy sx Hs vy Hyn Hyp vx Hxn Hxp.
  destruct (Qlt_le_dec sx 0) as [Hx | Hx];
    destruct (Qlt_le_dec sy 0) as [Hy | Hy].
  - destruct (Hxn Hx) as [A1 A2]. destruct (Hyn Hy) as [B1 B2].
    clear Hxn Hxp Hyn Hyp. apply between_integers. lra.
  - destruct (Hxn Hx) as [A1 A2]. destruct (Hyp Hy) as [B1 B2].
    clear Hxn Hxp Hyn Hyp. transitivity 0%Z; apply between_integers; qlra.
  - lra.
  - destruct (Hxp Hx) as [A1 A2]. destruct (Hyp Hy) as [B1 B2].
    clear Hxn Hxp Hyn Hyp. apply between_integers. lra.
Qed.

Lemma encode_monotone_witness :
  (Codec.sample_to_int16 (-(1 # 3)) ≤ Codec.sample_to_int16 (1 # 2))%Z.
Proof.
  apply (encode_monotone (-(1 # 3)) (1 # 2)). unfold Qle. simpl. lia.
Defined.

(** Encoding is not the inverse of decoding: what [base64ToFloat32Array]
    gives for the sample value [v] is encoded again as [v - 1] when [v] is
    positive and as [v] otherwise, so audio that is decoded and encoded
    again loses one step on every positive sample. *)
Theorem reencoding_drifts (v : Z) :
  is_int16 v →
  Codec.sample_to_int16 (inject_Z v / 32768)
  = if (0 <? v)%Z then (v - 1)%Z else v.
Proof.
  unfold is_int16. intros [Hlo Hhi].
  assert (Hq : -32768 <= inject_Z v ∧ inject_Z v < 32768).
  { split; [apply (inject_Z_le (-32768) v) | apply (inject_Z_lt v 32768)]; lia. }
  set (x := inject_Z v / 32768).
  assert (Hx : x == inject_Z v * (1 # 32768)) by reflexivity.
  destruct (clamp_spec x) as (_ & _ & _ & Hin).
  specialize (Hin ltac:(lra)).
  destruct (sample_spec x) as [Hneg Hpos]. rewrite Hin in Hneg, Hpos.
  assert (Hv1 : inject_Z (v - 1) == inject_Z v - 1).
  { unfold Z.sub. rewrite inject_Z_plus, inject_Z_opp. reflexivity. }
  generalize dependent (Codec.sample_to_int16 x). intros e Hneg Hpos.
  clearbody x.
  destruct (Z.ltb_spec 0 v) as [Hv | Hv].
  - assert (1 <= inject_Z v) by (apply (inject_Z_le 1 v); lia).
    destruct Hpos as [H1 H2]; [lra|]. clear Hneg.
    apply Z.le_antisymm; apply between_integers; lra.
  - assert (inject_Z v <= 0) by (apply (inject_Z_le v 0); lia).
    destruct (Qlt_le_dec x 0) as [Hx0 | Hx0].
    + destruct Hneg as [H1 H2]; [done|]. clear Hpos.
      apply Z.le_antisymm; apply between_integers; lra.
    + destruct Hpos as [H1 H2]; [done|]. clear Hneg.
      apply Z.le_antisymm; apply between_integers; lra.
Qed.

Lemma reencoding_drifts_witness :
  Codec.sample_to_int16 (inject_Z 12000 / 32768)
  = if (0 <? 12000)%Z then (12000 - 1)%Z else 12000%Z.
Proof. apply (reencoding_drifts 12000). unfold is_int16. lia. Defined.

End Samples.

(** ** The decoder on arbitrary text *)

Section Decoder.

Lemma list_ind2 {A} (P : list A → Prop) :
  P [] → (∀ a, P [a]) → (∀ a b l, P l → P (a :: b :: l)) → ∀ l, P l.
Proof.
  intros H0 H1 H2 l. cut (P l ∧ ∀ a, P (a :: l)); [tauto|].
  induction l as [|x l [IH0 IH1]]; [by auto|].
  split; [apply IH1 | intros a; apply H2, IH0].
Qed.

Lemma int16_elements_spec bytes :
  Forall is_byte bytes →
  Forall is_int16 (Codec.int16_elements bytes)
  ∧ length (Codec.int16_elements bytes) = (length bytes / 2)%nat.
Proof.
  induction bytes as [|a|a b l IH] using list_ind2; intros Hb; simpl.
  - by split.
  - by split.
  - inversion_clear Hb as [|?? Ha Hb']. inversion_clear Hb' as [|?? Hb Hl].
    destruct (IH Hl) as [IH1 IH2]. split.
    + apply List.Forall_cons; [|done]. unfold is_int16, Codec.signed16.
      unfold is_byte in *. destruct (Z.leb_spec 32768 (a + 256 * b)); lia.
    + rewrite IH2. pose proof (Nat.div_add_l 1 2 (length l) ltac:(lia)) as Hd.
      simpl in Hd. by rewrite Hd.
Qed.

(** Whatever text arrives, when [base64ToFloat32Array] returns at all it
    returns one sample for every two decoded bytes, and every sample lies
    between -1 (included) and 1 (excluded). *)
Theorem decoded_samples_range (base64 : string) (float32 : list Q) :
  Codec.base64ToFloat32Array base64 = Normal float32 →
  Forall decoded_range float32
  ∧ ∃ binaryString,
      Codec.atob base64 = Normal binaryString
      ∧ String.length binaryString = (2 * length float32)%nat.
Proof.
  unfold Codec.base64ToFloat32Array, Codec.new_Int16Array.
  destruct (Codec.atob base64) as [binaryString|e]; [|done].
  set (bytes := Codec.charCodeAt <$> String.list_ascii_of_string binaryString).
  assert (Hbytes : Forall is_byte bytes).
  { apply Forall_fmap, Forall_true. intros c. apply charCodeAt_byte. }
  assert (Hlen : length bytes = String.length binaryString).
  { unfold bytes. by rewrite length_fmap, length_list_ascii. }
  destruct (int16_elements_spec bytes Hbytes) as [Hrange Hcount].
  destruct (Nat.eqb_spec (length bytes mod 2) 0) as [Heven|]; [|done].
  intros [= <-]. split.
  - apply Forall_fmap. eapply Forall_impl; [exact Hrange|].
    intros v [Hlo Hhi]. unfold decoded_range. simpl.
    apply (inject_Z_le (-32768) v) in Hlo. apply (inject_Z_lt v 32768) in Hhi.
    unfold Qdiv. change (/ 32768)%Q with (1 # 32768)%Q.
    generalize dependent (inject_Z v). intros q Hlo Hhi. qlra.
  - exists binaryString. split; [done|]. rewrite length_fmap, Hcount, <- Hlen.
    pose proof (Nat.div_mod_eq (length bytes) 2). lia.
Qed.

Lemma decoded_samples_range_witness :
  Forall decoded_range [(32767 # 32768)%Q; (-32768 # 32768)%Q]
  ∧ ∃ binaryString,
      Codec.atob "/38AgA==" = Normal binaryString
      ∧ String.length binaryString
        = (2 * length [(32767 # 32768)%Q; (-32768 # 32768)%Q])%nat.
Proof.
  apply (decoded_samples_range "/38AgA=="
           [(32767 # 32768)%Q; (-32768 # 32768)%Q]).
  vm_compute. reflexivity.
Defined.

End Decoder.

(** ** Playback, message by message *)

Section Scheduling.

(** A segment that arrives before the previous one has ended starts
    exactly where, for the code, that one ends, so playback is gapless; a
    segment that arrives later starts on arrival.  [nextStartTime] becomes
    the double nearest to start plus duration: the exact sum when that is
    a double, within 2^-53 of it otherwise.  It never moves backwards. *)
Theorem play_back_to_back
    (now : Float64.t) (audioData : string) (float32Data : list Q) (w : World.t) :
  Codec.base64ToFloat32Array audioData = Normal float32Data →
  float32Data ≠ [] →
  ∃ startTime,
    (play now audioData w).1 = Normal ()
    ∧ World.started (play now audioData w).2
      = World.started w
        ++ [(startTime, Scheduler.duration_of (length float32Data))]
    ∧ World.nextStartTime (play now audioData w).2
      = Float64.add startTime (Scheduler.duration_of (length float32Data))
    ∧ (Float64.le now (World.nextStartTime w) → startTime = World.nextStartTime w)
    ∧ (Float64.le (World.nextStartTime w) now → startTime = now)
    ∧ Float64.le (World.nextStartTime w)
        (World.nextStartTime (play now audioData w).2)
    ∧ (Float64.finite (World.nextStartTime (play now audioData w).2) →
       Float64.grid (World.nextStartTime (play now audioData w).2)
       = Float64.round
           (Float64.grid startTime
            + Float64.grid (Scheduler.duration_of (length float32Data))) 1
       ∧ 2 ^ 53
         * Z.abs (Float64.grid (World.nextStartTime (play now audioData w).2)
                  - (Float64.grid startTime
                     + Float64.grid (Scheduler.duration_of (length float32Data))))
         ≤ Float64.grid (World.nextStartTime (play now audioData w).2))
    ∧ (Float64.is_double
         (Float64.grid startTime
          + Float64.grid (Scheduler.duration_of (length float32Data))) = true →
       Float64.grid (World.nextStartTime (play now audioData w).2)
       = Float64.grid startTime
         + Float64.grid (Scheduler.duration_of (length float32Data))).
Proof.
  intros Hdec Hne. rewrite play_eq, Hdec.
  rewrite bool_decide_false by (by destruct float32Data).
  exists (Float64.max now (World.nextStartTime w)). cbn [fst snd].
  unfold scheduled. cbn [World.started World.nextStartTime
    World.set_nextStartTime World.set_started].
  pose proof (grid_max now (World.nextStartTime w)) as Hmax.
  destruct (add_ge (Float64.max now (World.nextStartTime w))
              (Scheduler.duration_of (length float32Data))) as [Hge _].
  unfold Float64.le in *.
  split_and!; try done.
  - intros Hle. apply grid_inj. lia.
  - intros Hle. apply grid_inj. lia.
  - lia.
  - apply add_finite.
  - apply add_exact.
Qed.

Lemma play_back_to_back_witness :
  ∃ startTime,
    (play Float64.zero "AAAAAAAA"
       (World.set_nextStartTime (Float64.ratio 1 2) World.initial)).1
    = Normal ()
    ∧ World.started
        (play Float64.zero "AAAAAAAA"
           (World.set_nextStartTime (Float64.ratio 1 2) World.initial)).2
      = World.started (World.set_nextStartTime (Float64.ratio 1 2) World.initial)
        ++ [(startTime,
             Scheduler.duration_of (length [0 # 32768; 0 # 32768; 0 # 32768]))]
    ∧ World.nextStartTime
        (play Float64.zero "AAAAAAAA"
           (World.set_nextStartTime (Float64.ratio 1 2) World.initial)).2
      = Float64.add startTime
          (Scheduler.duration_of (length [0 # 32768; 0 # 32768; 0 # 32768]))
    ∧ (Float64.le Float64.zero
         (World.nextStartTime
            (World.set_nextStartTime (Float64.ratio 1 2) World.initial)) →
       startTime
       = World.nextStartTime
           (World.set_nextStartTime (Float64.ratio 1 2) World.initial))
    ∧ (Float64.le
         (World.nextStartTime
            (World.set_nextStartTime (Float64.ratio 1 2) World.initial))
         Float64.zero →
       startTime = Float64.zero)
    ∧ Float64.le
        (World.nextStartTime
           (World.set_nextStartTime (Float64.ratio 1 2) World.initial))
        (World.nextStartTime
           (play Float64.zero "AAAAAAAA"
              (World.set_nextStartTime (Float64.ratio 1 2) World.initial)).2)
    ∧ (Float64.finite
         (World.nextStartTime
            (play Float64.zero "AAAAAAAA"
               (World.set_nextStartTime (Float64.ratio 1 2) World.initial)).2) →
       Float64.grid
         (World.nextStartTime
            (play Float64.zero "AAAAAAAA"
               (World.set_nextStartTime (Float64.ratio 1 2) World.initial)).2)
       = Float64.round
           (Float64.grid startTime
            + Float64.grid
                (Scheduler.duration_of
                   (length [0 # 32768; 0 # 32768; 0 # 32768]))) 1
       ∧ 2 ^ 53
         * Z.abs
             (Float64.grid
                (World.nextStartTime
                   (play Float64.zero "AAAAAAAA"
                      (World.set_nextStartTime (Float64.ratio 1 2)
                         World.initial)).2)
              - (Float64.grid startTime
                 + Float64.grid
                     (Scheduler.duration_of
                        (length [0 # 32768; 0 # 32768; 0 # 32768]))))
         ≤ Float64.grid
             (World.nextStartTime
                (play Float64.zero "AAAAAAAA"
                   (World.set_nextStartTime (Float64.ratio 1 2)
                      World.initial)).2))
    ∧ (Float64.is_double
         (Float64.grid startTime
          + Float64.grid
              (Scheduler.duration_of
                 (length [0 # 32768; 0 # 32768; 0 # 32768]))) = true →
       Float64.grid
         (World.nextStartTime
            (play Float64.zero "AAAAAAAA"
               (World.set_nextStartTime (Float64.ratio 1 2) World.initial)).2)
       = Float64.grid startTime
         + Float64.grid
             (Scheduler.duration_of (length [0 # 32768; 0 # 32768; 0 # 32768]))).
Proof.
  apply (play_back_to_back Float64.zero "AAAAAAAA"
           [0 # 32768; 0 # 32768; 0 # 32768]
           (World.set_nextStartTime (Float64.ratio 1 2) World.initial)).
  - vm_compute. reflexivity.
  - discriminate.
Defined.

(** Half a second after device time 1 is device time 1.5 exactly; the
    duration of three samples after device time 1 is not exact. *)
Example half_second_exact :
  Float64.add (Float64.ratio 1 1) (Scheduler.duration_of (Z.to_nat 12000))
  = Float64.ratio 3 2
  ∧ Float64.grid (Float64.add (Float64.ratio 1 1) (Scheduler.duration_of 3))
    ≠ Float64.grid (Float64.ratio 1 1) + Float64.grid (Scheduler.duration_of 3).
Proof.
  split; [apply grid_inj; vm_compute; reflexivity|].
  vm_compute. discriminate.
Qed.

Lemma receive_step w now msg :
  (World.started (receive w (now, msg)) = World.started w
   ∧ World.nextStartTime (receive w (now, msg)) = World.nextStartTime w)
  ∨ ∃ len,
      World.started (receive w (now, msg))
      = World.started w
        ++ [(Float64.max now (World.nextStartTime w), Scheduler.duration_of len)]
      ∧ World.nextStartTime (receive w (now, msg))
        = Float64.add (Float64.max now (World.nextStartTime w))
            (Scheduler.duration_of len).
Proof.
  unfold receive, onmessage. simpl.
  destruct (tools_keep_scheduler (LiveServerMessage.toolCall msg)) as [Hs Hn].
  unfold mbind, M_bind.
  destruct (LiveServerMessage.audioData msg) as [audioData|]; simpl.
  2:{ left. by rewrite Hs, Hn. }
  destruct (String.eqb audioData ""); simpl.
  { left. by rewrite Hs, Hn. }
  rewrite play_eq.
  destruct (Codec.base64ToFloat32Array audioData) as [float32Data|e];
    [|by left].
  destruct (bool_decide (length float32Data = 0%nat)); [by left|].
  right. exists (length float32Data). by rewrite Hs, Hn.
Qed.

Lemma receive_grows w m :
  Float64.le (World.nextStartTime w) (World.nextStartTime (receive w m))
  ∧ World.started w `prefix_of` World.started (receive w m)
  ∧ (length (World.started (receive w m)) ≤ S (length (World.started w)))%nat.
Proof.
  destruct m as [now msg]. unfold Float64.le.
  destruct (receive_step w now msg) as [[-> ->] | (len & -> & ->)].
  - split_and!; [lia | done | lia].
  - rewrite length_app. simpl.
    split_and!; [|by apply prefix_app_r|lia].
    destruct (add_ge (Float64.max now (World.nextStartTime w))
                (Scheduler.duration_of len)) as [Hge _].
    unfold Float64.le in Hge. rewrite grid_max in Hge. lia.
Qed.

(** Along a session [nextStartTime] never decreases, the playback log only
    grows at its end, and every message adds at most one segment to it. *)
Theorem session_only_moves_forward
    (msgs : list (Float64.t * LiveServerMessage.t)) (w : World.t) :
  Float64.le (World.nextStartTime w) (World.nextStartTime (session msgs w))
  ∧ World.started w `prefix_of` World.started (session msgs w)
  ∧ (length (World.started (session msgs w))
     ≤ length (World.started w) + length msgs)%nat.
Proof.
  unfold session. revert w.
  induction msgs as [|m msgs IH]; intros w; simpl.
  - unfold Float64.le. split_and!; [lia | done | lia].
  - destruct (receive_grows w m) as (H1 & H2 & H3).
    destruct (IH (receive w m)) as (I1 & I2 & I3).
    unfold Float64.le in *. split_and!; [lia | by etrans | lia].
Qed.

(** When [onmessage] throws, the message has left no trace: the exception
    comes from playing its audio, before anything was scheduled, and its
    tool calls were not dispatched. *)
Theorem failed_message_leaves_no_trace
    (currentTime : Float64.t) (msg : LiveServerMessage.t) (e : JsExn)
    (w : World.t) :
  (onmessage currentTime msg w).1 = Throw e →
  onmessage currentTime msg w = (Throw e, w)
  ∧ ∃ audioData,
      LiveServerMessage.audioData msg = Some audioData
      ∧ play currentTime audioData w = (Throw e, w).
Proof.
  unfold onmessage, mbind, M_bind.
  destruct (LiveServerMessage.audioData msg) as [audioData|]; simpl.
  2:{ destruct (LiveServerMessage.toolCall msg) as [calls|]; [|done].
      by rewrite dispatch_responses. }
  destruct (String.eqb audioData ""); simpl.
  { destruct (LiveServerMessage.toolCall msg) as [calls|]; [|done].
    by rewrite dispatch_responses. }
  destruct (play currentTime audioData w) as [[[]|e'] w1] eqn:Hplay.
  - destruct (LiveServerMessage.toolCall msg) as [calls|]; [|done].
    by rewrite dispatch_responses.
  - intros [= <-]. assert (w1 = w) as ->.
    { rewrite play_eq in Hplay.
      destruct (Codec.base64ToFloat32Array audioData) as [float32Data|e''];
        [|by simplify_eq].
      destruct (bool_decide (length float32Data = 0%nat)); by simplify_eq. }
    split; [done|]. by exists audioData.
Qed.

Lemma failed_message_leaves_no_trace_witness :
  onmessage Float64.zero
    (LiveServerMessage.mk (Some "AAAA")
       (Some [("2026-01-05T10:00:00.000Z", buy_milk)])) World.initial
  = (Throw odd_length_error, World.initial)
  ∧ ∃ audioData,
      LiveServerMessage.audioData
        (LiveServerMessage.mk (Some "AAAA")
           (Some [("2026-01-05T10:00:00.000Z", buy_milk)]))
      = Some audioData
      ∧ play Float64.zero audioData World.initial
        = (Throw odd_length_error, World.initial).
Proof.
  apply (failed_message_leaves_no_trace Float64.zero
           (LiveServerMessage.mk (Some "AAAA")
              (Some [("2026-01-05T10:00:00.000Z", buy_milk)]))
           odd_length_error World.initial).
  reflexivity.
Defined.

End Scheduling.

(** ** Starting a session, continued *)

Section StartFailures.

(** Whatever fails before the connection is opened is reported as a refused
    microphone: when the microphone is granted but one of the two audio
    contexts cannot be created, the session shows
    [Microphone access denied.] and the connection is not opened. *)
Theorem context_failure_reported_as_microphone (env : Env.t) (e : JsExn) (w : World.t) :
  Env.getUserMedia env = Normal () →
  Env.inputCtx env = Throw e
  ∨ (Env.inputCtx env = Normal () ∧ Env.outputCtx env = Throw e) →
  startLiveSession env w
  = (Normal (), World.set_liveError (Some "Microphone access denied.") w).
Proof.
  intros Hmic Hctx.
  unfold startLiveSession, try_catch, lift, mbind, M_bind. simpl.
  rewrite Hmic. by destruct Hctx as [-> | [-> ->]].
Qed.

Lemma context_failure_reported_as_microphone_witness :
  startLiveSession output_context_refused World.initial
  = (Normal (),
     World.set_liveError (Some "Microphone access denied.") World.initial).
Proof.
  apply (context_failure_reported_as_microphone output_context_refused
           (DOMException "NotSupportedError"
              "The provided sample rate is not supported") World.initial).
  - reflexivity.
  - right. by split.
Defined.

End StartFailures.

(** ** The deadline notifier *)

Section Deadlines.

Context (getTime : JsVal → option Z).

Lemma toasts_for_snoc_list n toasts more :
  toasts_for n (toasts ++ more) = toasts_for n toasts ++ toasts_for n more.
Proof. unfold toasts_for. by rewrite filter_app, fmap_app. Qed.

Lemma toasts_for_one n toast :
  toasts_for n [toast]
  = if decide (Task.id (toast_task toast) = n) then [is_warning toast] else [].
Proof.
  unfold toasts_for. rewrite filter_cons, filter_nil. by case_decide.
Qed.

Lemma toasts_for_snoc n toasts toast :
  toasts_for n (toasts ++ [toast])
  = toasts_for n toasts
    ++ (if decide (Task.id (toast_task toast) = n) then [is_warning toast] else []).
Proof.
  unfold toasts_for. rewrite filter_app, fmap_app. f_equal.
  rewrite filter_cons, filter_nil. by case_decide.
Qed.

(** [checkTask] on an open task with a due date, as one update of the
    flags of its id and the toasts it adds. *)
Lemma checkTask_eq now notified toasts task a o :
  truthy (Task.completed task) || negb (truthy (Task.due_date task)) = false →
  default (Status.mk false false) (notified !! Task.id task) = Status.mk a o →
  Notifier.checkTask getTime now (notified, toasts) task
  = match getTime (Task.due_date task) with
    | None => (<[Task.id task := Status.mk a o]> notified, toasts)
    | Some dueDate =>
        let warn :=
          (0 <? dueDate - now) && (dueDate - now <=? 15 * 60000) && negb a in
        let alert := (dueDate - now <=? 0) && negb o in
        (<[Task.id task := Status.mk (a || warn || alert) (o || alert)]> notified,
         toasts
         ++ (if warn
             then [Warning task (Notifier.ceilMins (dueDate - now))] else [])
         ++ (if alert then [Alert task] else []))
    end.
Proof.
  intros Hopen Hflags. unfold Notifier.checkTask. rewrite Hopen.
  destruct (notified !! Task.id task) as [[a' o']|] eqn:Hst; simpl in Hflags;
    injection Hflags as <- <-.
  - destruct (getTime (Task.due_date task)) as [due|]; [|by flags_norm].
    rewrite Hst. simpl.
    destruct ((0 <? due - now) && (due - now <=? 15 * 60000) && negb a')
      eqn:Hwarn; simpl.
    + rewrite lookup_insert_eq. simpl.
      destruct ((due - now <=? 0) && negb o') eqn:Halert; by flags_norm.
    + rewrite Hst. simpl.
      destruct ((due - now <=? 0) && negb o') eqn:Halert; by flags_norm.
  - destruct (getTime (Task.due_date task)) as [due|]; [|done].
    rewrite lookup_insert_eq. simpl.
    destruct ((0 <? due - now) && (due - now <=? 15 * 60000) && true)
      eqn:Hwarn; simpl.
    + rewrite lookup_insert_eq. simpl.
      destruct ((due - now <=? 0) && true) eqn:Halert; by flags_norm.
    + rewrite lookup_insert_eq. simpl.
      destruct ((due - now <=? 0) && true) eqn:Halert; by flags_norm.
Qed.

Lemma flags_match_default (status : option Status.t) kinds :
  flags_match status kinds
  ↔ flags_match (Some (default (Status.mk false false) status)) kinds.
Proof. by destruct status. Qed.

Lemma checkTask_flags now st task n :
  flags_match (st.1 !! n) (toasts_for n st.2) →
  flags_match ((Notifier.checkTask getTime now st task).1 !! n)
              (toasts_for n (Notifier.checkTask getTime now st task).2).
Proof.
  destruct st as [notified toasts]. intros Hm. simpl in Hm.
  destruct (truthy (Task.completed task) || negb (truthy (Task.due_date task)))
    eqn:Hopen.
  { unfold Notifier.checkTask. by rewrite Hopen. }
  destruct (default (Status.mk false false) (notified !! Task.id task))
    as [a o] eqn:Hflags.
  rewrite (checkTask_eq now notified toasts task a o Hopen Hflags).
  destruct (decide (Task.id task = n)) as [<- | Hne].
  - apply flags_match_default in Hm. rewrite Hflags in Hm.
    destruct (getTime (Task.due_date task)) as [due|]; simpl;
      [|by rewrite lookup_insert_eq].
    rewrite lookup_insert_eq, !app_assoc, !toasts_for_snoc_list.
    destruct (0 <? due - now) eqn:H1;
      destruct (due - now <=? 15 * 60000) eqn:H2;
      destruct (due - now <=? 0) eqn:H3; try (exfalso; lia);
      destruct a, o; simpl in Hm |- *; try done;
      rewrite ?toasts_for_one; simpl; rewrite ?decide_True by done;
      change (toasts_for (Task.id task) []) with (@nil bool);
      first [ destruct Hm as [Hm | Hm]; rewrite Hm; simpl; by auto
            | rewrite Hm; simpl; by auto ].
  - destruct (getTime (Task.due_date task)) as [due|]; simpl;
      rewrite lookup_insert_ne by done; [|done].
    rewrite !app_assoc, !toasts_for_snoc_list.
    destruct ((0 <? due - now) && (due - now <=? 15 * 60000) && negb a);
      destruct ((due - now <=? 0) && negb o); simpl;
      rewrite ?toasts_for_one; simpl; rewrite ?decide_False by done;
      change (toasts_for n []) with (@nil bool); by rewrite ?app_nil_r.
Qed.

Lemma tick_flags st firing n :
  flags_match (st.1 !! n) (toasts_for n st.2) →
  flags_match ((Notifier.tick getTime st firing).1 !! n)
              (toasts_for n (Notifier.tick getTime st firing).2).
Proof.
  destruct firing as [now tasks]. unfold Notifier.tick. simpl. revert st.
  induction tasks as [|task tasks IH]; intros st Hst; simpl; [done|].
  by apply IH, checkTask_flags.
Qed.

Lemma run_flags firings n :
  flags_match ((Notifier.run getTime firings).1 !! n)
              (toasts_for n (Notifier.run getTime firings).2).
Proof.
  unfold Notifier.run.
  assert (H0 : flags_match ((∅ : gmap Z Status.t, @nil Toast).1 !! n)
                 (toasts_for n (∅ : gmap Z Status.t, @nil Toast).2)) by done.
  revert H0. generalize (∅ : gmap Z Status.t, @nil Toast).
  induction firings as [|f firings IH]; intros st Hst; simpl; [done|].
  by apply IH, tick_flags.
Qed.

(** For every task id, over the whole life of the page, the notifier
    issues at most one warning and at most one alert, and never a warning
    after the alert: once a task has been reported overdue it is never
    warned about again, also when its due date is moved forward. *)
Theorem notifier_speaks_once (firings : list (Z * list Task.t)) (n : Z) :
  toasts_for n (Notifier.run getTime firings).2 = []
  ∨ toasts_for n (Notifier.run getTime firings).2 = [true]
  ∨ toasts_for n (Notifier.run getTime firings).2 = [false]
  ∨ toasts_for n (Notifier.run getTime firings).2 = [true; false].
Proof.
  pose proof (run_flags firings n) as H. unfold flags_match in H.
  destruct ((Notifier.run getTime firings).1 !! n) as [[[] []]|];
    try done; try (destruct H); auto.
Qed.

Lemma ceilMins_range diffMs :
  0 < diffMs ≤ 15 * 60000 → 1 ≤ Notifier.ceilMins diffMs ≤ 15.
Proof. unfold Notifier.ceilMins. intros H. zdiv. Qed.

Lemma checkTask_justified now st task :
  Forall (toast_justified getTime) st.2 →
  Forall (toast_justified getTime) (Notifier.checkTask getTime now st task).2.
Proof.
  destruct st as [notified toasts]. intros Hj. simpl in Hj.
  destruct (truthy (Task.completed task) || negb (truthy (Task.due_date task)))
    eqn:Hopen.
  { unfold Notifier.checkTask. by rewrite Hopen. }
  apply orb_false_iff in Hopen as Hopen'. destruct Hopen' as [Hc Hd].
  apply negb_false_iff in Hd.
  destruct (default (Status.mk false false) (notified !! Task.id task))
    as [a o] eqn:Hflags.
  rewrite (checkTask_eq now notified toasts task a o Hopen Hflags).
  destruct (getTime (Task.due_date task)) as [due|] eqn:Hdue; [|done].
  simpl. apply Forall_app. split; [done|]. apply Forall_app. split.
  - destruct ((0 <? due - now) && (due - now <=? 15 * 60000) && negb a)
      eqn:Hwarn; [|constructor].
    apply andb_prop in Hwarn as [Hwarn _]. apply andb_prop in Hwarn as [H1 H2].
    apply List.Forall_cons; [|constructor]. unfold toast_justified. simpl.
    rewrite Hdue. split_and!; try done; try (by eexists);
      apply ceilMins_range; lia.
  - destruct ((due - now <=? 0) && negb o); [|constructor].
    apply List.Forall_cons; [|constructor]. unfold toast_justified. simpl.
    rewrite Hdue. split_and!; try done; by eexists.
Qed.

(** The notifier only speaks about tasks that are open and have a due
    date that parses, and a warning always announces between 1 and 15
    minutes. *)
Theorem notifier_toasts_justified (firings : list (Z * list Task.t)) :
  Forall (toast_justified getTime) (Notifier.run getTime firings).2.
Proof.
  unfold Notifier.run.
  assert (H0 : Forall (toast_justified getTime)
                 (∅ : gmap Z Status.t, @nil Toast).2) by constructor.
  revert H0. generalize (∅ : gmap Z Status.t, @nil Toast).
  induction firings as [|[now tasks] firings IH]; intros st Hst; simpl; [done|].
  apply IH. unfold Notifier.tick. simpl. clear IH. revert st Hst.
  induction tasks as [|task tasks IH]; intros st Hst; simpl; [done|].
  by apply IH, checkTask_justified.
Qed.

End Deadlines.

(** The life of [dated_task] under the sample clock: warned ten minutes
    ahead, reported overdue, and silent after its due date was moved. *)
Example dated_task_toasts :
  toasts_for 5
    (Notifier.run sample_getTime
       [ (400000, [dated_task]);
         (460000, [dated_task]);
         (1000001, [dated_task]);
         (1000002,
          [Task.mk 5 (JStr "File taxes") (JStr "") (JStr "High") (JBool false)
             "2026-01-05T09:00:00.000Z" (JNum 1500000) JUndefined (Some [])]) ]).2
  = [true; false].
Proof. vm_compute. reflexivity. Qed.

(** ** The due-date label *)

Section Labels.

(** A task that is overdue is never labelled in minutes: one that is late
    by up to 23 hours is labelled with the number of started hours, at
    least one, and a later one with the number of started days. *)
Theorem overdue_label (date now : Z) :
  date < now →
  (∃ h, getRelativeTime date now = RelativeTime.OverdueHours h
        ∧ 1 ≤ h ≤ 23
        ∧ (h - 1) * hour_ms < now - date ≤ h * hour_ms)
  ∨ (∃ d, getRelativeTime date now = RelativeTime.OverdueDays d
          ∧ 1 ≤ d
          ∧ 23 * hour_ms < now - date
          ∧ (d - 1) * day_ms < now - date ≤ d * day_ms).
Proof.
  intros Hlate. unfold getRelativeTime, hour_ms, day_ms.
  rewrite (proj2 (Z.ltb_lt _ _)) by lia.
  change (1000 * 60 * 60 * 24) with 86400000.
  change (1000 * 60 * 60) with 3600000. change (1000 * 60) with 60000.
  destruct (Z.ltb_spec (Z.abs ((date - now) / 3600000)) 1) as [H1 | H1];
    [exfalso; zdiv|].
  destruct (Z.ltb_spec (Z.abs ((date - now) / 3600000)) 24) as [H24 | H24].
  - left. eexists. split; [reflexivity|]. zdiv.
  - right. eexists. split; [reflexivity|]. zdiv.
Qed.

Lemma overdue_label_witness :
  (∃ h, getRelativeTime 1000 1001 = RelativeTime.OverdueHours h
        ∧ 1 ≤ h ≤ 23
        ∧ (h - 1) * hour_ms < 1001 - 1000 ≤ h * hour_ms)
  ∨ (∃ d, getRelativeTime 1000 1001 = RelativeTime.OverdueDays d
          ∧ 1 ≤ d
          ∧ 23 * hour_ms < 1001 - 1000
          ∧ (d - 1) * day_ms < 1001 - 1000 ≤ d * day_ms).
Proof. apply (overdue_label 1000 1001). lia. Defined.

(** A task that is not yet due is labelled with the whole minutes left
    when less than an hour remains, with the whole hours left when less
    than a day remains, and with a date otherwise: the weekday format up
    to seven days ahead, the month format beyond. *)
Theorem due_label (date now : Z) :
  now ≤ date →
  getRelativeTime date now
  = if date - now <? hour_ms
    then RelativeTime.DueInMinutes ((date - now) / 60000)
    else if date - now <? day_ms
    then RelativeTime.DueInHours ((date - now) / hour_ms)
    else if date - now <? 7 * day_ms then RelativeTime.WeekdayFormat
    else RelativeTime.MonthDayFormat.
Proof.
  intros Hdue. unfold getRelativeTime, hour_ms, day_ms.
  rewrite (proj2 (Z.ltb_ge _ _)) by lia.
  change (1000 * 60 * 60 * 24) with 86400000.
  change (1000 * 60 * 60) with 3600000. change (1000 * 60) with 60000.
  change (7 * 86400000) with 604800000.
  destruct (Z.ltb_spec ((date - now) / 3600000) 1);
    destruct (Z.ltb_spec (date - now) 3600000); try zdiv; [done|].
  destruct (Z.ltb_spec ((date - now) / 3600000) 24);
    destruct (Z.ltb_spec (date - now) 86400000); try zdiv; [done|].
  destruct (Z.ltb_spec ((date - now) / 86400000) 7);
    destruct (Z.ltb_spec (date - now) 604800000); try zdiv; done.
Qed.

Lemma due_label_witness :
  getRelativeTime 5400000 0
  = if 5400000 - 0 <? hour_ms
    then RelativeTime.DueInMinutes ((5400000 - 0) / 60000)
    else if 5400000 - 0 <? day_ms
    then RelativeTime.DueInHours ((5400000 - 0) / hour_ms)
    else if 5400000 - 0 <? 7 * day_ms then RelativeTime.WeekdayFormat
    else RelativeTime.MonthDayFormat.
Proof. apply (due_label 5400000 0). lia. Defined.

End Labels.

(** ** Badges, counters and filters *)

Section Counters.

Lemma onTimeCount_le dateLe tasks :
  (Badges.onTimeCount dateLe tasks ≤ Badges.completedCount tasks)%nat.
Proof.
  unfold Badges.onTimeCount, Badges.completedCount.
  induction tasks as [|t ts IH]; [done|].
  destruct (Badges.onTime dateLe t) eqn:Hon.
  - rewrite !filter_cons_True by (done || by apply onTime_completed in Hon).
    simpl. lia.
  - rewrite (filter_cons_False _ t) by congruence.
    rewrite filter_cons. case_decide; simpl; lia.
Qed.

(** The badges form two ladders: Task King implies On a Roll, which implies
    First Step; Time Master implies Punctual and On a Roll; Punctual
    implies First Step.  The on-time counter never exceeds the completed
    counter. *)
Theorem badge_ladders (dateLe : JsVal → JsVal → bool) (tasks : list Task.t) :
  (Badges.onTimeCount dateLe tasks ≤ Badges.completedCount tasks)%nat
  ∧ (Badges.productivity_king tasks → Badges.on_a_roll tasks)
  ∧ (Badges.on_a_roll tasks → Badges.first_step tasks)
  ∧ (Badges.time_master dateLe tasks → Badges.punctual dateLe tasks)
  ∧ (Badges.time_master dateLe tasks → Badges.on_a_roll tasks)
  ∧ (Badges.punctual dateLe tasks → Badges.first_step tasks).
Proof.
  pose proof (onTimeCount_le dateLe tasks) as Hle.
  unfold Badges.productivity_king, Badges.on_a_roll, Badges.first_step,
    Badges.time_master, Badges.punctual.
  split_and!; try done; rewrite ?bool_decide_spec; try lia.
  - intros H5. apply Is_true_true, existsb_exists.
    unfold Badges.onTimeCount in H5.
    destruct (filter (λ t, Badges.onTime dateLe t = true) tasks) as [|t l] eqn:Hf;
      [simpl in H5; lia|].
    assert (Ht : t ∈ filter (λ t, Badges.onTime dateLe t = true) tasks)
      by (rewrite Hf; left).
    apply list_elem_of_filter in Ht as [Hon Hin].
    exists t. split; [by apply list_elem_of_In|done].
  - intros Hex. apply Is_true_true, existsb_exists in Hex as (t & Hin & Hon).
    apply list_elem_of_In in Hin.
    assert (Hpos : (0 < Badges.onTimeCount dateLe tasks)%nat).
    { unfold Badges.onTimeCount.
      destruct (filter (λ t, Badges.onTime dateLe t = true) tasks) eqn:Hf;
        [|simpl; lia].
      exfalso. eapply filter_nil_not_elem_of; [exact Hf| |exact Hin]. done. }
    lia.
Qed.

Lemma badge_ladders_witness :
  (Badges.onTimeCount (λ _ _, true) (stored two_tasks)
   ≤ Badges.completedCount (stored two_tasks))%nat
  ∧ (Badges.productivity_king (stored two_tasks)
     → Badges.on_a_roll (stored two_tasks))
  ∧ (Badges.on_a_roll (stored two_tasks) → Badges.first_step (stored two_tasks))
  ∧ (Badges.time_master (λ _ _, true) (stored two_tasks)
     → Badges.punctual (λ _ _, true) (stored two_tasks))
  ∧ (Badges.time_master (λ _ _, true) (stored two_tasks)
     → Badges.on_a_roll (stored two_tasks))
  ∧ (Badges.punctual (λ _ _, true) (stored two_tasks)
     → Badges.first_step (stored two_tasks)).
Proof. exact (badge_ladders (λ _ _, true) (stored two_tasks)). Defined.

(** The header counts add up, they are the sizes of the two filtered
    views, the two views together hold the tasks of the list, and any
    other filter value shows the whole list. *)
Theorem stats_and_filters (filter_ : string) (tasks : list Task.t) :
  Stats.total (stats tasks)
  = (Stats.completed (stats tasks) + Stats.pending (stats tasks))%nat
  ∧ Stats.completed (stats tasks) = length (filteredTasks "completed" tasks)
  ∧ Stats.pending (stats tasks) = length (filteredTasks "active" tasks)
  ∧ Stats.completed (stats tasks) = Badges.completedCount tasks
  ∧ filteredTasks "completed" tasks ++ filteredTasks "active" tasks ≡ₚ tasks
  ∧ (filter_ ≠ "active" → filter_ ≠ "completed" →
     filteredTasks filter_ tasks = tasks).
Proof.
  assert (Hc : filteredTasks "completed" tasks
               = filter (λ t, truthy (Task.completed t) = true) tasks).
  { unfold filteredTasks. apply list_filter_iff. intros t.
    rewrite decide_False, decide_True by done. done. }
  assert (Ha : filteredTasks "active" tasks
               = filter (λ t, ¬ truthy (Task.completed t) = true) tasks).
  { unfold filteredTasks. apply list_filter_iff. intros t.
    rewrite decide_True by done. by destruct (truthy (Task.completed t)). }
  assert (Hp : filter (λ t, negb (truthy (Task.completed t)) = true) tasks
               = filter (λ t, ¬ truthy (Task.completed t) = true) tasks).
  { apply list_filter_iff. intros t. by destruct (truthy (Task.completed t)). }
  assert (Hperm : filteredTasks "completed" tasks ++ filteredTasks "active" tasks
                  ≡ₚ tasks).
  { rewrite Hc, Ha. apply filter_app_complement. }
  unfold stats. simpl. rewrite Hc, Ha, Hp. split_and!; try done.
  - rewrite <- length_app. symmetry. apply Permutation_length.
    rewrite <- Hc, <- Ha. exact Hperm.
  - by rewrite <- Hc, <- Ha.
  - intros H1 H2. unfold filteredTasks. apply filter_keeps_all, Forall_true.
    intros t. by rewrite !decide_False.
Qed.

Lemma stats_and_filters_witness :
  Stats.total (stats (stored two_tasks))
  = (Stats.completed (stats (stored two_tasks))
     + Stats.pending (stats (stored two_tasks)))%nat
  ∧ Stats.completed (stats (stored two_tasks))
    = length (filteredTasks "completed" (stored two_tasks))
  ∧ Stats.pending (stats (stored two_tasks))
    = length (filteredTasks "active" (stored two_tasks))
  ∧ Stats.completed (stats (stored two_tasks))
    = Badges.completedCount (stored two_tasks)
  ∧ filteredTasks "completed" (stored two_tasks)
      ++ filteredTasks "active" (stored two_tasks) ≡ₚ stored two_tasks
  ∧ ("all" ≠ "active" → "all" ≠ "completed" →
     filteredTasks "all" (stored two_tasks) = stored two_tasks).
Proof. exact (stats_and_filters "all" (stored two_tasks)). Defined.

(** Ticking a sub-task flips the completion flag of the sub-tasks with
    that id and of no other, changes no id and no title, and ticking twice
    gives back the list.  Deleting a sub-task leaves no sub-task with its
    id and keeps every other sub-task, in the order they had: the list
    gets shorter by the number of sub-tasks with that id, and stays as it
    is when there is none. *)
Theorem subtask_editing (id : string) (subtasks : list Subtask.t) :
  toggleSubtask id (toggleSubtask id subtasks) = subtasks
  ∧ Subtask.id <$> toggleSubtask id subtasks = Subtask.id <$> subtasks
  ∧ Subtask.title <$> toggleSubtask id subtasks = Subtask.title <$> subtasks
  ∧ (∀ i st, subtasks !! i = Some st →
       Subtask.completed <$> toggleSubtask id subtasks !! i
       = Some (if decide (Subtask.id st = id)
               then negb (Subtask.completed st)
               else Subtask.completed st))
  ∧ (id ∉ Subtask.id <$> deleteSubtask id subtasks)
  ∧ deleteSubtask id subtasks `sublist_of` subtasks
  ∧ (∀ st, st ∈ subtasks → Subtask.id st ≠ id → st ∈ deleteSubtask id subtasks)
  ∧ (length (deleteSubtask id subtasks)
     + length (filter (λ st, Subtask.id st = id) subtasks)
     = length subtasks)%nat
  ∧ (id ∉ Subtask.id <$> subtasks → deleteSubtask id subtasks = subtasks).
Proof.
  unfold toggleSubtask, deleteSubtask. split_and!.
  - rewrite <- list_fmap_compose. rewrite <- (list_fmap_id subtasks) at 2.
    apply list_fmap_ext. intros i [sid title completed] _. simpl.
    destruct (decide (sid = id)) as [Heq | Hne]; simpl.
    + rewrite decide_True by done. simpl. by rewrite negb_involutive.
    + by rewrite decide_False.
  - rewrite <- list_fmap_compose. apply list_fmap_ext.
    intros i st _. simpl. by case_decide.
  - rewrite <- list_fmap_compose. apply list_fmap_ext.
    intros i st _. simpl. by case_decide.
  - intros i st Hi. rewrite list_lookup_fmap, Hi. simpl. by case_decide.
  - intros Hin. apply list_elem_of_fmap in Hin as (st & Hid & Hst).
    apply list_elem_of_filter in Hst as [Hne _]. by apply Hne.
  - apply sublist_filter.
  - intros st Hst Hne. by apply list_elem_of_filter.
  - induction subtasks as [|st sts IH]; [done|].
    destruct (decide (Subtask.id st = id)) as [Heq | Hne].
    + rewrite filter_cons_False, filter_cons_True by (by try intros H; try apply H).
      simpl. lia.
    + rewrite filter_cons_True, filter_cons_False by done. simpl. lia.
  - intros Hnotin. apply filter_keeps_all, Forall_forall.
    intros st Hst Heq. apply Hnotin. rewrite <- Heq.
    by apply list_elem_of_fmap_2.
Qed.

(** One sub-task ticked, one deleted. *)
Example subtask_editing_example :
  toggleSubtask "b"
    [Subtask.mk "a" "Bread" false; Subtask.mk "b" "Milk" false]
  = [Subtask.mk "a" "Bread" false; Subtask.mk "b" "Milk" true]
  ∧ deleteSubtask "a"
      [Subtask.mk "a" "Bread" false; Subtask.mk "b" "Milk" false]
    = [Subtask.mk "b" "Milk" false].
Proof. by split. Qed.

End Counters.
